(** * Trust Center link-key management of zigpy-znp

    A shallow embedding of [zigpy_znp/znp/security.py] and of the struct
    declarations of [zigpy_znp/types/named.py] it relies on.

    Byte strings ([bytes], [t.KeyData], the serialization of a [t.EUI64]) are
    lists of integers; a well-formed byte lies in [0, 256).  Two objects of
    one class are equal when they hold the same bytes.  The one comparison
    of the code across classes, of a seed with the [bytes] that
    [compute_seed] returns, carries the class of the seed along
    ([seed_object]).  Python exceptions are the constructors of [exn];
    a fallible function returns a [result]; a function that writes to NVRAM
    threads a [session], the store and the log of the items written. *)

From Stdlib Require Import String ZArith List Bool Lia.
Import ListNotations.
Local Open Scope Z_scope.

(** ** Byte strings *)

Definition bytes := list Z.

Definition is_byte (b : Z) : Prop := 0 <= b < 256.

Definition is_bytes (n : nat) (l : bytes) : Prop :=
  length l = n /\ Forall is_byte l.

(** [t.EUI64.serialize()] is 8 bytes, a [t.KeyData] is 16 bytes. *)
Definition EUI64 := bytes.
Definition KeyData := bytes.
Definition is_EUI64 (a : EUI64) : Prop := is_bytes 8 a.
Definition is_KeyData (k : KeyData) : Prop := is_bytes 16 k.

Fixpoint bytes_eqb (x y : bytes) : bool :=
  match x, y with
  | [], [] => true
  | a :: x', b :: y' => (a =? b) && bytes_eqb x' y'
  | _, _ => false
  end.

(** ** Python slicing *)

(** The start or stop [n] of a slice of a sequence of length [len]: a
    negative index counts from the end and is clamped at 0; an index past
    the end is clamped by [skipn] and [firstn] themselves. *)
Definition slice_index (len : nat) (n : Z) : nat :=
  if n <? 0 then Z.to_nat (Z.max 0 (Z.of_nat len + n)) else Z.to_nat n.

(** [lst[n:]] and [lst[:n]] *)
Definition slice_from {A} (lst : list A) (n : Z) : list A :=
  skipn (slice_index (length lst) n) lst.

Definition slice_to {A} (lst : list A) (n : Z) : list A :=
  firstn (slice_index (length lst) n) lst.

(** ** Key Derivation Engine *)

Module KeyDerivation.

(** [def rotate(lst, n): return lst[n:] + lst[:n]] *)
Definition rotate {A} (lst : list A) (n : Z) : list A :=
  slice_from lst n ++ slice_to lst n.

(** [[a ^ b for a, b in zip(x, y)]]; [zip] stops at the shorter argument. *)
Definition xor_zip (x y : bytes) : bytes :=
  map (fun ab => Z.lxor (fst ab) (snd ab)) (combine x y).

(** [2 * ieee.serialize()] *)
Definition twice (ieee : EUI64) : bytes := ieee ++ ieee.

Definition compute_key (ieee : EUI64) (seed : KeyData) (shift : Z) : KeyData :=
  let rotated_seed := rotate seed shift in
  xor_zip rotated_seed (twice ieee).

Definition compute_seed (ieee : EUI64) (key : KeyData) (shift : Z) : bytes :=
  let rotated_seed := xor_zip key (twice ieee) in
  rotate rotated_seed (- shift).

(** [range(0x00, 0x0F + 1)] *)
Definition shift_range : list Z := map Z.of_nat (seq 0 16).

(** [find_key_shift] on a seed of class [bytes], as [compute_seed]
    returns it. *)
Definition find_key_shift (ieee : EUI64) (key : KeyData) (seed : KeyData)
  : option Z :=
  find (fun shift => bytes_eqb seed (compute_seed ieee key shift)) shift_range.

(** The object a seed is held in.  [compute_seed] returns [bytes], and so
    the Seed Optimizer does.  [t.KeyData] is the class [named.py] imports
    from the zigpy library, a list of 16 [uint8_t]: [compute_key] builds
    one from a list, and [osal_read(..., item_type=t.KeyData)] returns
    one. *)
Inductive seed_object : Type :=
| bytes_seed (seed : bytes)
| KeyData_seed (seed : KeyData).

(** [seed == compute_seed(ieee, key, shift)]: two [bytes] objects are equal
    when they hold the same bytes; a list and a [bytes] object are not
    equal, whatever they hold. *)
Definition seed_eqb (seed : seed_object) (candidate : bytes) : bool :=
  match seed with
  | bytes_seed s => bytes_eqb s candidate
  | KeyData_seed _ => false
  end.

(** [find_key_shift] on a seed of either class. *)
Definition find_key_shift_any (ieee : EUI64) (key : KeyData)
  (seed : seed_object) : option Z :=
  find (fun shift => seed_eqb seed (compute_seed ieee key shift)) shift_range.

End KeyDerivation.

Import KeyDerivation.


(** ** Seed Optimizer *)

Module SeedOptimizer.

(** [sum(find_key_shift(i, k, seed) is not None for i, k in ieees_and_keys)] *)
Definition count_derivable (ieees_and_keys : list (EUI64 * KeyData))
  (seed : KeyData) : Z :=
  fold_left
    (fun acc ik =>
       acc + match find_key_shift (fst ik) (snd ik) seed with
             | Some _ => 1
             | None => 0
             end)
    ieees_and_keys 0.

(** The generator [iter_seed_candidates], as the list of the tuples it
    yields: [todo] is what the [for] loop has still to visit, and the
    [break] ends the list after a candidate that derives every key. *)
Fixpoint iter_seed_candidates_from (ieees_and_keys todo : list (EUI64 * KeyData))
  : list (Z * bytes) :=
  match todo with
  | [] => []
  | (ieee, key) :: todo' =>
      let seed := compute_seed ieee key 0 in
      let count := count_derivable ieees_and_keys seed in
      (count, seed) ::
        (if count =? Z.of_nat (length ieees_and_keys) then []
         else iter_seed_candidates_from ieees_and_keys todo')
  end.

Definition iter_seed_candidates (ieees_and_keys : list (EUI64 * KeyData))
  : list (Z * bytes) :=
  iter_seed_candidates_from ieees_and_keys ieees_and_keys.

(** [x < y] on [bytes]: lexicographic, a proper prefix is smaller. *)
Fixpoint bytes_ltb (x y : bytes) : bool :=
  match x, y with
  | _, [] => false
  | [], _ :: _ => true
  | a :: x', b :: y' => (a <? b) || ((a =? b) && bytes_ltb x' y')
  end.

(** [x > y] on the tuples [(count, seed)]: the first components decide
    unless they are equal. *)
Definition tuple_gtb (x y : Z * bytes) : bool :=
  if fst x =? fst y then bytes_ltb (snd y) (snd x) else fst y <? fst x.

(** The builtin [max] over an iterable: the running maximum is replaced
    only by a strictly greater item. *)
Definition py_max_from (start : Z * bytes) (items : list (Z * bytes))
  : Z * bytes :=
  fold_left (fun best item => if tuple_gtb item best then item else best)
    items start.

(** [None] stands for the [ValueError] of [max] on an empty iterable. *)
Definition py_max (items : list (Z * bytes)) : option (Z * bytes) :=
  match items with
  | [] => None
  | x :: items' => Some (py_max_from x items')
  end.

(** Lines 339-341 of [write_devices]:
    [if seed is None and ieees_and_keys: _, seed = max(iter_seed_candidates(...))] *)
Definition choose_seed (seed : option KeyData)
  (ieees_and_keys : list (EUI64 * KeyData)) : option KeyData :=
  match seed, ieees_and_keys with
  | None, _ :: _ =>
      match py_max (iter_seed_candidates ieees_and_keys) with
      | Some (_, seed') => Some seed'
      | None => None
      end
  | _, _ => seed
  end.

(** The selection as the specification words it: the candidates are
    compared by count alone and the first one that reaches the maximum
    wins. *)
Definition spec_first_max_from (start : Z * bytes) (items : list (Z * bytes))
  : Z * bytes :=
  fold_left (fun best item => if fst best <? fst item then item else best)
    items start.

Definition spec_choose_seed (ieees_and_keys : list (EUI64 * KeyData))
  : option KeyData :=
  match iter_seed_candidates ieees_and_keys with
  | [] => None
  | x :: items => Some (snd (spec_first_max_from x items))
  end.

(** The candidate a pair gives rise to: its seed at shift 0 and the number
    of pairs of the input that derive from it. *)
Definition seed_of (ik : EUI64 * KeyData) : bytes :=
  compute_seed (fst ik) (snd ik) 0.

Definition candidate (ieees_and_keys : list (EUI64 * KeyData))
  (ik : EUI64 * KeyData) : Z * bytes :=
  (count_derivable ieees_and_keys (seed_of ik), seed_of ik).

(** A candidate from which every key of the input derives. *)
Definition derives_all (ieees_and_keys : list (EUI64 * KeyData))
  (ik : EUI64 * KeyData) : Prop :=
  count_derivable ieees_and_keys (seed_of ik)
  = Z.of_nat (length ieees_and_keys).

End SeedOptimizer.

Import SeedOptimizer.

(** ** Exceptions *)

Inductive exn : Type :=
| SecurityError         (* zigpy_znp.exceptions.SecurityError *)
| ItemNotFound          (* an NVRAM item that does not exist *)
| CapacityExceeded      (* a table write past the existing capacity *)
| KeyError
| IndexError
| TypeError
| AttributeError
| ValueError
| AssertionError
| RuntimeError (msg : string).

Inductive result (A : Type) : Type :=
| Ok (a : A)
| Raise (e : exn).

Arguments Ok {A} a.
Arguments Raise {A} e.

Definition bind {A B} (r : result A) (k : A -> result B) : result B :=
  match r with
  | Ok a => k a
  | Raise e => Raise e
  end.

Declare Scope result_scope.
Delimit Scope result_scope with result.
Notation "x <- r ;; k" := (bind r (fun x => k))
  (at level 61, r at next level, right associativity) : result_scope.
Notation "' pat <- r ;; k" := (bind r (fun x => match x with pat => k end))
  (at level 61, pat pattern, r at next level, right associativity)
  : result_scope.
Local Open Scope result_scope.

(** A loop whose body can raise: [for x in xs: s = body(x, s)]. *)
Fixpoint for_each {A S} (body : A -> S -> result S) (xs : list A) (s : S)
  : result S :=
  match xs with
  | [] => Ok s
  | x :: xs' => s' <- body x s ;; for_each body xs' s'
  end.

(** [enumerate(xs)] counted from [start]. *)
Fixpoint enumerate_from {A} (start : Z) (xs : list A) : list (Z * A) :=
  match xs with
  | [] => []
  | x :: xs' => (start, x) :: enumerate_from (start + 1) xs'
  end.

Definition enumerate {A} (xs : list A) : list (Z * A) := enumerate_from 0 xs.

(** [xs[i]] on a list: a negative index counts from the end. *)
Definition getitem {A} (xs : list A) (i : Z) : result A :=
  let n := Z.of_nat (length xs) in
  let j := if i <? 0 then i + n else i in
  if (j <? 0) || (n <=? j) then Raise IndexError
  else match nth_error xs (Z.to_nat j) with
       | Some x => Ok x
       | None => Raise IndexError
       end.

(** [xs[i] = x] on a list, for the indices [enumerate] produces. *)
Fixpoint setitem {A} (xs : list A) (i : nat) (x : A) : result (list A) :=
  match xs, i with
  | [], _ => Raise IndexError
  | _ :: xs', O => Ok (x :: xs')
  | y :: xs', S i' => xs'' <- setitem xs' i' x ;; Ok (y :: xs'')
  end.

(** ** Integer types *)

(** Modelled from the spec: [zigpy_znp/types/basic.py] is not among the
    sources.  The counters are 32-bit and the fields of [named.py] are
    declared [uint8_t], [uint16_t], [uint32_t]: a [uintN_t] is an integer of
    [0, 2^N), building one from a value outside that range raises, and it is
    serialized little-endian. *)
Definition uint_t (bits : Z) (v : Z) : result Z :=
  if (0 <=? v) && (v <? 2 ^ bits) then Ok v else Raise ValueError.

Definition uint8_t := uint_t 8.
Definition uint16_t := uint_t 16.
Definition uint32_t := uint_t 32.

Definition serialize_uint16 (v : Z) : bytes := [v mod 256; v / 256].

Definition deserialize_uint16 (data : bytes) : result (Z * bytes) :=
  match data with
  | lo :: hi :: rest => Ok (lo + 256 * hi, rest)
  | _ => Raise ValueError
  end.

(** [t.KeyData.deserialize(data)]: the first 16 bytes and the rest. *)
Definition KeyData_deserialize (data : bytes) : result (KeyData * bytes) :=
  if (length data <? 16)%nat then Raise ValueError
  else Ok (firstn 16 data, skipn 16 data).

(** ** Structs of [named.py] *)

Module AddrMgrUserType.
Definition Default : Z := 0x00.
Definition Assoc : Z := 0x01.
Definition Security : Z := 0x02.
Definition Binding : Z := 0x04.
Definition Private1 : Z := 0x08.
End AddrMgrUserType.

Module KeyType.
Definition NONE : Z := 0.
Definition NWK : Z := 1.
End KeyType.

Module KeyAttributes.
Definition PROVISIONAL_KEY : Z := 0x00.
Definition DEFAULT_KEY : Z := 0xFF.
End KeyAttributes.

Module AuthenticationOption.
Definition NotAuthenticated : Z := 0x00.
Definition AuthenticatedCBCK : Z := 0x01.
Definition AuthenticatedEA : Z := 0x02.
(** An [enum_uint8] without [MissingEnumMixin] has these members only. *)
Definition of_uint8 (v : Z) : result Z :=
  if (v =? NotAuthenticated) || (v =? AuthenticatedCBCK)
     || (v =? AuthenticatedEA)
  then Ok v else Raise ValueError.
End AuthenticationOption.

Record AddrMgrEntry : Type := {
  type : Z;                 (* AddrMgrUserType, a flag byte *)
  nwkAddr : Z;
  extAddr : EUI64 }.

(** [t.EUI64.convert("FF:FF:FF:FF:FF:FF:FF:FF")] and the all-zero address *)
Definition EUI64_ones : EUI64 := repeat 0xFF 8%nat.
Definition EUI64_zeros : EUI64 := repeat 0 8%nat.

Definition EMPTY_ADDR_MGR_ENTRY : AddrMgrEntry :=
  {| type := AddrMgrUserType.Default;
     nwkAddr := 0xFFFF;
     extAddr := EUI64_ones |}.

Record TCLKDevEntry : Type := {
  txFrmCntr : Z;
  rxFrmCntr : Z;
  tclk_extAddr : EUI64;
  keyAttributes : Z;
  keyType : Z;
  SeedShift_IcIndex : Z }.

(** Modelled from the spec: the declaration of [t.APSKeyDataTableEntry] is
    not among the sources.  It is the raw-key record of key and two
    counters, with the fields [security.py] names; [named.py] declares the
    same three fields as [LinkKeyTableEntry]. *)
Record APSKeyDataTableEntry : Type := {
  Key : KeyData;
  TxFrameCounter : Z;
  RxFrameCounter : Z }.

(** *** Keyword construction and attribute access *)

(** Modelled from the spec: [zigpy_znp/types/cstruct.py] is not among the
    sources and the spec leaves the record primitives to it.  A struct
    instance is kept as Python keeps an object, as the attributes set on
    it: one per declared field, [None] where the constructor was given no
    value.  The constructor binds its keyword arguments to the declared
    fields and raises [TypeError] on a keyword that names no field; reading
    an attribute the instance does not have raises [AttributeError]. *)
Definition cstruct := list (string * option Z).

Fixpoint lookup_field {V} (name : string) (fields : list (string * V))
  : option V :=
  match fields with
  | [] => None
  | (n, v) :: fields' =>
      if String.eqb n name then Some v else lookup_field name fields'
  end.

Definition declared (decl : list string) (name : string) : bool :=
  existsb (String.eqb name) decl.

Definition cstruct_new (decl : list string) (kwargs : list (string * Z))
  : result cstruct :=
  if forallb (fun kw => declared decl (fst kw)) kwargs
  then Ok (map (fun name => (name, lookup_field name kwargs)) decl)
  else Raise TypeError.

Definition getattr (obj : cstruct) (name : string) : result (option Z) :=
  match lookup_field name obj with
  | Some v => Ok v
  | None => Raise AttributeError
  end.

(** An attribute used as an integer. *)
Definition getattr_int (obj : cstruct) (name : string) : result Z :=
  v <- getattr obj name ;;
  match v with
  | Some z => Ok z
  | None => Raise TypeError
  end.

(** [class APSLinkKeyTableEntry(cstruct.CStruct)], lines 554-557 *)
Definition APSLinkKeyTableEntry_fields : list string :=
  ["AddressManagerIndex"; "LinkKeyTableOffset"; "AuthenticationState"]%string.

Definition APSLinkKeyTableEntry (kwargs : list (string * Z)) : result cstruct :=
  cstruct_new APSLinkKeyTableEntry_fields kwargs.

(** The entry on the wire: [uint16_t], [uint16_t], [enum_uint8], 5 bytes. *)
Definition APSLinkKeyTableEntry_serialize (e : cstruct) : result bytes :=
  i <- getattr_int e "AddressManagerIndex" ;;
  i <- uint16_t i ;;
  o <- getattr_int e "LinkKeyTableOffset" ;;
  o <- uint16_t o ;;
  a <- getattr_int e "AuthenticationState" ;;
  a <- AuthenticationOption.of_uint8 a ;;
  Ok (serialize_uint16 i ++ serialize_uint16 o ++ [a]).

Definition APSLinkKeyTableEntry_deserialize (data : bytes)
  : result (cstruct * bytes) :=
  '(i, data) <- deserialize_uint16 data ;;
  '(o, data) <- deserialize_uint16 data ;;
  match data with
  | a :: data =>
      a <- AuthenticationOption.of_uint8 a ;;
      e <- APSLinkKeyTableEntry
             [("AddressManagerIndex", i); ("LinkKeyTableOffset", o);
              ("AuthenticationState", a)]%string ;;
      Ok (e, data)
  | [] => Raise ValueError
  end.

(** [class APSLinkKeyTable(basic.LVList, length_type=basic.uint16_t, ...)]:
    a 16-bit count, then the entries. *)
Definition APSLinkKeyTable := list cstruct.

Fixpoint serialize_entries (entries : APSLinkKeyTable) : result bytes :=
  match entries with
  | [] => Ok []
  | e :: entries' =>
      b <- APSLinkKeyTableEntry_serialize e ;;
      bs <- serialize_entries entries' ;;
      Ok (b ++ bs)
  end.

Definition APSLinkKeyTable_serialize (table : APSLinkKeyTable) : result bytes :=
  n <- uint16_t (Z.of_nat (length table)) ;;
  bs <- serialize_entries table ;;
  Ok (serialize_uint16 n ++ bs).

Fixpoint deserialize_entries (n : nat) (data : bytes)
  : result (APSLinkKeyTable * bytes) :=
  match n with
  | O => Ok ([], data)
  | S n' =>
      '(e, data) <- APSLinkKeyTableEntry_deserialize data ;;
      '(es, data) <- deserialize_entries n' data ;;
      Ok (e :: es, data)
  end.

Definition APSLinkKeyTable_deserialize (data : bytes)
  : result (APSLinkKeyTable * bytes) :=
  '(n, data) <- deserialize_uint16 data ;;
  deserialize_entries (Z.to_nat n) data.

(** [b.ljust(width, b"\x00")] *)
Definition ljust (b : bytes) (width : nat) : bytes :=
  b ++ repeat 0 (width - length b).

(** ** NVRAM *)

(** [app._znp.version] is one of three firmware generations; the code
    compares it as a number, kept here in hundredths. *)
Inductive firmware : Type := Z_Stack_1_2 | Z_Stack_3_0 | Z_Stack_3_30.

Definition version_number (f : firmware) : Z :=
  match f with
  | Z_Stack_1_2 => 120
  | Z_Stack_3_0 => 300
  | Z_Stack_3_30 => 330
  end.

(** The items [security.py] names: [OsalNvIds] items, the two legacy
    [OsalNvIds] table ranges [START..END], and the [ExNvIds] tables. *)
Inductive nvid : Type :=
| TCLK_SEED
| ADDRMGR
| APS_LINK_KEY_TABLE
| LEGACY_TCLK_TABLE
| LEGACY_APS_LINK_KEY_DATA
| Ex_ADDRMGR
| Ex_TCLK_TABLE
| Ex_APS_KEY_DATA_TABLE.

Definition nvid_eqb (a b : nvid) : bool :=
  match a, b with
  | TCLK_SEED, TCLK_SEED | ADDRMGR, ADDRMGR
  | APS_LINK_KEY_TABLE, APS_LINK_KEY_TABLE
  | LEGACY_TCLK_TABLE, LEGACY_TCLK_TABLE
  | LEGACY_APS_LINK_KEY_DATA, LEGACY_APS_LINK_KEY_DATA
  | Ex_ADDRMGR, Ex_ADDRMGR | Ex_TCLK_TABLE, Ex_TCLK_TABLE
  | Ex_APS_KEY_DATA_TABLE, Ex_APS_KEY_DATA_TABLE => true
  | _, _ => false
  end.

(** The coprocessor's item store.  An item is absent ([None]) or holds a
    value; a table holds one record per slot of its capacity.  [secured]
    marks the items whose disclosure the firmware refuses. *)
Record nvram : Type := {
  version : firmware;
  secured : nvid -> bool;
  tclk_seed : option KeyData;
  addrmgr : option (list AddrMgrEntry);
  aps_link_key_table : option bytes;
  legacy_tclk_table : list TCLKDevEntry;
  legacy_aps_link_key_data : list APSKeyDataTableEntry;
  ex_addrmgr : list AddrMgrEntry;
  ex_tclk_table : list TCLKDevEntry;
  ex_aps_key_data_table : list APSKeyDataTableEntry }.

Definition set_addrmgr (v : list AddrMgrEntry) (nv : nvram) : nvram :=
  {| version := version nv; secured := secured nv;
     tclk_seed := tclk_seed nv;
     addrmgr := Some v;
     aps_link_key_table := aps_link_key_table nv;
     legacy_tclk_table := legacy_tclk_table nv;
     legacy_aps_link_key_data := legacy_aps_link_key_data nv;
     ex_addrmgr := ex_addrmgr nv;
     ex_tclk_table := ex_tclk_table nv;
     ex_aps_key_data_table := ex_aps_key_data_table nv |}.

Definition set_aps_link_key_table (v : bytes) (nv : nvram) : nvram :=
  {| version := version nv; secured := secured nv;
     tclk_seed := tclk_seed nv;
     addrmgr := addrmgr nv;
     aps_link_key_table := Some v;
     legacy_tclk_table := legacy_tclk_table nv;
     legacy_aps_link_key_data := legacy_aps_link_key_data nv;
     ex_addrmgr := ex_addrmgr nv;
     ex_tclk_table := ex_tclk_table nv;
     ex_aps_key_data_table := ex_aps_key_data_table nv |}.

Definition set_legacy_tclk_table (v : list TCLKDevEntry) (nv : nvram) : nvram :=
  {| version := version nv; secured := secured nv;
     tclk_seed := tclk_seed nv;
     addrmgr := addrmgr nv;
     aps_link_key_table := aps_link_key_table nv;
     legacy_tclk_table := v;
     legacy_aps_link_key_data := legacy_aps_link_key_data nv;
     ex_addrmgr := ex_addrmgr nv;
     ex_tclk_table := ex_tclk_table nv;
     ex_aps_key_data_table := ex_aps_key_data_table nv |}.

Definition set_legacy_aps_link_key_data (v : list APSKeyDataTableEntry)
  (nv : nvram) : nvram :=
  {| version := version nv; secured := secured nv;
     tclk_seed := tclk_seed nv;
     addrmgr := addrmgr nv;
     aps_link_key_table := aps_link_key_table nv;
     legacy_tclk_table := legacy_tclk_table nv;
     legacy_aps_link_key_data := v;
     ex_addrmgr := ex_addrmgr nv;
     ex_tclk_table := ex_tclk_table nv;
     ex_aps_key_data_table := ex_aps_key_data_table nv |}.

Definition set_ex_addrmgr (v : list AddrMgrEntry) (nv : nvram) : nvram :=
  {| version := version nv; secured := secured nv;
     tclk_seed := tclk_seed nv;
     addrmgr := addrmgr nv;
     aps_link_key_table := aps_link_key_table nv;
     legacy_tclk_table := legacy_tclk_table nv;
     legacy_aps_link_key_data := legacy_aps_link_key_data nv;
     ex_addrmgr := v;
     ex_tclk_table := ex_tclk_table nv;
     ex_aps_key_data_table := ex_aps_key_data_table nv |}.

Definition set_ex_tclk_table (v : list TCLKDevEntry) (nv : nvram) : nvram :=
  {| version := version nv; secured := secured nv;
     tclk_seed := tclk_seed nv;
     addrmgr := addrmgr nv;
     aps_link_key_table := aps_link_key_table nv;
     legacy_tclk_table := legacy_tclk_table nv;
     legacy_aps_link_key_data := legacy_aps_link_key_data nv;
     ex_addrmgr := ex_addrmgr nv;
     ex_tclk_table := v;
     ex_aps_key_data_table := ex_aps_key_data_table nv |}.

Definition set_ex_aps_key_data_table (v : list APSKeyDataTableEntry)
  (nv : nvram) : nvram :=
  {| version := version nv; secured := secured nv;
     tclk_seed := tclk_seed nv;
     addrmgr := addrmgr nv;
     aps_link_key_table := aps_link_key_table nv;
     legacy_tclk_table := legacy_tclk_table nv;
     legacy_aps_link_key_data := legacy_aps_link_key_data nv;
     ex_addrmgr := ex_addrmgr nv;
     ex_tclk_table := ex_tclk_table nv;
     ex_aps_key_data_table := v |}.

(** ** NVRAM Accessor *)

Module Accessor.

(** Modelled from the spec: [zigpy_znp/nvram.py] is not among the sources.
    [read(item, sub_id?)] fails with [SecurityError] if the firmware refuses
    disclosure of a protected item and with [ItemNotFound] if the item is
    absent. *)
Definition osal_read {A} (item : nvid) (get : nvram -> option A) (nv : nvram)
  : result A :=
  if secured nv item then Raise SecurityError
  else match get nv with
       | Some a => Ok a
       | None => Raise ItemNotFound
       end.

(** Modelled from the spec: [read_table(item, record_type)] is the ordered
    finite sequence of the table's records, in legacy addressing
    ([osal_read_table]) as in typed-table addressing ([read_table]); a
    protected table fails with [SecurityError] at its first record. *)
Definition read_table {A} (item : nvid) (get : nvram -> list A) (nv : nvram)
  : result (list A) :=
  if secured nv item then Raise SecurityError else Ok (get nv).

(** What a write does: the store afterwards and the items written so far,
    oldest first. *)
Record session : Type := {
  store : nvram;
  written : list nvid }.

(** Modelled from the spec: [write(item, sub_id?, bytes)] is
    create-or-update. *)
Definition osal_write (item : nvid) (set : nvram -> nvram) (s : session)
  : result unit * session :=
  (Ok tt, {| store := set (store s); written := written s ++ [item] |}).

(** Modelled from the spec: [write_table(item, values, fill_value)] writes
    [values] at ordinals [0, len(values)) and pads the remaining previously
    existing capacity with [fill_value]; it fails with [CapacityExceeded] if
    [len(values)] exceeds the table's current capacity, which is read from
    the device and never grown.  The same for [osal_write_table] on a legacy
    range. *)
Definition write_table {A} (item : nvid) (get : nvram -> list A)
  (set : list A -> nvram -> nvram) (values : list A) (fill_value : A)
  (s : session) : result unit * session :=
  let capacity := length (get (store s)) in
  if (capacity <? length values)%nat then (Raise CapacityExceeded, s)
  else (Ok tt,
        {| store := set (values ++ repeat fill_value (capacity - length values))
                        (store s);
           written := written s ++ [item] |}).

End Accessor.

Import Accessor.

(** Statements that write: the session is threaded through and an
    exception leaves it as it was when raised. *)
Definition stmt (A : Type) : Type := session -> result A * session.

Definition seq_stmt {A B} (c : stmt A) (k : A -> stmt B) : stmt B :=
  fun s => match c s with
           | (Ok a, s') => k a s'
           | (Raise e, s') => (Raise e, s')
           end.

(** A read, or a pure computation that can raise, used as a statement. *)
Definition reading {A} (r : nvram -> result A) : stmt A :=
  fun s => (r (store s), s).

Definition raise {A} (e : exn) : stmt A := fun s => (Raise e, s).

Declare Scope stmt_scope.
Delimit Scope stmt_scope with stmt.
Notation "x <~ c ;; k" := (seq_stmt c (fun x => k))
  (at level 61, c at next level, right associativity) : stmt_scope.
Notation "c ;;; k" := (seq_stmt c (fun _ => k))
  (at level 61, right associativity) : stmt_scope.

(** ** Device Registry Builder *)

Record StoredDevice : Type := {
  ieee : EUI64;
  nwk : Z;
  hashed_link_key_shift : option Z;
  aps_link_key : option KeyData;
  tx_counter : option Z;
  rx_counter : option Z }.

(** [devices: dict], keyed by [EUI64], in insertion order. *)
Definition dict := list (EUI64 * StoredDevice).

Fixpoint dict_get (d : dict) (k : EUI64) : result StoredDevice :=
  match d with
  | [] => Raise KeyError
  | (k', v) :: d' => if bytes_eqb k' k then Ok v else dict_get d' k
  end.

(** [d[k] = v]: an existing key keeps its place. *)
Fixpoint dict_set (d : dict) (k : EUI64) (v : StoredDevice) : dict :=
  match d with
  | [] => [(k, v)]
  | (k', v') :: d' =>
      if bytes_eqb k' k then (k', v) :: d' else (k', v') :: dict_set d' k v
  end.

Definition dict_values (d : dict) : list StoredDevice := map snd d.

(** A generator, as what its consumer sees: the items it yields, then
    either its end or the exception it raises instead of a next item. *)
Definition generator (A : Type) : Type := (list A * option exn)%type.

(** The generator's [for] loop: the body skips the entry ([continue]),
    yields an item, or raises. *)
Fixpoint yield_from {E A} (body : E -> result (option A)) (entries : list E)
  : generator A :=
  match entries with
  | [] => ([], None)
  | e :: entries' =>
      match body e with
      | Raise x => ([], Some x)
      | Ok None => yield_from body entries'
      | Ok (Some a) =>
          let rest := yield_from body entries' in (a :: fst rest, snd rest)
      end
  end.

(** [async for x in g: s = body(x, s)]: the consumer's body runs on each
    item before the generator is resumed. *)
Definition for_generator {A S} (g : generator A) (body : A -> S -> result S)
  (s : S) : result S :=
  s' <- for_each body (fst g) s ;;
  match snd g with
  | Some e => Raise e
  | None => Ok s'
  end.

(** [if d.aps_link_key]: [None] and an empty sequence are false. *)
Definition truthy (key : option KeyData) : option KeyData :=
  match key with
  | Some (b :: k) => Some (b :: k)
  | _ => None
  end.

(** [find_key_shift] as [write_devices] calls it, against the seed it
    chose: [None], which equals no byte string, or a [bytes] object, as the
    Seed Optimizer yields and as the [seed] argument is taken to be. *)
Definition find_key_shift_in (ieee : EUI64) (key : KeyData)
  (seed : option KeyData) : option Z :=
  match seed with
  | Some seed => find_key_shift ieee key seed
  | None => None
  end.

(** [find_key_shift(ieee, key, tclk_seed)] as [read_devices] calls it:
    [tclk_seed] is [None], which equals no [bytes] object, or the
    [t.KeyData] that [osal_read] returned. *)
Definition find_key_shift_stored (ieee : EUI64) (key : KeyData)
  (tclk_seed : option KeyData) : option Z :=
  match tclk_seed with
  | Some seed => find_key_shift_any ieee key (KeyData_seed seed)
  | None => None
  end.

(** [x + counter_increment] on a counter that may be [None]. *)
Definition add_counter (x : option Z) (counter_increment : Z) : result Z :=
  match x with
  | Some x => Ok (x + counter_increment)
  | None => Raise TypeError
  end.

(** A 32-bit struct field; a field left [None] cannot be stored and is
    rejected when the record is built. *)
Definition counter_field (x : option Z) : result Z :=
  match x with
  | Some x => uint32_t x
  | None => Raise ValueError
  end.

Definition new_TCLKDevEntry (txFrmCntr : Z) (rxFrmCntr : option Z)
  (extAddr : EUI64) (keyAttributes keyType SeedShift_IcIndex : Z)
  : result TCLKDevEntry :=
  tx <- uint32_t txFrmCntr ;;
  rx <- counter_field rxFrmCntr ;;
  shift <- uint8_t SeedShift_IcIndex ;;
  Ok {| txFrmCntr := tx; rxFrmCntr := rx; tclk_extAddr := extAddr;
        keyAttributes := keyAttributes; keyType := keyType;
        SeedShift_IcIndex := shift |}.

Definition new_APSKeyDataTableEntry (Key : KeyData) (TxFrameCounter : Z)
  (RxFrameCounter : option Z) : result APSKeyDataTableEntry :=
  tx <- uint32_t TxFrameCounter ;;
  rx <- counter_field RxFrameCounter ;;
  Ok {| Key := Key; TxFrameCounter := tx; RxFrameCounter := rx |}.

Definition tclk_fill_value : TCLKDevEntry :=
  {| txFrmCntr := 0; rxFrmCntr := 0; tclk_extAddr := EUI64_zeros;
     keyAttributes := KeyAttributes.PROVISIONAL_KEY;
     keyType := KeyType.NONE;
     SeedShift_IcIndex := 0 |}.

Definition aps_key_data_fill_value : APSKeyDataTableEntry :=
  {| Key := repeat 0x00 16%nat; TxFrameCounter := 0; RxFrameCounter := 0 |}.

Definition link_key_table_too_large : exn :=
  RuntimeError "New link key table is larger than the current one".

Section Registry.

(** [OsalNvIds.LEGACY_APS_LINK_KEY_DATA_START]; [nvids.py] is not among the
    sources. *)
Variable LEGACY_APS_LINK_KEY_DATA_START : Z.

Definition read_addr_mgr_entries (nv : nvram) : result (list AddrMgrEntry) :=
  if version_number (version nv) >=? 330
  then read_table Ex_ADDRMGR ex_addrmgr nv
  else osal_read ADDRMGR addrmgr nv.

Definition hashed_item : Type := (EUI64 * Z * Z * KeyData)%type.

(** Lines 191-204: the body of the loop over the hashed-key table. *)
Definition hashed_link_key_item (seed : KeyData) (entry : TCLKDevEntry)
  : result (option hashed_item) :=
  if bytes_eqb (tclk_extAddr entry) EUI64_zeros then Ok None
  else
    let ieee := tclk_extAddr entry in
    let rotated_seed := rotate seed (SeedShift_IcIndex entry) in
    let link_key_data := xor_zip rotated_seed (ieee ++ ieee) in
    '(link_key, _) <- KeyData_deserialize link_key_data ;;
    Ok (Some (tclk_extAddr entry, txFrmCntr entry, rxFrmCntr entry, link_key)).

Definition read_hashed_link_keys (nv : nvram) (tclk_seed : option KeyData)
  : generator hashed_item :=
  match tclk_seed with
  | None => ([], None)
  | Some seed =>
      let entries :=
        if version_number (version nv) =? 330
        then read_table Ex_TCLK_TABLE ex_tclk_table nv
        else read_table LEGACY_TCLK_TABLE legacy_tclk_table nv in
      match entries with
      | Raise e => ([], Some e)
      | Ok entries => yield_from (hashed_link_key_item seed) entries
      end
  end.

(** Lines 232-247: the body of the loop over the indirection table. *)
Definition unhashed_link_key_item (link_key_offset_base : Z)
  (aps_key_data_table : list APSKeyDataTableEntry)
  (addr_mgr_entries : list AddrMgrEntry) (entry : cstruct)
  : result (option hashed_item) :=
  state <- getattr_int entry "AuthenticationState" ;;
  if Z.land state AuthenticationOption.AuthenticatedCBCK =? 0 then Ok None
  else
    nv_id <- getattr_int entry "LinkKeyNvId" ;;
    key_table_entry <-
      getitem aps_key_data_table (nv_id - link_key_offset_base) ;;
    index <- getattr_int entry "AddressManagerIndex" ;;
    addr_mgr_entry <- getitem addr_mgr_entries index ;;
    if Z.land (type addr_mgr_entry) AddrMgrUserType.Assoc =? 0
    then Raise AssertionError
    else if Z.land (type addr_mgr_entry) AddrMgrUserType.Security =? 0
    then Raise AssertionError
    else Ok (Some (extAddr addr_mgr_entry,
                   TxFrameCounter key_table_entry,
                   RxFrameCounter key_table_entry,
                   Key key_table_entry)).

Definition read_unhashed_link_keys (nv : nvram)
  (addr_mgr_entries : list AddrMgrEntry) : generator hashed_item :=
  let '(link_key_offset_base, table) :=
    if version_number (version nv) =? 330
    then (0x0000, read_table Ex_APS_KEY_DATA_TABLE ex_aps_key_data_table nv)
    else (LEGACY_APS_LINK_KEY_DATA_START,
          read_table LEGACY_APS_LINK_KEY_DATA legacy_aps_link_key_data nv) in
  match table with
  | Raise SecurityError => ([], None)
  | Raise e => ([], Some e)
  | Ok aps_key_data_table =>
      match (raw <- osal_read APS_LINK_KEY_TABLE aps_link_key_table nv ;;
             APSLinkKeyTable_deserialize raw) with
      | Raise e => ([], Some e)
      | Ok (link_key_table, _) =>
          yield_from
            (unhashed_link_key_item link_key_offset_base aps_key_data_table
               addr_mgr_entries)
            link_key_table
      end
  end.

(** [StoredDevice(ieee=entry.extAddr, nwk=entry.nwkAddr)] *)
Definition new_StoredDevice (ieee : EUI64) (nwk : Z) : StoredDevice :=
  {| ieee := ieee; nwk := nwk;
     hashed_link_key_shift := None; aps_link_key := None;
     tx_counter := None; rx_counter := None |}.

(** Lines 261-273: the body of the loop over the address manager table. *)
Definition new_device (entry : AddrMgrEntry) (devices : dict) : result dict :=
  if nwkAddr entry =? 0xFFFF then Ok devices
  else if (type entry =? AddrMgrUserType.Assoc)
          || (type entry =?
              Z.lor AddrMgrUserType.Assoc AddrMgrUserType.Security)
  then Ok (dict_set devices (extAddr entry)
             (new_StoredDevice (extAddr entry) (nwkAddr entry)))
  else Raise ValueError.

(** [d.replace(tx_counter=..., rx_counter=..., aps_link_key=...,
    hashed_link_key_shift=find_key_shift(ieee, key, tclk_seed))] *)
Definition with_hashed_key (tclk_seed : option KeyData) (item : hashed_item)
  (d : StoredDevice) : StoredDevice :=
  let '(ieee0, tx_ctr, rx_ctr, key) := item in
  {| ieee := ieee d; nwk := nwk d;
     hashed_link_key_shift := find_key_shift_stored ieee0 key tclk_seed;
     aps_link_key := Some key;
     tx_counter := Some tx_ctr; rx_counter := Some rx_ctr |}.

(** [d.replace(tx_counter=..., rx_counter=..., aps_link_key=...)] *)
Definition with_unhashed_key (item : hashed_item) (d : StoredDevice)
  : StoredDevice :=
  let '(_, tx_ctr, rx_ctr, key) := item in
  {| ieee := ieee d; nwk := nwk d;
     hashed_link_key_shift := hashed_link_key_shift d;
     aps_link_key := Some key;
     tx_counter := Some tx_ctr; rx_counter := Some rx_ctr |}.

(** The address an item is for. *)
Definition item_ieee (item : hashed_item) : EUI64 := fst (fst (fst item)).

(** Lines 275-281 *)
Definition attach_hashed (tclk_seed : option KeyData) (item : hashed_item)
  (devices : dict) : result dict :=
  d <- dict_get devices (item_ieee item) ;;
  Ok (dict_set devices (item_ieee item) (with_hashed_key tclk_seed item d)).

(** Lines 283-288 *)
Definition attach_unhashed (item : hashed_item) (devices : dict)
  : result dict :=
  d <- dict_get devices (item_ieee item) ;;
  Ok (dict_set devices (item_ieee item) (with_unhashed_key item d)).

(** Lines 251-256: the seed is read on firmware newer than 1.2 only. *)
Definition read_tclk_seed (nv : nvram) : result (option KeyData) :=
  if version_number (version nv) >? 120
  then seed <- osal_read TCLK_SEED tclk_seed nv ;; Ok (Some seed)
  else Ok None.

Definition read_devices (nv : nvram) : result (list StoredDevice) :=
  tclk_seed <- read_tclk_seed nv ;;
  addr_mgr <- read_addr_mgr_entries nv ;;
  devices <- for_each new_device addr_mgr [] ;;
  devices <-
    for_generator (read_hashed_link_keys nv tclk_seed)
      (attach_hashed tclk_seed) devices ;;
  devices <-
    for_generator (read_unhashed_link_keys nv addr_mgr)
      attach_unhashed devices ;;
  Ok (dict_values devices).

Local Open Scope stmt_scope.

(** Lines 294-303: the entry of one device. *)
Definition addr_mgr_entry_of (d : StoredDevice) : AddrMgrEntry :=
  {| type := match truthy (aps_link_key d) with
             | Some _ => Z.lor AddrMgrUserType.Security AddrMgrUserType.Assoc
             | None => AddrMgrUserType.Assoc
             end;
     nwkAddr := nwk d;
     extAddr := ieee d |}.

Definition write_addr_manager_entries (devices : list StoredDevice)
  : stmt unit :=
  fun s =>
    let entries := map addr_mgr_entry_of devices in
    if version_number (version (store s)) >=? 330
    then write_table Ex_ADDRMGR ex_addrmgr set_ex_addrmgr entries
           EMPTY_ADDR_MGR_ENTRY s
    else
      (old_entries <~ reading (osal_read ADDRMGR addrmgr) ;;
       new_entries <~
         reading (fun _ =>
           for_each (fun ie new_entries =>
                       setitem new_entries (Z.to_nat (fst ie)) (snd ie))
             (enumerate entries)
             (repeat EMPTY_ADDR_MGR_ENTRY (length old_entries))) ;;
       osal_write ADDRMGR (set_addrmgr new_entries)) s.

(** The tables [write_devices] builds before it writes anything. *)
Definition tables : Type :=
  (list TCLKDevEntry * list APSKeyDataTableEntry * APSLinkKeyTable)%type.

(** Lines 347-389: the body of the loop over [enumerate(devices)]. *)
Definition build_entry (fw : firmware) (counter_increment : Z)
  (seed : option KeyData) (id : Z * StoredDevice) (acc : tables)
  : result tables :=
  (let '(index, device) := id in
   let '(hashed_link_key_table, aps_key_data_table, link_key_table) := acc in
   match truthy (aps_link_key device) with
   | None => Ok acc
   | Some key =>
       match find_key_shift_in (ieee device) key seed with
       | Some shift =>
           tx <- add_counter (tx_counter device) counter_increment ;;
           entry <- new_TCLKDevEntry tx (rx_counter device) (ieee device)
                      KeyAttributes.DEFAULT_KEY KeyType.NWK shift ;;
           Ok (hashed_link_key_table ++ [entry], aps_key_data_table,
               link_key_table)
       | None =>
           tx <- add_counter (tx_counter device) counter_increment ;;
           entry <- new_APSKeyDataTableEntry key tx (rx_counter device) ;;
           let aps_key_data_table := aps_key_data_table ++ [entry] in
           let start :=
             if version_number fw >? 300 then 0x0000
             else LEGACY_APS_LINK_KEY_DATA_START in
           let offset := Z.of_nat (length aps_key_data_table) - 1 in
           link <- APSLinkKeyTableEntry
                     [("AddressManagerIndex", index);
                      ("LinkKeyNvId", start + offset);
                      ("AuthenticationState",
                       AuthenticationOption.AuthenticatedCBCK)]%string ;;
           Ok (hashed_link_key_table, aps_key_data_table,
               link_key_table ++ [link])
       end
   end)%result.

(** Lines 343-389 *)
Definition build_tables (fw : firmware) (devices : list StoredDevice)
  (counter_increment : Z) (seed : option KeyData) : result tables :=
  for_each (build_entry fw counter_increment seed) (enumerate devices)
    ([], [], []).

(** [[(d.ieee, d.aps_link_key) for d in devices if d.aps_link_key]] *)
Definition ieees_and_keys_of (devices : list StoredDevice)
  : list (EUI64 * KeyData) :=
  flat_map (fun d => match truthy (aps_link_key d) with
                     | Some key => [(ieee d, key)]
                     | None => []
                     end)
    devices.

(** Lines 399-445: the writes, once the tables exist. *)
Definition commit_tables (devices : list StoredDevice) (t : tables)
  (link_key_table_value : bytes) : stmt unit :=
  fun s =>
    let '(hashed_link_key_table, aps_key_data_table, _) := t in
    (write_addr_manager_entries devices ;;;
     osal_write APS_LINK_KEY_TABLE
       (set_aps_link_key_table link_key_table_value) ;;;
     if version_number (version (store s)) >? 300
     then
       write_table Ex_TCLK_TABLE ex_tclk_table set_ex_tclk_table
         hashed_link_key_table tclk_fill_value ;;;
       write_table Ex_APS_KEY_DATA_TABLE ex_aps_key_data_table
         set_ex_aps_key_data_table aps_key_data_table aps_key_data_fill_value
     else
       write_table LEGACY_TCLK_TABLE legacy_tclk_table set_legacy_tclk_table
         hashed_link_key_table tclk_fill_value ;;;
       write_table LEGACY_APS_LINK_KEY_DATA legacy_aps_link_key_data
         set_legacy_aps_link_key_data aps_key_data_table
         aps_key_data_fill_value) s.

Definition write_devices (devices : list StoredDevice) (counter_increment : Z)
  (seed : option KeyData) : stmt unit :=
  fun s =>
    let ieees_and_keys := ieees_and_keys_of devices in
    let seed := choose_seed seed ieees_and_keys in
    (t <~ reading (fun nv =>
            build_tables (version nv) devices counter_increment seed) ;;
     old_link_key_table <~
       reading (osal_read APS_LINK_KEY_TABLE aps_link_key_table) ;;
     serialized <~ reading (fun _ => APSLinkKeyTable_serialize (snd t)) ;;
     let link_key_table_value :=
       ljust serialized (length old_link_key_table) in
     serialized' <~ reading (fun _ => APSLinkKeyTable_serialize (snd t)) ;;
     if (length old_link_key_table <? length serialized')%nat
     then raise link_key_table_too_large
     else commit_tables devices t link_key_table_value) s.

End Registry.

(** [counter_increment: t.uint32_t = 2500] *)
Definition default_counter_increment : Z := 2500.

(** ** Vocabulary of the statements *)

(** The tables a firmware generation addresses, as [write_devices] selects
    them. *)
Definition addr_table (nv : nvram) : option (list AddrMgrEntry) :=
  if version_number (version nv) >=? 330 then Some (ex_addrmgr nv)
  else addrmgr nv.

Definition tclk_table (nv : nvram) : list TCLKDevEntry :=
  if version_number (version nv) >? 300 then ex_tclk_table nv
  else legacy_tclk_table nv.

Definition key_data_table (nv : nvram) : list APSKeyDataTableEntry :=
  if version_number (version nv) >? 300 then ex_aps_key_data_table nv
  else legacy_aps_link_key_data nv.

Definition addr_table_id (fw : firmware) : nvid :=
  if version_number fw >=? 330 then Ex_ADDRMGR else ADDRMGR.

Definition tclk_table_id (fw : firmware) : nvid :=
  if version_number fw >? 300 then Ex_TCLK_TABLE else LEGACY_TCLK_TABLE.

Definition key_data_table_id (fw : firmware) : nvid :=
  if version_number fw >? 300 then Ex_APS_KEY_DATA_TABLE
  else LEGACY_APS_LINK_KEY_DATA.

(** The order in which [write_devices] commits. *)
Definition commit_order (fw : firmware) : list nvid :=
  [addr_table_id fw; APS_LINK_KEY_TABLE; tclk_table_id fw;
   key_data_table_id fw].

Definition prefix_of {A} (l1 l2 : list A) : Prop := exists l, l1 ++ l = l2.

(** [values], then [fill] up to [capacity]. *)
Definition pad {A} (values : list A) (fill : A) (capacity : nat) : list A :=
  values ++ repeat fill (capacity - length values).

(** What no write of [write_devices] touches. *)
Definition same_frame (s s' : session) : Prop :=
  version (store s') = version (store s)
  /\ secured (store s') = secured (store s)
  /\ tclk_seed (store s') = tclk_seed (store s).

(** A statement that, on firmware [fw], writes [item] once, or raises and
    writes nothing. *)
Definition atomic (fw : firmware) (item : nvid) (c : stmt unit) : Prop :=
  forall s r s',
    version (store s) = fw -> c s = (r, s') ->
    (r = Ok tt /\ written s' = written s ++ [item] /\ same_frame s s')
    \/ (exists e, r = Raise e /\ s' = s).

(** A statement whose writes on firmware [fw] are, in order, a prefix of
    [items]: all of them when it completes, none of them only if the session
    is untouched. *)
Definition traced (fw : firmware) (items : list nvid) (c : stmt unit) : Prop :=
  forall s r s',
    version (store s) = fw -> c s = (r, s') ->
    same_frame s s'
    /\ exists done,
         written s' = written s ++ done
         /\ prefix_of done items
         /\ (r = Ok tt -> done = items)
         /\ (done = [] -> s' = s).

(** A device that holds a key, in the sense of [if d.aps_link_key]. *)
Definition keyed (d : StoredDevice) : bool :=
  match truthy (aps_link_key d) with
  | Some _ => true
  | None => false
  end.

(** The hashed-table entry of a device whose key derives from [seed]. *)
Definition hashed_entry_of (counter_increment : Z) (seed : option KeyData)
  (d : StoredDevice) (e : TCLKDevEntry) : Prop :=
  exists key shift tx rx,
    truthy (aps_link_key d) = Some key
    /\ find_key_shift_in (ieee d) key seed = Some shift
    /\ tx_counter d = Some tx /\ rx_counter d = Some rx
    /\ 0 <= tx + counter_increment < 2 ^ 32 /\ 0 <= rx < 2 ^ 32
    /\ e = {| txFrmCntr := tx + counter_increment; rxFrmCntr := rx;
              tclk_extAddr := ieee d;
              keyAttributes := KeyAttributes.DEFAULT_KEY;
              keyType := KeyType.NWK;
              SeedShift_IcIndex := shift |}.

(** The item the hashed pass yields for a device whose key derives from
    the stored seed. *)
Definition hashed_item_of (counter_increment : Z) (seed : KeyData)
  (d : StoredDevice) (item : hashed_item) : Prop :=
  exists key shift tx rx,
    truthy (aps_link_key d) = Some key
    /\ find_key_shift (ieee d) key seed = Some shift
    /\ tx_counter d = Some tx /\ rx_counter d = Some rx
    /\ item = (ieee d, tx + counter_increment, rx, key).

(** Counters that are present and still fit 32 bits once incremented. *)
Definition counters_ok (counter_increment : Z) (d : StoredDevice) : Prop :=
  exists tx rx,
    tx_counter d = Some tx /\ rx_counter d = Some rx
    /\ 0 <= tx + counter_increment < 2 ^ 32 /\ 0 <= rx < 2 ^ 32.

(** The data-model invariant of a [StoredDevice] read back under the seed
    [seed] ([None] when the seed was not read): a shift comes with a key, a
    key with both counters, and the shift of a device with a key is what
    [find_key_shift] returns on the address, the key and the seed as it was
    read, a [t.KeyData]. *)
Definition device_invariant (seed : option KeyData) (d : StoredDevice) : Prop :=
  (hashed_link_key_shift d <> None -> aps_link_key d <> None)
  /\ (aps_link_key d <> None -> tx_counter d <> None /\ rx_counter d <> None)
  /\ (forall key, aps_link_key d = Some key ->
        exists s, seed = Some s
                  /\ hashed_link_key_shift d
                     = find_key_shift_any (ieee d) key (KeyData_seed s)).

(** The invariant of the dictionary [read_devices] builds: a device sits
    under its own address and satisfies the data-model invariant. *)
Definition dict_invariant (seed : option KeyData) (devices : dict) : Prop :=
  forall k d, In (k, d) devices -> ieee d = k /\ device_invariant seed d.

(** A registry [write_devices] can round-trip: distinct 8-byte addresses,
    no sentinel short address, and keys of 16 bytes on non-zero addresses. *)
Definition registry_ok (devices : list StoredDevice) : Prop :=
  NoDup (map ieee devices)
  /\ forall d, In d devices ->
       nwk d <> 0xFFFF
       /\ forall key, aps_link_key d = Some key ->
            is_EUI64 (ieee d) /\ is_KeyData key /\ ieee d <> EUI64_zeros.

(** An indirection entry as deserialization builds it: the declared
    fields, all set. *)
Definition declared_entry (e : cstruct) : Prop :=
  exists i o a,
    e = [("AddressManagerIndex", Some i); ("LinkKeyTableOffset", Some o);
         ("AuthenticationState", Some a)]%string.

(** ** Sample stores and registries *)

Module Sample.

Definition seed : KeyData :=
  [0; 1; 2; 3; 4; 5; 6; 7; 8; 9; 10; 11; 12; 13; 14; 15].

Definition ieee_a : EUI64 := [0; 1; 2; 3; 4; 5; 6; 7].
Definition ieee_b : EUI64 := [1; 1; 2; 3; 4; 5; 6; 7].

(** [OsalNvIds.LEGACY_APS_LINK_KEY_DATA_START] in the samples *)
Definition legacy_start : Z := 0x0201.

(** A store with room for four devices, three hashed keys and two raw
    keys, every table empty. *)
Definition empty_store (fw : firmware) (seed : option KeyData)
  (secured : nvid -> bool) (link_key_table : bytes) : nvram :=
  {| version := fw; secured := secured; tclk_seed := seed;
     addrmgr := Some (repeat EMPTY_ADDR_MGR_ENTRY 4);
     aps_link_key_table := Some link_key_table;
     legacy_tclk_table := repeat tclk_fill_value 3;
     legacy_aps_link_key_data := repeat aps_key_data_fill_value 2;
     ex_addrmgr := repeat EMPTY_ADDR_MGR_ENTRY 4;
     ex_tclk_table := repeat tclk_fill_value 3;
     ex_aps_key_data_table := repeat aps_key_data_fill_value 2 |}.

Definition disclosed : nvid -> bool := fun _ => false.

(** The firmware refuses disclosure of the items [ids] only. *)
Definition secured_only (ids : list nvid) : nvid -> bool :=
  fun i => existsb (nvid_eqb i) ids.

Definition session_of (nv : nvram) : session :=
  {| store := nv; written := [] |}.

Definition device (ieee : EUI64) (nwk : Z) (key : option KeyData)
  (tx rx : option Z) : StoredDevice :=
  {| ieee := ieee; nwk := nwk; hashed_link_key_shift := None;
     aps_link_key := key; tx_counter := tx; rx_counter := rx |}.

(** Two devices with keys derived from [seed] at shifts 0 and 3. *)
Definition hashed_devices : list StoredDevice :=
  [device ieee_a 0x1234 (Some (compute_key ieee_a seed 0)) (Some 10) (Some 20);
   device ieee_b 0x2345 (Some (compute_key ieee_b seed 3)) (Some 30) (Some 40)].

(** A device whose key derives from no shift of [seed]. *)
Definition unhashed_device : StoredDevice :=
  device ieee_b 0x2345
    (Some [9; 9; 9; 9; 9; 9; 9; 9; 9; 9; 9; 9; 9; 9; 9; 200]) (Some 1) (Some 2).

(** A Z-Stack 3.30 store holding one device whose hashed entry records a
    shift of 19. *)
Definition store_with_stale_shift : nvram :=
  {| version := Z_Stack_3_30; secured := disclosed; tclk_seed := Some seed;
     addrmgr := None;
     aps_link_key_table := Some [0; 0; 0; 0; 0; 0; 0];
     legacy_tclk_table := [];
     legacy_aps_link_key_data := [];
     ex_addrmgr :=
       [{| type := 3; nwkAddr := 0x1234; extAddr := ieee_a |};
        EMPTY_ADDR_MGR_ENTRY];
     ex_tclk_table :=
       [{| txFrmCntr := 10; rxFrmCntr := 20; tclk_extAddr := ieee_a;
           keyAttributes := KeyAttributes.DEFAULT_KEY;
           keyType := KeyType.NWK; SeedShift_IcIndex := 19 |};
        tclk_fill_value];
     ex_aps_key_data_table := [aps_key_data_fill_value] |}.

(** A store whose indirection table holds one entry marked
    [AuthenticatedCBCK]. *)
Definition store_with_unhashed_key (fw : firmware) : nvram :=
  {| version := fw; secured := disclosed; tclk_seed := Some seed;
     addrmgr :=
       Some [{| type := 3; nwkAddr := 0x1234; extAddr := ieee_a |}];
     aps_link_key_table := Some [1; 0; 0; 0; 0; 0; 1];
     legacy_tclk_table := [tclk_fill_value];
     legacy_aps_link_key_data := [aps_key_data_fill_value];
     ex_addrmgr := [{| type := 3; nwkAddr := 0x1234; extAddr := ieee_a |}];
     ex_tclk_table := [tclk_fill_value];
     ex_aps_key_data_table := [aps_key_data_fill_value] |}.

End Sample.

(** ** Trust Center frame counter

    [read_tc_frame_counter] and [write_tc_frame_counter], lines 65-153. *)

Module FrameCounter.

(** [class NwkSecMaterialDesc(cstruct.CStruct)] *)
Record NwkSecMaterialDesc : Type := {
  FrameCounter : Z;
  ExtendedPanID : EUI64 }.

(** [class NwkKeyDesc(cstruct.CStruct)] *)
Record NwkKeyDesc : Type := {
  KeySeqNum : Z;
  key_data : KeyData }.

(** [class NwkActiveKeyItems(cstruct.CStruct)]; its [FrameCounter] is
    [active_FrameCounter] here. *)
Record NwkActiveKeyItems : Type := {
  Active : NwkKeyDesc;
  active_FrameCounter : Z }.

(** The items the two functions touch: the [OsalNvIds.NWKKEY] item, the
    legacy range [LEGACY_NWK_SEC_MATERIAL_TABLE_START..END] and the table
    [ExNvIds.NWK_SEC_MATERIAL_TABLE], each table as the records it holds. *)
Record store : Type := {
  NWKKEY : option NwkActiveKeyItems;
  LEGACY_NWK_SEC_MATERIAL_TABLE : list NwkSecMaterialDesc;
  NWK_SEC_MATERIAL_TABLE : list NwkSecMaterialDesc }.

(** [app._znp.version], [app.extended_pan_id] and [app._znp.nvram] *)
Record application : Type := {
  znp_version : firmware;
  extended_pan_id : EUI64;
  nvram_of : store }.

(** Modelled from the spec: [zigpy_znp/nvram.py] is not among the sources.
    [read(item)] fails with [ItemNotFound] if the item is absent. *)
Definition osal_read_item {A} (item : option A) : result A :=
  match item with
  | Some a => Ok a
  | None => Raise ItemNotFound
  end.

(** Modelled from the spec: [write(item, sub_id, bytes)] on a record of a
    table is create-or-update; the functions here write only at an ordinal
    they have just read, which replaces that record. *)
Fixpoint write_record {A} (table : list A) (ordinal : nat) (value : A)
  : list A :=
  match table, ordinal with
  | [], _ => []
  | _ :: table', O => value :: table'
  | x :: table', S n => x :: write_record table' n value
  end.

Definition no_entry_found : exn :=
  RuntimeError "No security material entry was found for this network".

Definition no_open_slot : exn :=
  RuntimeError "Failed to find open slot for security material entry".

(** Lines 87-98: the loop over the entries and what follows it;
    [global_entry] is the last global entry met so far. *)
Fixpoint scan_entries (own : EUI64) (entries : list NwkSecMaterialDesc)
  (global_entry : option NwkSecMaterialDesc) : result Z :=
  match entries with
  | [] =>
      match global_entry with
      | None => Raise no_entry_found
      | Some entry => Ok (FrameCounter entry)
      end
  | entry :: entries' =>
      if bytes_eqb (ExtendedPanID entry) own then Ok (FrameCounter entry)
      else if bytes_eqb (ExtendedPanID entry) EUI64_ones
      then scan_entries own entries' (Some entry)
      else scan_entries own entries' global_entry
  end.

(** Lines 129-142: the loop that looks for the entry to write; the [else]
    of the [for] runs when the loop ends without [break]. *)
Fixpoint find_slot (own : EUI64) (entries : list NwkSecMaterialDesc)
  (address : Z) (best : option (NwkSecMaterialDesc * Z))
  : result (NwkSecMaterialDesc * Z) :=
  match entries with
  | [] => Raise no_open_slot
  | entry :: entries' =>
      if bytes_eqb (ExtendedPanID entry) own then Ok (entry, address)
      else
        let best' :=
          match best with
          | None =>
              if bytes_eqb (ExtendedPanID entry) EUI64_ones
              then Some (entry, address) else None
          | Some _ => best
          end in
        find_slot own entries' (address + 0x0001) best'
  end.

Section Legacy.

(** [OsalNvIds.LEGACY_NWK_SEC_MATERIAL_TABLE_START]; [nvids.py] is not among
    the sources. *)
Variable LEGACY_NWK_SEC_MATERIAL_TABLE_START : Z.

Definition read_tc_frame_counter (app : application) : result Z :=
  if version_number (znp_version app) =? 120
  then
    key_info <- osal_read_item (NWKKEY (nvram_of app)) ;;
    Ok (active_FrameCounter key_info)
  else
    let entries :=
      if version_number (znp_version app) =? 300
      then LEGACY_NWK_SEC_MATERIAL_TABLE (nvram_of app)
      else NWK_SEC_MATERIAL_TABLE (nvram_of app) in
    scan_entries (extended_pan_id app) entries None.

(** The result and the store afterwards; an exception leaves the store as
    it was.  The counter is stored as it is given. *)
Definition write_tc_frame_counter (app : application) (counter : Z)
  : result unit * store :=
  let nv := nvram_of app in
  if version_number (znp_version app) =? 120
  then
    match osal_read_item (NWKKEY nv) with
    | Raise e => (Raise e, nv)
    | Ok key_info =>
        let key_info' :=
          {| Active := Active key_info; active_FrameCounter := counter |} in
        (Ok tt,
         {| NWKKEY := Some key_info';
            LEGACY_NWK_SEC_MATERIAL_TABLE := LEGACY_NWK_SEC_MATERIAL_TABLE nv;
            NWK_SEC_MATERIAL_TABLE := NWK_SEC_MATERIAL_TABLE nv |})
    end
  else
    let '(address, entries) :=
      if version_number (znp_version app) =? 300
      then (LEGACY_NWK_SEC_MATERIAL_TABLE_START,
            LEGACY_NWK_SEC_MATERIAL_TABLE nv)
      else (0x0000, NWK_SEC_MATERIAL_TABLE nv) in
    match find_slot (extended_pan_id app) entries address None with
    | Raise e => (Raise e, nv)
    | Ok (best_entry, best_address) =>
        let best_entry' :=
          {| FrameCounter := counter;
             ExtendedPanID := ExtendedPanID best_entry |} in
        if version_number (znp_version app) =? 300
        then
          (Ok tt,
           {| NWKKEY := NWKKEY nv;
              LEGACY_NWK_SEC_MATERIAL_TABLE :=
                write_record (LEGACY_NWK_SEC_MATERIAL_TABLE nv)
                  (Z.to_nat
                     (best_address - LEGACY_NWK_SEC_MATERIAL_TABLE_START))
                  best_entry';
              NWK_SEC_MATERIAL_TABLE := NWK_SEC_MATERIAL_TABLE nv |})
        else
          (Ok tt,
           {| NWKKEY := NWKKEY nv;
              LEGACY_NWK_SEC_MATERIAL_TABLE :=
                LEGACY_NWK_SEC_MATERIAL_TABLE nv;
              NWK_SEC_MATERIAL_TABLE :=
                write_record (NWK_SEC_MATERIAL_TABLE nv)
                  (Z.to_nat best_address) best_entry' |})
    end.

End Legacy.

(** The application after a write: the same firmware and network, the new
    store. *)
Definition with_store (app : application) (nv : store) : application :=
  {| znp_version := znp_version app;
     extended_pan_id := extended_pan_id app;
     nvram_of := nv |}.

(** The store's table on the firmware of [app]. *)
Definition sec_material_table (app : application) : list NwkSecMaterialDesc :=
  if version_number (znp_version app) =? 300
  then LEGACY_NWK_SEC_MATERIAL_TABLE (nvram_of app)
  else NWK_SEC_MATERIAL_TABLE (nvram_of app).

Definition own_entry (app : application) (entry : NwkSecMaterialDesc) : bool :=
  bytes_eqb (ExtendedPanID entry) (extended_pan_id app).

Definition global_entry (entry : NwkSecMaterialDesc) : bool :=
  bytes_eqb (ExtendedPanID entry) EUI64_ones.

End FrameCounter.

(** Stores for the statements about the frame counter. *)
Module FrameCounterSample.

Import FrameCounter.

Definition own : EUI64 := [1; 2; 3; 4; 5; 6; 7; 8].
Definition other : EUI64 := [9; 9; 9; 9; 9; 9; 9; 9].

Definition start : Z := 0x0075.

Definition entry (counter : Z) (pan : EUI64) : NwkSecMaterialDesc :=
  {| FrameCounter := counter; ExtendedPanID := pan |}.

Definition app_with (fw : firmware) (table : list NwkSecMaterialDesc)
  : application :=
  {| znp_version := fw;
     extended_pan_id := own;
     nvram_of :=
       {| NWKKEY :=
            Some {| Active := {| KeySeqNum := 0; key_data := repeat 1 16%nat |};
                    active_FrameCounter := 3 |};
          LEGACY_NWK_SEC_MATERIAL_TABLE := table;
          NWK_SEC_MATERIAL_TABLE := table |} |}.

(** A global entry, a foreign one, then two of the own network. *)
Definition table_with_own : list NwkSecMaterialDesc :=
  [entry 7 EUI64_ones; entry 5 other; entry 11 own; entry 13 own].

(** Two global entries and a foreign one. *)
Definition table_without_own : list NwkSecMaterialDesc :=
  [entry 7 EUI64_ones; entry 5 other; entry 9 EUI64_ones].

End FrameCounterSample.

(** ** Address with its mode

    [class AddrModeAddress] of [named.py], lines 71-124. *)

Module AddrMode.
Definition NOT_PRESENT : Z := 0x00.
Definition Group : Z := 0x01.
Definition NWK : Z := 0x02.
Definition IEEE : Z := 0x03.
Definition Broadcast : Z := 0x0F.
(** Modelled from the spec: [zigpy_znp/types/basic.py] is not among the
    sources.  [AddrMode(value)]: an [enum_uint8] without [MissingEnumMixin]
    has these members only, and another value raises [ValueError]. *)
Definition of_int (v : Z) : result Z :=
  if (v =? NOT_PRESENT) || (v =? Group) || (v =? NWK) || (v =? IEEE)
     || (v =? Broadcast)
  then Ok v else Raise ValueError.
(** Modelled from the spec: [AddrMode.deserialize(data)] reads one byte
    and raises [ValueError] when there is none. *)
Definition deserialize (data : bytes) : result (Z * bytes) :=
  match data with
  | b :: rest => m <- of_int b ;; Ok (m, rest)
  | [] => Raise ValueError
  end.
End AddrMode.

Module AddrModeAddress.

(** An address is a [zigpy.types.NWK] or a [zigpy.types.EUI64].  The two
    types are of the zigpy library, which is not among the sources: a [NWK]
    is a 16-bit integer serialized little-endian, an [EUI64] is 8 bytes,
    neither converts to the other, and a [NWK] outside 16 bits has no
    serialization. *)
Inductive address_value : Type :=
| as_NWK (nwk : Z)
| as_EUI64 (ieee : EUI64).

Inductive address_type : Type := NWK_type | EUI64_type.

Record t : Type := {
  mode : option Z;
  address : option address_value }.

(** The dictionary lookup of [_get_address_type]: [KeyError] on a mode that
    is no key, [None] included. *)
Definition _get_address_type (mode : option Z) : result address_type :=
  match mode with
  | Some m =>
      if (m =? AddrMode.NWK) || (m =? AddrMode.Group)
         || (m =? AddrMode.Broadcast)
      then Ok NWK_type
      else if m =? AddrMode.IEEE then Ok EUI64_type
      else Raise KeyError
  | None => Raise KeyError
  end.

(** [NWK(address)] and [EUI64(address)]: the value must be of that kind. *)
Definition convert (ty : address_type) (a : address_value)
  : result address_value :=
  match ty, a with
  | NWK_type, as_NWK v => Ok (as_NWK v)
  | EUI64_type, as_EUI64 e => Ok (as_EUI64 e)
  | _, _ => Raise TypeError
  end.

(** [__new__(cls, mode=None, address=None)], lines 72-87, for a [mode] that
    is an integer or [None]. *)
Definition new (mode : option Z) (address : option address_value) : result t :=
  match mode with
  | Some m =>
      if m =? AddrMode.NOT_PRESENT then Raise ValueError
      else
        m' <- AddrMode.of_int m ;;
        match address with
        | None => Ok {| mode := Some m'; address := None |}
        | Some a =>
            ty <- _get_address_type (Some m') ;;
            a' <- convert ty a ;;
            Ok {| mode := Some m'; address := Some a' |}
        end
  | None =>
      match address with
      | None => Ok {| mode := None; address := None |}
      | Some a =>
          ty <- _get_address_type None ;;
          a' <- convert ty a ;;
          Ok {| mode := None; address := Some a' |}
      end
  end.

(** [__new__] on another [AddrModeAddress], lines 73-75. *)
Definition copy (other : t) : result t := new (mode other) (address other).

(** [address.serialize()]; a [NWK] outside 16 bits cannot be serialized. *)
Definition serialize_address (a : address_value) : result bytes :=
  match a with
  | as_NWK v => v' <- uint16_t v ;; Ok (serialize_uint16 v')
  | as_EUI64 e => Ok e
  end.

(** [EUI64.deserialize(data)]: the first 8 bytes and the rest. *)
Definition EUI64_deserialize (data : bytes) : result (EUI64 * bytes) :=
  if (length data <? 8)%nat then Raise ValueError
  else Ok (firstn 8 data, skipn 8 data).

(** Lines 107-115 *)
Definition serialize (self : t) : result bytes :=
  match mode self with
  | None => Raise AttributeError
  | Some m =>
      ty <- _get_address_type (mode self) ;;
      a <- match address self with
           | Some a => convert ty a
           | None => Raise TypeError
           end ;;
      b <- serialize_address a ;;
      let result := [m] ++ b in
      if negb (m =? AddrMode.IEEE)
      then Ok (result ++ [0x00; 0x00; 0x00; 0x00; 0x00; 0x00])
      else Ok result
  end.

(** Lines 97-105 *)
Definition deserialize (data : bytes) : result (t * bytes) :=
  '(m, data) <- AddrMode.deserialize data ;;
  '(ieee, data) <- EUI64_deserialize data ;;
  address <-
    (if negb (m =? AddrMode.IEEE)
     then '(nwk, _) <- deserialize_uint16 ieee ;; Ok (as_NWK nwk)
     else Ok (as_EUI64 ieee)) ;;
  self <- new (Some m) (Some address) ;;
  Ok (self, data).

(** An instance [__new__] can have built with an address: a mode of the
    dictionary and an address of its kind. *)
Definition well_formed (self : t) : Prop :=
  exists m a,
    mode self = Some m /\ address self = Some a
    /\ ((m = AddrMode.IEEE /\ exists e, a = as_EUI64 e /\ is_EUI64 e)
        \/ ((m = AddrMode.NWK \/ m = AddrMode.Group \/ m = AddrMode.Broadcast)
            /\ exists v, a = as_NWK v /\ 0 <= v < 2 ^ 16)).

End AddrModeAddress.

(** ** Vocabulary of the registry statements *)

(** A device that stands for an entry of the address table [am] which is in
    use. *)
Definition listed (am : list AddrMgrEntry) (d : StoredDevice) : Prop :=
  nwk d <> 0xFFFF
  /\ exists entry,
       In entry am /\ extAddr entry = ieee d /\ nwkAddr entry = nwk d.

(** A dictionary of listed devices, each under its own address. *)
Definition dict_listed (am : list AddrMgrEntry) (devices : dict) : Prop :=
  NoDup (map fst devices)
  /\ forall k d, In (k, d) devices -> ieee d = k /\ listed am d.

(** An entry of the address table that [read_devices] accepts: not in use,
    or of one of the two types it knows. *)
Definition readable_entry (entry : AddrMgrEntry) : Prop :=
  nwkAddr entry = 0xFFFF
  \/ type entry = AddrMgrUserType.Assoc
  \/ type entry = Z.lor AddrMgrUserType.Assoc AddrMgrUserType.Security.

(** A key that is the one [compute_key] derives, at some shift that is not
    negative, from an 8-byte address and [seed]. *)
Definition key_derived (seed : KeyData) (addr : EUI64) (key : KeyData)
  : Prop :=
  is_EUI64 addr
  /\ exists shift, 0 <= shift /\ key = compute_key addr seed shift.

(** The device [read_devices] returns for a device [write_devices] wrote
    under the stored seed: address and short address, and for a device
    with a key the key and the counters written, without a shift. *)
Definition read_back (counter_increment : Z) (d : StoredDevice)
  : StoredDevice :=
  match truthy (aps_link_key d), tx_counter d, rx_counter d with
  | Some key, Some tx, Some rx =>
      {| ieee := ieee d; nwk := nwk d;
         hashed_link_key_shift := None;
         aps_link_key := Some key;
         tx_counter := Some (tx + counter_increment);
         rx_counter := Some rx |}
  | _, _, _ =>
      {| ieee := ieee d; nwk := nwk d;
         hashed_link_key_shift := None; aps_link_key := None;
         tx_counter := None; rx_counter := None |}
  end.

(** Stores for the statements about the registry. *)
Module RegistrySample.

(** A store that discloses everything, with the seed [Sample.seed], the
    address table [am] and the hashed-key table [tclk], on every way of
    addressing them, and an indirection table without entries. *)
Definition store_of (fw : firmware) (am : list AddrMgrEntry)
  (tclk : list TCLKDevEntry) : nvram :=
  {| version := fw; secured := Sample.disclosed;
     tclk_seed := Some Sample.seed;
     addrmgr := Some am;
     aps_link_key_table := Some [0; 0; 0; 0; 0; 0; 0];
     legacy_tclk_table := tclk;
     legacy_aps_link_key_data := [aps_key_data_fill_value];
     ex_addrmgr := am;
     ex_tclk_table := tclk;
     ex_aps_key_data_table := [aps_key_data_fill_value] |}.

Definition addr_entry (ty : Z) (nwk : Z) (ieee : EUI64) : AddrMgrEntry :=
  {| type := ty; nwkAddr := nwk; extAddr := ieee |}.

Definition tclk_entry (ieee : EUI64) (shift : Z) : TCLKDevEntry :=
  {| txFrmCntr := 10; rxFrmCntr := 20; tclk_extAddr := ieee;
     keyAttributes := KeyAttributes.DEFAULT_KEY;
     keyType := KeyType.NWK; SeedShift_IcIndex := shift |}.

End RegistrySample.
(** ** Byte-string facts *)

Lemma bytes_eqb_eq (x y : bytes) : bytes_eqb x y = true <-> x = y.
Proof.
  revert y; induction x as [|a x IH]; intros [|b y]; simpl;
    try (split; [discriminate | discriminate]); try tauto.
  rewrite andb_true_iff, Z.eqb_eq, IH.
  split; [intros [-> ->]; reflexivity | intros E; inversion E; auto].
Qed.

Lemma bytes_eqb_refl (x : bytes) : bytes_eqb x x = true.
Proof. apply bytes_eqb_eq; reflexivity. Qed.

Lemma bytes_eqb_neq (x y : bytes) : bytes_eqb x y = false <-> x <> y.
Proof.
  rewrite <- bytes_eqb_eq. destruct (bytes_eqb x y); split; congruence.
Qed.

Lemma xor_zip_length (x y : bytes) :
  length (xor_zip x y) = Nat.min (length x) (length y).
Proof. unfold xor_zip. rewrite length_map, length_combine. reflexivity. Qed.

Lemma xor_zip_involutive (x y : bytes) :
  (length x <= length y)%nat -> xor_zip (xor_zip x y) y = x.
Proof.
  revert y; induction x as [|a x IH]; intros [|b y] Hl; simpl in *;
    try reflexivity; try lia.
  unfold xor_zip in *. simpl. f_equal.
  - rewrite Z.lxor_assoc, Z.lxor_nilpotent, Z.lxor_0_r. reflexivity.
  - apply IH. lia.
Qed.

Lemma xor_zip_is_byte (x y : bytes) :
  Forall is_byte x -> Forall is_byte y -> Forall is_byte (xor_zip x y).
Proof.
  intros Hx; revert y; induction Hx as [|a x Ha Hx IH]; intros y Hy.
  - constructor.
  - destruct Hy as [|b y Hb Hy]; [constructor|].
    unfold xor_zip; simpl. constructor; [|apply IH; assumption].
    unfold is_byte in *. split.
    + apply Z.lxor_nonneg; lia.
    + destruct (Z.eq_dec (Z.lxor a b) 0) as [->|Hz]; [lia|].
      apply Z.log2_lt_pow2 with (b := 8); [|].
      * assert (0 <= Z.lxor a b) by (apply Z.lxor_nonneg; lia). lia.
      * eapply Z.le_lt_trans; [apply Z.log2_lxor; lia|].
        apply Z.max_lub_lt.
        -- destruct (Z.eq_dec a 0) as [->|]; [simpl; lia|].
           apply Z.log2_lt_pow2; lia.
        -- destruct (Z.eq_dec b 0) as [->|]; [simpl; lia|].
           apply Z.log2_lt_pow2; lia.
Qed.

(** ** Rotation facts *)

Lemma slice_index_nonneg (len : nat) (n : Z) :
  0 <= n -> slice_index len n = Z.to_nat n.
Proof.
  intros H. unfold slice_index.
  destruct (n <? 0) eqn:E; [apply Z.ltb_lt in E; lia | reflexivity].
Qed.

Lemma slice_index_neg (len : nat) (n : Z) :
  0 < n <= Z.of_nat len -> slice_index len (- n) = (len - Z.to_nat n)%nat.
Proof.
  intros H. unfold slice_index.
  destruct (- n <? 0) eqn:E; [|apply Z.ltb_ge in E; lia].
  lia.
Qed.

Lemma rotate_0 {A} (l : list A) : rotate l 0 = l.
Proof. unfold rotate, slice_from, slice_to. simpl. apply app_nil_r. Qed.

Lemma rotate_length {A} (l : list A) (n : Z) : length (rotate l n) = length l.
Proof.
  unfold rotate, slice_from, slice_to.
  rewrite length_app, length_skipn, length_firstn. lia.
Qed.

(** Past the end, both slices are clamped and the rotation is the identity. *)
Lemma rotate_past_end {A} (l : list A) (n : Z) :
  Z.of_nat (length l) <= n -> rotate l n = l.
Proof.
  intros H. unfold rotate, slice_from, slice_to.
  rewrite slice_index_nonneg by lia.
  rewrite skipn_all2, firstn_all2 by lia. reflexivity.
Qed.

Lemma skipn_length_app {A} (b a : list A) : skipn (length b) (b ++ a) = a.
Proof. induction b; simpl; auto. Qed.

Lemma firstn_length_app {A} (b a : list A) : firstn (length b) (b ++ a) = b.
Proof. induction b; simpl; congruence. Qed.

(** Rotation by the number of elements of the first block swaps the blocks. *)
Lemma rotate_app {A} (a b : list A) :
  rotate (a ++ b) (Z.of_nat (length a)) = b ++ a.
Proof.
  unfold rotate, slice_from, slice_to.
  rewrite slice_index_nonneg, Nat2Z.id by lia.
  rewrite skipn_length_app, firstn_length_app. reflexivity.
Qed.

Lemma rotate_app_neg {A} (a b : list A) :
  rotate (b ++ a) (- Z.of_nat (length a)) = a ++ b.
Proof.
  destruct a as [|x a'].
  { simpl. rewrite rotate_0. apply app_nil_r. }
  set (a := x :: a').
  unfold rotate, slice_from, slice_to.
  rewrite slice_index_neg by (rewrite length_app; subst a; simpl; lia).
  rewrite Nat2Z.id, length_app.
  replace (length b + length a - length a)%nat with (length b) by lia.
  rewrite skipn_length_app, firstn_length_app. reflexivity.
Qed.

Lemma split_at {A} (l : list A) (n : Z) :
  0 <= n <= Z.of_nat (length l) ->
  exists a b, l = a ++ b /\ n = Z.of_nat (length a).
Proof.
  intros H. exists (firstn (Z.to_nat n) l), (skipn (Z.to_nat n) l). split.
  - symmetry; apply firstn_skipn.
  - rewrite length_firstn. lia.
Qed.

Lemma rotate_left_right {A} (l : list A) (n : Z) :
  0 <= n <= Z.of_nat (length l) -> rotate (rotate l n) (- n) = l.
Proof.
  intros H. destruct (split_at l n H) as (a & b & -> & ->).
  rewrite rotate_app. apply rotate_app_neg.
Qed.

Lemma rotate_right_left {A} (l : list A) (n : Z) :
  0 <= n <= Z.of_nat (length l) -> rotate (rotate l (- n)) n = l.
Proof.
  intros H.
  assert (H' : 0 <= Z.of_nat (length l) - n <= Z.of_nat (length l)) by lia.
  destruct (split_at l _ H') as (b & a & -> & Hn).
  rewrite length_app in Hn.
  assert (n = Z.of_nat (length a)) as -> by lia.
  rewrite rotate_app_neg. apply rotate_app.
Qed.

(** ** The engine on well-formed inputs *)

Lemma twice_length (ieee : EUI64) :
  is_EUI64 ieee -> length (twice ieee) = 16%nat.
Proof. intros [H _]. unfold twice. rewrite length_app, H. reflexivity. Qed.

Lemma compute_key_length (ieee : EUI64) (seed : KeyData) (shift : Z) :
  is_EUI64 ieee -> is_KeyData seed ->
  length (compute_key ieee seed shift) = 16%nat.
Proof.
  intros Hi [Hs _]. unfold compute_key; simpl.
  rewrite xor_zip_length, rotate_length, Hs, twice_length by assumption.
  reflexivity.
Qed.

Lemma rotate_is_byte (l : bytes) (n : Z) :
  Forall is_byte l -> Forall is_byte (rotate l n).
Proof.
  intros H. unfold rotate, slice_from, slice_to.
  set (k := slice_index (length l) n).
  rewrite <- (firstn_skipn k l) in H. apply Forall_app in H as [H1 H2].
  apply Forall_app; split; assumption.
Qed.

(** A derived key is again a [KeyData]: building it never raises. *)
Lemma compute_key_is_KeyData (ieee : EUI64) (seed : KeyData) (shift : Z) :
  is_EUI64 ieee -> is_KeyData seed -> is_KeyData (compute_key ieee seed shift).
Proof.
  intros Hi Hs. split; [apply compute_key_length; assumption|].
  unfold compute_key; simpl. apply xor_zip_is_byte.
  - apply rotate_is_byte, Hs.
  - unfold twice. apply Forall_app; split; apply Hi.
Qed.

Lemma compute_seed_compute_key (ieee : EUI64) (seed : KeyData) (shift : Z) :
  is_EUI64 ieee -> length seed = 16%nat -> 0 <= shift <= 15 ->
  compute_seed ieee (compute_key ieee seed shift) shift = seed.
Proof.
  intros Hi Hs Hsh. unfold compute_seed, compute_key; simpl.
  rewrite xor_zip_involutive
    by (rewrite rotate_length, Hs, twice_length by assumption; lia).
  apply rotate_left_right. lia.
Qed.

Lemma compute_key_compute_seed (ieee : EUI64) (key : KeyData) (shift : Z) :
  is_EUI64 ieee -> length key = 16%nat -> 0 <= shift <= 15 ->
  compute_key ieee (compute_seed ieee key shift) shift = key.
Proof.
  intros Hi Hk Hsh. unfold compute_seed, compute_key; simpl.
  rewrite rotate_right_left
    by (rewrite xor_zip_length, Hk, twice_length by assumption; simpl; lia).
  apply xor_zip_involutive. rewrite Hk, twice_length by assumption. lia.
Qed.

(** Keys derived from one seed agree exactly when the rotations agree. *)
Lemma compute_key_inj_rotate (ieee : EUI64) (seed : KeyData) (s t : Z) :
  is_EUI64 ieee -> length seed = 16%nat ->
  compute_key ieee seed s = compute_key ieee seed t ->
  rotate seed s = rotate seed t.
Proof.
  intros Hi Hs E. unfold compute_key in E; simpl in E.
  apply (f_equal (fun k => xor_zip k (twice ieee))) in E.
  rewrite !xor_zip_involutive in E
    by (rewrite rotate_length, Hs, twice_length by assumption; lia).
  exact E.
Qed.

(** ** The search loop *)

Lemma find_range_least (P : Z -> bool) (n start k : nat) :
  (start <= k < start + n)%nat -> P (Z.of_nat k) = true ->
  exists s, find P (map Z.of_nat (seq start n)) = Some (Z.of_nat s)
            /\ (start <= s <= k)%nat
            /\ P (Z.of_nat s) = true
            /\ forall t, (start <= t < s)%nat -> P (Z.of_nat t) = false.
Proof.
  revert start; induction n as [|n IH]; intros start Hk HP; [lia|].
  simpl. destruct (P (Z.of_nat start)) eqn:E.
  - exists start. split; [reflexivity|]. split; [lia|]. split; [exact E|].
    intros t Ht; lia.
  - assert (start <> k) by (intros ->; congruence).
    destruct (IH (S start)) as (s & Hf & Hr & Hs & Hl); [lia | assumption |].
    exists s. split; [exact Hf|]. split; [lia|]. split; [exact Hs|].
    intros t Ht. destruct (Nat.eq_dec t start) as [->|]; [assumption|].
    apply Hl; lia.
Qed.

Lemma find_key_shift_Some (ieee : EUI64) (key seed : KeyData) (s : Z) :
  find_key_shift ieee key seed = Some s ->
  0 <= s <= 15 /\ compute_seed ieee key s = seed.
Proof.
  unfold find_key_shift. intros H. apply find_some in H as [Hin Heq].
  apply bytes_eqb_eq in Heq. split; [|congruence].
  unfold shift_range in Hin. apply in_map_iff in Hin as (k & <- & Hk).
  apply in_seq in Hk. lia.
Qed.

Lemma find_key_shift_least (ieee : EUI64) (key seed : KeyData) (shift : Z) :
  0 <= shift <= 15 -> compute_seed ieee key shift = seed ->
  exists s, find_key_shift ieee key seed = Some s
            /\ 0 <= s <= shift
            /\ compute_seed ieee key s = seed
            /\ forall t, 0 <= t < s -> compute_seed ieee key t <> seed.
Proof.
  intros Hsh E.
  destruct (find_range_least
              (fun sh => bytes_eqb seed (compute_seed ieee key sh))
              16 0 (Z.to_nat shift)) as (s & Hf & Hr & Hs & Hl).
  - lia.
  - rewrite Z2Nat.id by lia. apply bytes_eqb_eq. congruence.
  - exists (Z.of_nat s). split; [exact Hf|]. split; [lia|]. split.
    + apply bytes_eqb_eq in Hs. congruence.
    + intros t Ht Et. specialize (Hl (Z.to_nat t)).
      rewrite Z2Nat.id in Hl by lia.
      assert (bytes_eqb seed (compute_seed ieee key t) = false)
        by (apply Hl; lia).
      apply bytes_eqb_neq in H. congruence.
Qed.

(** ** Key Derivation Engine: the claims *)

Ltac solve_bytes :=
  split; [reflexivity | repeat constructor; unfold is_byte; lia].

(** C2.  For every 8-byte address, 16-byte seed and shift in 0..15,
    [compute_seed(addr, compute_key(addr, seed, shift), shift)] is the
    original seed: [compute_seed] inverts [compute_key] at the same shift. *)
Theorem compute_seed_inverts_compute_key (addr : EUI64) (seed : KeyData)
  (shift : Z) :
  is_EUI64 addr -> is_KeyData seed -> 0 <= shift <= 15 ->
  compute_seed addr (compute_key addr seed shift) shift = seed.
Proof.
  intros Ha [Hs _] Hsh. apply compute_seed_compute_key; assumption.
Qed.

Lemma compute_seed_inverts_compute_key_witness :
  is_EUI64 [0; 1; 2; 3; 4; 5; 6; 7]
  /\ is_KeyData [0; 1; 2; 3; 4; 5; 6; 7; 8; 9; 10; 11; 12; 13; 14; 15]
  /\ 0 <= 3 <= 15
  /\ compute_seed [0; 1; 2; 3; 4; 5; 6; 7]
       (compute_key [0; 1; 2; 3; 4; 5; 6; 7]
          [0; 1; 2; 3; 4; 5; 6; 7; 8; 9; 10; 11; 12; 13; 14; 15] 3) 3
     = [0; 1; 2; 3; 4; 5; 6; 7; 8; 9; 10; 11; 12; 13; 14; 15].
Proof.
  assert (Ha : is_EUI64 [0; 1; 2; 3; 4; 5; 6; 7]) by solve_bytes.
  assert (Hs : is_KeyData [0; 1; 2; 3; 4; 5; 6; 7; 8; 9; 10; 11; 12; 13; 14; 15])
    by solve_bytes.
  assert (Hsh : 0 <= 3 <= 15) by lia.
  split; [exact Ha|]. split; [exact Hs|]. split; [exact Hsh|].
  exact (compute_seed_inverts_compute_key _ _ 3 Ha Hs Hsh).
Defined.

(** The search on a derived key finds the least shift that derives it. *)
Lemma find_key_shift_compute_key (addr : EUI64) (seed : KeyData) (shift : Z) :
  is_EUI64 addr -> is_KeyData seed -> 0 <= shift <= 15 ->
  exists s,
    find_key_shift addr (compute_key addr seed shift) seed = Some s
    /\ 0 <= s <= shift
    /\ compute_key addr seed s = compute_key addr seed shift
    /\ forall t, 0 <= t < s ->
                 compute_key addr seed t <> compute_key addr seed shift.
Proof.
  intros Ha Hs Hsh.
  assert (Hlen : length seed = 16%nat) by apply Hs.
  destruct (find_key_shift_least addr (compute_key addr seed shift) seed shift
              Hsh (compute_seed_compute_key _ _ _ Ha Hlen Hsh))
    as (s & Hf & Hr & Hc & Hl).
  exists s. split; [exact Hf|]. split; [exact Hr|]. split.
  - rewrite <- Hc at 1. apply compute_key_compute_seed; try assumption.
    + apply compute_key_length; assumption.
    + lia.
  - intros t Ht E. apply (Hl t Ht). rewrite <- E.
    apply compute_seed_compute_key; try assumption. lia.
Qed.

(** C1, as the code has it.  [find_key_shift] returns the first match, so
    on a key derived at [shift] it returns the least shift in 0..shift that
    derives the same key; that is [shift] itself exactly when no smaller
    rotation of the seed coincides with the rotation by [shift]. *)
Theorem find_key_shift_of_derived_key (addr : EUI64) (seed : KeyData)
  (shift : Z) :
  is_EUI64 addr -> is_KeyData seed -> 0 <= shift <= 15 ->
  exists s,
    find_key_shift addr (compute_key addr seed shift) seed = Some s
    /\ 0 <= s <= shift
    /\ compute_key addr seed s = compute_key addr seed shift
    /\ (forall t, 0 <= t < s ->
                  compute_key addr seed t <> compute_key addr seed shift)
    /\ ((forall t, 0 <= t < shift -> rotate seed t <> rotate seed shift) ->
        s = shift).
Proof.
  intros Ha Hs Hsh.
  destruct (find_key_shift_compute_key addr seed shift Ha Hs Hsh)
    as (s & Hf & Hr & Hc & Hl).
  exists s. repeat (split; [assumption|]).
  intros Hrot. destruct (Z.eq_dec s shift) as [|Hne]; [assumption|].
  exfalso. apply (Hrot s); [lia|].
  apply compute_key_inj_rotate with (ieee := addr); try assumption. apply Hs.
Qed.

Lemma find_key_shift_of_derived_key_witness :
  is_EUI64 [0; 1; 2; 3; 4; 5; 6; 7]
  /\ is_KeyData [0; 1; 2; 3; 4; 5; 6; 7; 8; 9; 10; 11; 12; 13; 14; 15]
  /\ 0 <= 3 <= 15
  /\ exists s,
       find_key_shift [0; 1; 2; 3; 4; 5; 6; 7]
         (compute_key [0; 1; 2; 3; 4; 5; 6; 7]
            [0; 1; 2; 3; 4; 5; 6; 7; 8; 9; 10; 11; 12; 13; 14; 15] 3)
         [0; 1; 2; 3; 4; 5; 6; 7; 8; 9; 10; 11; 12; 13; 14; 15] = Some s
       /\ 0 <= s <= 3.
Proof.
  assert (Ha : is_EUI64 [0; 1; 2; 3; 4; 5; 6; 7]) by solve_bytes.
  assert (Hs : is_KeyData [0; 1; 2; 3; 4; 5; 6; 7; 8; 9; 10; 11; 12; 13; 14; 15])
    by solve_bytes.
  assert (Hsh : 0 <= 3 <= 15) by lia.
  split; [exact Ha|]. split; [exact Hs|]. split; [exact Hsh|].
  destruct (find_key_shift_of_derived_key _ _ 3 Ha Hs Hsh)
    as (s & Hf & Hr & _).
  exists s. split; [exact Hf | exact Hr].
Defined.

(** C1 as stated fails on a seed with a rotational symmetry: every rotation
    of the all-zero seed is the seed, and the search stops at shift 0. *)
Lemma find_key_shift_symmetric_seed :
  is_EUI64 [0; 1; 2; 3; 4; 5; 6; 7]
  /\ is_KeyData (repeat 0 16%nat)
  /\ find_key_shift [0; 1; 2; 3; 4; 5; 6; 7]
       (compute_key [0; 1; 2; 3; 4; 5; 6; 7] (repeat 0 16%nat) 3)
       (repeat 0 16%nat) = Some 0
  /\ Some 0 <> Some 3.
Proof.
  split; [solve_bytes|]. split; [simpl; solve_bytes|].
  split; [reflexivity | discriminate].
Qed.

(** ** Seed Optimizer: the order on candidates *)

Lemma bytes_ltb_irrefl (x : bytes) : bytes_ltb x x = false.
Proof.
  induction x as [|a x IH]; simpl; [reflexivity|].
  rewrite Z.ltb_irrefl, Z.eqb_refl, IH. reflexivity.
Qed.

Lemma bytes_ltb_trans (x y z : bytes) :
  bytes_ltb x y = true -> bytes_ltb y z = true -> bytes_ltb x z = true.
Proof.
  revert y z; induction x as [|a x IH]; intros [|b y] [|c z]; simpl;
    try discriminate; try reflexivity.
  rewrite !orb_true_iff, !andb_true_iff, !Z.ltb_lt, !Z.eqb_eq.
  intros [Hab|[Hab Hxy]] [Hbc|[Hbc Hyz]].
  - left; lia.
  - left; lia.
  - left; lia.
  - right; split; [lia | eapply IH; eassumption].
Qed.

Lemma tuple_gtb_irrefl (x : Z * bytes) : tuple_gtb x x = false.
Proof. unfold tuple_gtb. rewrite Z.eqb_refl. apply bytes_ltb_irrefl. Qed.

Lemma tuple_gtb_trans (x y z : Z * bytes) :
  tuple_gtb x y = true -> tuple_gtb y z = true -> tuple_gtb x z = true.
Proof.
  unfold tuple_gtb. destruct x as [cx sx], y as [cy sy], z as [cz sz]; simpl.
  destruct (cx =? cy) eqn:Exy, (cy =? cz) eqn:Eyz, (cx =? cz) eqn:Exz;
    rewrite ?Z.eqb_eq, ?Z.eqb_neq, ?Z.ltb_lt in *; intros H1 H2;
    try lia.
  eapply bytes_ltb_trans; eassumption.
Qed.

(** What [tuple_gtb x m = false] says of the components. *)
Lemma tuple_not_gtb (c' c : Z) (s' s : bytes) :
  tuple_gtb (c', s') (c, s) = false <->
  c' <= c /\ (c' = c -> bytes_ltb s s' = false).
Proof.
  unfold tuple_gtb; simpl. destruct (c' =? c) eqn:E.
  - apply Z.eqb_eq in E. split; [intros H; split; [lia | auto] | intros [_ H]; auto].
  - apply Z.eqb_neq in E. rewrite Z.ltb_ge. split; [intros H; split; [lia|lia] | lia].
Qed.

Lemma py_max_from_spec (items : list (Z * bytes)) (start : Z * bytes) :
  In (py_max_from start items) (start :: items)
  /\ forall x, In x (start :: items) ->
               tuple_gtb x (py_max_from start items) = false.
Proof.
  unfold py_max_from.
  assert (G : forall seen best,
             In best seen ->
             (forall x, In x seen -> tuple_gtb x best = false) ->
             let m := fold_left
                        (fun best item =>
                           if tuple_gtb item best then item else best)
                        items best in
             In m (seen ++ items)
             /\ forall x, In x (seen ++ items) -> tuple_gtb x m = false).
  { induction items as [|item items IH]; intros seen best Hin Hmax; simpl.
    - rewrite app_nil_r. split; assumption.
    - replace (seen ++ item :: items) with ((seen ++ [item]) ++ items)
        by (rewrite <- app_assoc; reflexivity).
      apply IH.
      + destruct (tuple_gtb item best); apply in_or_app;
          [right; left; reflexivity | left; assumption].
      + intros x Hx. apply in_app_or in Hx as [Hx|[<-|[]]].
        * destruct (tuple_gtb item best) eqn:E; [|apply Hmax; assumption].
          destruct (tuple_gtb x item) eqn:E'; [|reflexivity].
          rewrite <- (Hmax x Hx). symmetry.
          eapply tuple_gtb_trans; eassumption.
        * destruct (tuple_gtb item best) eqn:E;
            [apply tuple_gtb_irrefl | exact E]. }
  specialize (G [start] start (or_introl eq_refl)).
  simpl in G. apply G. intros x [<-|[]]. apply tuple_gtb_irrefl.
Qed.

(** ** Seed Optimizer: the candidates *)

Lemma count_derivable_bounds (l : list (EUI64 * KeyData)) (seed : KeyData) :
  0 <= count_derivable l seed <= Z.of_nat (length l).
Proof.
  unfold count_derivable.
  assert (G : forall acc,
             acc <= fold_left
                      (fun acc ik =>
                         acc + match find_key_shift (fst ik) (snd ik) seed with
                               | Some _ => 1
                               | None => 0
                               end) l acc
             <= acc + Z.of_nat (length l)).
  { induction l as [|ik l IH]; intros acc; simpl; [lia|].
    specialize (IH (acc + match find_key_shift (fst ik) (snd ik) seed with
                          | Some _ => 1
                          | None => 0
                          end)).
    destruct (find_key_shift (fst ik) (snd ik) seed); lia. }
  specialize (G 0). lia.
Qed.

Lemma iter_from_not_all (l pre todo : list (EUI64 * KeyData)) :
  (forall q, In q pre -> ~ derives_all l q) ->
  iter_seed_candidates_from l (pre ++ todo)
  = map (candidate l) pre ++ iter_seed_candidates_from l todo.
Proof.
  induction pre as [|[i k] pre IH]; intros H; simpl; [reflexivity|].
  assert (Hq : ~ derives_all l (i, k)) by (apply H; left; reflexivity).
  unfold derives_all, seed_of in Hq; simpl in Hq.
  apply Z.eqb_neq in Hq. rewrite Hq. unfold candidate at 1, seed_of; simpl.
  f_equal. apply IH. intros q Hin. apply H. right; assumption.
Qed.

Lemma iter_from_all (l : list (EUI64 * KeyData)) (p : EUI64 * KeyData)
  (post : list (EUI64 * KeyData)) :
  derives_all l p ->
  iter_seed_candidates_from l (p :: post) = [candidate l p].
Proof.
  destruct p as [i k]. unfold derives_all, seed_of; simpl. intros H.
  apply Z.eqb_eq in H. rewrite H. reflexivity.
Qed.

Lemma iter_seed_candidates_nonempty (l : list (EUI64 * KeyData)) :
  l <> [] -> iter_seed_candidates l <> [].
Proof.
  unfold iter_seed_candidates. destruct l as [|[i k] l]; [congruence|].
  intros _. simpl. discriminate.
Qed.

Lemma choose_seed_max (l : list (EUI64 * KeyData)) :
  l <> [] ->
  exists c s,
    choose_seed None l = Some s
    /\ In (c, s) (iter_seed_candidates l)
    /\ forall c' s', In (c', s') (iter_seed_candidates l) ->
                     c' <= c /\ (c' = c -> bytes_ltb s s' = false).
Proof.
  intros Hl. unfold choose_seed.
  destruct l as [|ik l']; [congruence|]. set (l := ik :: l') in *.
  pose proof (iter_seed_candidates_nonempty l Hl) as Hne.
  destruct (iter_seed_candidates l) as [|x items] eqn:E; [congruence|].
  simpl. destruct (py_max_from_spec items x) as [Hin Hmax].
  destruct (py_max_from x items) as [c s].
  exists c, s. split; [reflexivity|]. split; [exact Hin|].
  intros c' s' H'. apply tuple_not_gtb. apply Hmax. exact H'.
Qed.

(** C3, as the code has it.  Each candidate seed is [compute_seed] at shift
    0, its count is the number of pairs that [find_key_shift] derives from
    it, the scan ends with the first candidate that derives every pair, and
    an empty input gives no seed.  The chosen tuple is the greatest under
    Python's tuple order: the greatest count and, among equal counts, the
    greatest seed bytes, not the first in input order. *)
Theorem seed_optimizer_selection (l : list (EUI64 * KeyData)) :
  (l = [] -> choose_seed None l = None)
  /\ (l <> [] ->
      exists c s,
        choose_seed None l = Some s
        /\ In (c, s) (iter_seed_candidates l)
        /\ forall c' s', In (c', s') (iter_seed_candidates l) ->
                         c' <= c /\ (c' = c -> bytes_ltb s s' = false))
  /\ (forall pre p post,
        l = pre ++ p :: post ->
        (forall q, In q pre -> ~ derives_all l q) ->
        derives_all l p ->
        iter_seed_candidates l = map (candidate l) (pre ++ [p])
        /\ choose_seed None l = Some (seed_of p))
  /\ ((forall q, In q l -> ~ derives_all l q) ->
      iter_seed_candidates l = map (candidate l) l).
Proof.
  split; [intros ->; reflexivity|].
  split; [apply choose_seed_max|].
  split.
  - intros pre p post El Hpre Hp.
    assert (Ec : iter_seed_candidates l = map (candidate l) (pre ++ [p])).
    { unfold iter_seed_candidates. rewrite El at 2.
      rewrite iter_from_not_all by assumption.
      rewrite iter_from_all by assumption.
      rewrite map_app. reflexivity. }
    split; [exact Ec|].
    assert (Hl : l <> []) by (rewrite El; destruct pre; discriminate).
    destruct (choose_seed_max l Hl) as (c & s & Hs & Hin & Hmax).
    rewrite Hs. f_equal.
    assert (Hp' : In (candidate l p) (iter_seed_candidates l)).
    { rewrite Ec, map_app. apply in_or_app. right; left; reflexivity. }
    unfold candidate in Hp'. apply Hmax in Hp' as [Hle _].
    rewrite Hp in Hle.
    rewrite Ec, map_app in Hin. apply in_app_or in Hin as [Hin|[Hin|[]]].
    + apply in_map_iff in Hin as (q & Eq & Hq). exfalso.
      apply (Hpre q Hq). unfold derives_all. unfold candidate in Eq.
      injection Eq as Ecount _.
      pose proof (count_derivable_bounds l (seed_of q)). lia.
    + unfold candidate in Hin. inversion Hin; reflexivity.
  - intros Hall. unfold iter_seed_candidates.
    rewrite <- (app_nil_r l) at 2.
    rewrite iter_from_not_all by assumption. simpl. apply app_nil_r.
Qed.

Lemma seed_optimizer_selection_witness :
  [([0; 1; 2; 3; 4; 5; 6; 7],
    [1; 0; 0; 0; 0; 0; 0; 0; 0; 0; 0; 0; 0; 0; 0; 0])] <> []
  /\ exists c s,
       choose_seed None
         [([0; 1; 2; 3; 4; 5; 6; 7],
           [1; 0; 0; 0; 0; 0; 0; 0; 0; 0; 0; 0; 0; 0; 0; 0])] = Some s
       /\ In (c, s)
            (iter_seed_candidates
               [([0; 1; 2; 3; 4; 5; 6; 7],
                 [1; 0; 0; 0; 0; 0; 0; 0; 0; 0; 0; 0; 0; 0; 0; 0])]).
Proof.
  assert (H : [([0; 1; 2; 3; 4; 5; 6; 7],
                [1; 0; 0; 0; 0; 0; 0; 0; 0; 0; 0; 0; 0; 0; 0; 0])] <> [])
    by discriminate.
  split; [exact H|].
  destruct (seed_optimizer_selection
              [([0; 1; 2; 3; 4; 5; 6; 7],
                [1; 0; 0; 0; 0; 0; 0; 0; 0; 0; 0; 0; 0; 0; 0; 0])])
    as (_ & Hmax & _).
  destruct (Hmax H) as (c & s & Hs & Hin & _).
  exists c, s. split; [exact Hs | exact Hin].
Defined.

(** C3 as stated fails on a tie: two unrelated keys give two candidates of
    count 1, and [max] on the tuples picks the second, whose seed bytes are
    greater, where input order would pick the first. *)
Lemma seed_optimizer_tie_not_input_order :
  let l := [([1; 1; 2; 3; 4; 5; 6; 7],
             [1; 0; 0; 0; 0; 0; 0; 0; 0; 0; 0; 0; 0; 0; 0; 0]);
            ([0; 1; 2; 3; 4; 5; 6; 7],
             [2; 0; 0; 0; 0; 0; 0; 0; 0; 0; 0; 0; 0; 0; 0; 0])] in
  iter_seed_candidates l
  = [(1, [0; 1; 2; 3; 4; 5; 6; 7; 1; 1; 2; 3; 4; 5; 6; 7]);
     (1, [2; 1; 2; 3; 4; 5; 6; 7; 0; 1; 2; 3; 4; 5; 6; 7])]
  /\ spec_choose_seed l
     = Some [0; 1; 2; 3; 4; 5; 6; 7; 1; 1; 2; 3; 4; 5; 6; 7]
  /\ choose_seed None l
     = Some [2; 1; 2; 3; 4; 5; 6; 7; 0; 1; 2; 3; 4; 5; 6; 7]
  /\ choose_seed None l <> spec_choose_seed l.
Proof.
  cbv zeta. split; [vm_compute; reflexivity|].
  split; [vm_compute; reflexivity|].
  split; [vm_compute; reflexivity|].
  vm_compute. discriminate.
Qed.

(** ** Results, loops and dictionaries *)

Lemma bind_Ok {A B} (r : result A) (k : A -> result B) (b : B) :
  bind r k = Ok b -> exists a, r = Ok a /\ k a = Ok b.
Proof. destruct r as [a|e]; simpl; [eauto | discriminate]. Qed.

(** A loop whose body keeps an invariant keeps it. *)
Lemma for_each_invariant {A S} (P : S -> Prop) (body : A -> S -> result S)
  (xs : list A) (s s' : S) :
  (forall x t t', In x xs -> P t -> body x t = Ok t' -> P t') ->
  P s -> for_each body xs s = Ok s' -> P s'.
Proof.
  revert s; induction xs as [|x xs IH]; intros s Hb Hs H; simpl in H.
  - congruence.
  - apply bind_Ok in H as (t & Hx & Hxs).
    apply (IH t); auto.
    + intros y u u' Hy. apply Hb. right; assumption.
    + eapply Hb; eauto. left; reflexivity.
Qed.

(** A body that skips every entry yields nothing. *)
Lemma yield_from_skip {E A} (body : E -> result (option A)) (xs : list E) :
  (forall x, In x xs -> body x = Ok None) -> yield_from body xs = ([], None).
Proof.
  induction xs as [|x xs IH]; intros H; simpl; [reflexivity|].
  rewrite (H x) by (left; reflexivity). apply IH.
  intros y Hy. apply H. right; assumption.
Qed.

(** A body that skips or raises [e] yields nothing, and raises [e] exactly
    when it meets an entry on which it raises. *)
Lemma yield_from_skip_or_raise {E A} (body : E -> result (option A))
  (e : exn) (xs : list E) :
  (forall x, In x xs -> body x = Ok None \/ body x = Raise e) ->
  (yield_from body xs = ([], None)
   /\ forall x, In x xs -> body x = Ok None)
  \/ (yield_from body xs = ([], Some e)
      /\ exists x, In x xs /\ body x = Raise e).
Proof.
  induction xs as [|x xs IH]; intros H; simpl.
  - left. split; [reflexivity | intros x []].
  - destruct (H x (or_introl eq_refl)) as [Hx|Hx]; rewrite Hx.
    + destruct IH as [[Hy Hall]|[Hy (y & Hin & Hr)]].
      * intros y Hy. apply H. right; assumption.
      * left. split; [exact Hy|]. intros y [<-|Hin]; auto.
      * right. split; [exact Hy|]. exists y. split; [right|]; assumption.
    + right. split; [reflexivity|]. exists x. split; [left; reflexivity|].
      exact Hx.
Qed.

Lemma dict_get_In (d : dict) (k : EUI64) (v : StoredDevice) :
  dict_get d k = Ok v -> In (k, v) d.
Proof.
  induction d as [|[k' v'] d IH]; simpl; [discriminate|].
  destruct (bytes_eqb k' k) eqn:E.
  - apply bytes_eqb_eq in E. intros H; injection H as ->. left; congruence.
  - intros H. right. apply IH, H.
Qed.

Lemma dict_get_keys (d : dict) (k : EUI64) :
  In k (map fst d) -> exists v, dict_get d k = Ok v.
Proof.
  induction d as [|[k' v'] d IH]; simpl; [intros []|].
  intros H. destruct (bytes_eqb k' k) eqn:E; [eauto|].
  apply bytes_eqb_neq in E. destruct H as [H|H]; [congruence | auto].
Qed.

Lemma dict_set_In (d : dict) (k : EUI64) (v : StoredDevice)
  (kv : EUI64 * StoredDevice) :
  In kv (dict_set d k v) -> kv = (k, v) \/ In kv d.
Proof.
  induction d as [|[k' v'] d IH]; simpl.
  - intros [<-|[]]; left; reflexivity.
  - destruct (bytes_eqb k' k) eqn:E.
    + apply bytes_eqb_eq in E. subst k'. intros [<-|H]; auto.
    + intros [<-|H]; auto. destruct (IH H); auto.
Qed.

Lemma dict_set_keys_present (d : dict) (k : EUI64) (v : StoredDevice) :
  In k (map fst d) -> map fst (dict_set d k v) = map fst d.
Proof.
  induction d as [|[k' v'] d IH]; simpl; [intros []|].
  intros H. destruct (bytes_eqb k' k) eqn:E; simpl; [reflexivity|].
  apply bytes_eqb_neq in E. destruct H as [H|H]; [congruence|].
  f_equal. apply IH, H.
Qed.

Lemma dict_set_fresh (d : dict) (k : EUI64) (v : StoredDevice) :
  ~ In k (map fst d) -> dict_set d k v = d ++ [(k, v)].
Proof.
  induction d as [|[k' v'] d IH]; simpl; intros H; [reflexivity|].
  destruct (bytes_eqb k' k) eqn:E.
  - apply bytes_eqb_eq in E. tauto.
  - f_equal. apply IH. tauto.
Qed.

Lemma dict_get_set_same (d : dict) (k : EUI64) (v : StoredDevice) :
  dict_get (dict_set d k v) k = Ok v.
Proof.
  induction d as [|[k' v'] d IH]; simpl.
  - rewrite bytes_eqb_refl. reflexivity.
  - destruct (bytes_eqb k' k) eqn:E; simpl; rewrite E; auto.
Qed.

Lemma dict_get_set_other (d : dict) (k k' : EUI64) (v : StoredDevice) :
  k <> k' -> dict_get (dict_set d k v) k' = dict_get d k'.
Proof.
  intros Hne. induction d as [|[k0 v0] d IH]; simpl.
  - destruct (bytes_eqb k k') eqn:E; [|reflexivity].
    apply bytes_eqb_eq in E. congruence.
  - destruct (bytes_eqb k0 k) eqn:E; simpl.
    + apply bytes_eqb_eq in E. subst k0.
      destruct (bytes_eqb k k') eqn:E'; [|reflexivity].
      apply bytes_eqb_eq in E'. congruence.
    + rewrite IH. reflexivity.
Qed.

(** ** The indirection table *)

(** [APSLinkKeyTableEntry] declares no field [LinkKeyNvId]: the keyword
    construction of [write_devices] raises whatever the values. *)
Lemma APSLinkKeyTableEntry_LinkKeyNvId (index nv_id state : Z) :
  APSLinkKeyTableEntry
    [("AddressManagerIndex", index); ("LinkKeyNvId", nv_id);
     ("AuthenticationState", state)]%string
  = Raise TypeError.
Proof. reflexivity. Qed.

Lemma declared_entry_LinkKeyNvId (e : cstruct) :
  declared_entry e -> getattr_int e "LinkKeyNvId" = Raise AttributeError.
Proof. intros (i & o & a & ->). reflexivity. Qed.

Lemma deserialize_entry_declared (data rest : bytes) (e : cstruct) :
  APSLinkKeyTableEntry_deserialize data = Ok (e, rest) -> declared_entry e.
Proof.
  unfold APSLinkKeyTableEntry_deserialize.
  destruct data as [|lo [|hi [|lo' [|hi' [|a data]]]]]; simpl;
    try discriminate.
  destruct (AuthenticationOption.of_uint8 a) as [a'|]; simpl;
    [|discriminate].
  intros H. injection H as <- _.
  exists (lo + 256 * hi), (lo' + 256 * hi'), a'. reflexivity.
Qed.

Lemma deserialize_entries_declared (n : nat) (data rest : bytes)
  (es : APSLinkKeyTable) :
  deserialize_entries n data = Ok (es, rest) -> Forall declared_entry es.
Proof.
  revert data es; induction n as [|n IH]; intros data es; simpl.
  - intros H; injection H as <- _. constructor.
  - destruct (APSLinkKeyTableEntry_deserialize data) as [[e d1]|] eqn:E1;
      simpl; [|discriminate].
    destruct (deserialize_entries n d1) as [[es' d2]|] eqn:E2; simpl;
      [|discriminate].
    intros H; injection H as H1 H2. subst es d2. constructor.
    + eapply deserialize_entry_declared; eassumption.
    + eapply IH; eassumption.
Qed.

Lemma deserialize_table_declared (data rest : bytes) (es : APSLinkKeyTable) :
  APSLinkKeyTable_deserialize data = Ok (es, rest) -> Forall declared_entry es.
Proof.
  unfold APSLinkKeyTable_deserialize.
  destruct (deserialize_uint16 data) as [[n d]|]; simpl; [|discriminate].
  apply deserialize_entries_declared.
Qed.

(** On an entry of the declared shape the loop body of
    [read_unhashed_link_keys] skips it, or fails on [entry.LinkKeyNvId]; it
    fails exactly on the entries marked [AuthenticatedCBCK]. *)
Lemma unhashed_link_key_item_declared (base : Z)
  (table : list APSKeyDataTableEntry) (am : list AddrMgrEntry) (e : cstruct) :
  declared_entry e ->
  (unhashed_link_key_item base table am e = Ok None
   /\ exists a, getattr_int e "AuthenticationState" = Ok a
                /\ Z.land a AuthenticationOption.AuthenticatedCBCK = 0)
  \/ (unhashed_link_key_item base table am e = Raise AttributeError
      /\ exists a, getattr_int e "AuthenticationState" = Ok a
                   /\ Z.land a AuthenticationOption.AuthenticatedCBCK <> 0).
Proof.
  intros (i & o & a & ->). unfold unhashed_link_key_item.
  change (getattr_int
            [("AddressManagerIndex", Some i); ("LinkKeyTableOffset", Some o);
             ("AuthenticationState", Some a)]%string "AuthenticationState")
    with (@Ok Z a).
  simpl bind.
  destruct (Z.land a AuthenticationOption.AuthenticatedCBCK =? 0) eqn:E.
  - left. split; [reflexivity|]. exists a. split; [reflexivity|].
    apply Z.eqb_eq, E.
  - right. split; [reflexivity|]. exists a. split; [reflexivity|].
    apply Z.eqb_neq, E.
Qed.

Lemma yield_unhashed_declared (base : Z) (table : list APSKeyDataTableEntry)
  (am : list AddrMgrEntry) (es : APSLinkKeyTable) :
  Forall declared_entry es ->
  (yield_from (unhashed_link_key_item base table am) es = ([], None)
   /\ forall e, In e es -> unhashed_link_key_item base table am e = Ok None)
  \/ (yield_from (unhashed_link_key_item base table am) es
      = ([], Some AttributeError)
      /\ exists e, In e es
                   /\ unhashed_link_key_item base table am e
                      = Raise AttributeError).
Proof.
  intros H. apply yield_from_skip_or_raise. intros e He.
  rewrite Forall_forall in H.
  destruct (unhashed_link_key_item_declared base table am e (H e He))
    as [[-> _]|[-> _]]; auto.
Qed.

Section RegistryReadFacts.

Variable base : Z.

(** The unhashed pass never yields an item. *)
Lemma read_unhashed_link_keys_nothing (nv : nvram) (am : list AddrMgrEntry) :
  fst (read_unhashed_link_keys base nv am) = [].
Proof.
  unfold read_unhashed_link_keys.
  destruct (version_number (version nv) =? 330).
  - destruct (read_table Ex_APS_KEY_DATA_TABLE ex_aps_key_data_table nv)
      as [table|e]; [|destruct e; reflexivity].
    destruct (osal_read APS_LINK_KEY_TABLE aps_link_key_table nv)
      as [raw|e]; simpl; [|reflexivity].
    destruct (APSLinkKeyTable_deserialize raw) as [[es rest]|e] eqn:E;
      [|reflexivity].
    destruct (yield_unhashed_declared 0 table am es
                (deserialize_table_declared _ _ _ E)) as [[-> _]|[-> _]];
      reflexivity.
  - destruct (read_table LEGACY_APS_LINK_KEY_DATA legacy_aps_link_key_data nv)
      as [table|e]; [|destruct e; reflexivity].
    destruct (osal_read APS_LINK_KEY_TABLE aps_link_key_table nv)
      as [raw|e]; simpl; [|reflexivity].
    destruct (APSLinkKeyTable_deserialize raw) as [[es rest]|e] eqn:E;
      [|reflexivity].
    destruct (yield_unhashed_declared base table am es
                (deserialize_table_declared _ _ _ E)) as [[-> _]|[-> _]];
      reflexivity.
Qed.

(** The unhashed pass leaves the devices as they are, when it does not
    raise. *)
Lemma unhashed_pass_unchanged (nv : nvram) (am : list AddrMgrEntry)
  (devices devices' : dict) :
  for_generator (read_unhashed_link_keys base nv am) attach_unhashed devices
  = Ok devices' ->
  devices' = devices.
Proof.
  unfold for_generator. rewrite read_unhashed_link_keys_nothing. simpl.
  destruct (snd (read_unhashed_link_keys base nv am)); congruence.
Qed.

End RegistryReadFacts.

(** ** The class of the seed *)

(** On a [bytes] seed [find_key_shift_any] is [find_key_shift]. *)
Lemma find_key_shift_any_bytes (ieee0 : EUI64) (key seed : KeyData) :
  find_key_shift_any ieee0 key (bytes_seed seed)
  = find_key_shift ieee0 key seed.
Proof. reflexivity. Qed.

(** On a [t.KeyData] seed no comparison succeeds and no shift is found. *)
Lemma find_key_shift_any_KeyData (ieee0 : EUI64) (key seed : KeyData) :
  find_key_shift_any ieee0 key (KeyData_seed seed) = None.
Proof. reflexivity. Qed.

Lemma find_key_shift_stored_None (ieee0 : EUI64) (key : KeyData)
  (tclk_seed : option KeyData) :
  find_key_shift_stored ieee0 key tclk_seed = None.
Proof. destruct tclk_seed; reflexivity. Qed.

(** ** The data-model invariant of [read_devices] *)

Lemma dict_invariant_set (seed : option KeyData) (devices : dict) (k : EUI64)
  (d : StoredDevice) :
  dict_invariant seed devices -> ieee d = k -> device_invariant seed d ->
  dict_invariant seed (dict_set devices k d).
Proof.
  intros HD Hk Hd k' d' Hin.
  apply dict_set_In in Hin as [E|Hin]; [|apply HD; assumption].
  injection E as -> ->. split; assumption.
Qed.

Lemma new_device_invariant (seed : option KeyData) (entry : AddrMgrEntry)
  (devices devices' : dict) :
  dict_invariant seed devices -> new_device entry devices = Ok devices' ->
  dict_invariant seed devices'.
Proof.
  intros HD. unfold new_device.
  destruct (nwkAddr entry =? 65535);
    [intros H; injection H as <-; exact HD|].
  destruct ((type entry =? AddrMgrUserType.Assoc)
            || (type entry =?
                Z.lor AddrMgrUserType.Assoc AddrMgrUserType.Security));
    [|discriminate].
  intros H; injection H as <-.
  apply dict_invariant_set; [assumption | reflexivity |].
  split; [|split]; simpl; try congruence.
Qed.

Lemma attach_hashed_invariant (seed : KeyData) (item : hashed_item)
  (devices devices' : dict) :
  dict_invariant (Some seed) devices ->
  attach_hashed (Some seed) item devices = Ok devices' ->
  dict_invariant (Some seed) devices'.
Proof.
  intros HD. destruct item as [[[ieee0 tx] rx] key].
  unfold attach_hashed, item_ieee, with_hashed_key. simpl fst.
  intros H. apply bind_Ok in H as (d & Hget & H). injection H as <-.
  apply dict_get_In in Hget. destruct (HD _ _ Hget) as [Hk _].
  apply dict_invariant_set; [assumption | exact Hk |].
  split; [|split]; simpl.
  - discriminate.
  - intros _. split; discriminate.
  - intros key' E. injection E as <-. exists seed.
    split; [reflexivity|]. rewrite Hk. reflexivity.
Qed.

Lemma device_invariant_no_seed (seed : option KeyData) (d : StoredDevice) :
  device_invariant None d -> device_invariant seed d.
Proof.
  intros (H1 & H2 & H3). split; [exact H1|]. split; [exact H2|].
  intros key Hk. destruct (H3 key Hk) as (s & Hs & _). discriminate.
Qed.

Section ReadInvariant.

Variable base : Z.

Lemma read_tclk_seed_stored (nv : nvram) (seed : KeyData) :
  read_tclk_seed nv = Ok (Some seed) -> tclk_seed nv = Some seed.
Proof.
  unfold read_tclk_seed, osal_read.
  destruct (version_number (version nv) >? 120); [|discriminate].
  destruct (secured nv TCLK_SEED); [discriminate|].
  destruct (tclk_seed nv); simpl; congruence.
Qed.

Lemma read_devices_dict_invariant (nv : nvram) (ds : list StoredDevice) :
  read_devices base nv = Ok ds ->
  exists seed devices,
    read_tclk_seed nv = Ok seed
    /\ dict_invariant seed devices
    /\ ds = dict_values devices.
Proof.
  unfold read_devices. intros H.
  apply bind_Ok in H as (seed & Hseed & H).
  apply bind_Ok in H as (am & Ham & H).
  apply bind_Ok in H as (d1 & H1 & H).
  apply bind_Ok in H as (d2 & H2 & H).
  apply bind_Ok in H as (d3 & H3 & H).
  injection H as <-.
  apply unhashed_pass_unchanged in H3. subst d3.
  exists seed, d2. split; [exact Hseed|]. split; [|reflexivity].
  assert (Inv1 : dict_invariant seed d1).
  { eapply (for_each_invariant (dict_invariant seed)); [| |exact H1].
    - intros x t t' _. apply new_device_invariant.
    - intros k d []. }
  unfold for_generator in H2. apply bind_Ok in H2 as (d2' & H2 & Hend).
  assert (d2' = d2)
    by (destruct (snd (read_hashed_link_keys nv seed)); congruence).
  subst d2'. destruct seed as [seed|].
  - eapply (for_each_invariant (dict_invariant (Some seed)));
      [| exact Inv1 | exact H2].
    intros x t t' _. apply attach_hashed_invariant.
  - simpl in H2. injection H2 as <-. exact Inv1.
Qed.

(** X25.  Every [StoredDevice] returned by [read_devices] satisfies the
    data-model invariant: a shift is present only alongside a key, a key
    comes with both counters, and the shift of a device with a key is what
    [find_key_shift] returns on its address, its key and the stored seed,
    a [t.KeyData], whatever [SeedShift_IcIndex] the stored entry records.
    That is no shift: no device [read_devices] returns carries one. *)
Theorem read_devices_invariant (nv : nvram) (ds : list StoredDevice)
  (d : StoredDevice) :
  read_devices base nv = Ok ds -> In d ds ->
  device_invariant (tclk_seed nv) d /\ hashed_link_key_shift d = None.
Proof.
  intros H Hin.
  apply read_devices_dict_invariant in H as (seed & devices & Hs & Inv & ->).
  unfold dict_values in Hin. apply in_map_iff in Hin as ([k d'] & <- & Hin).
  destruct (Inv _ _ Hin) as [_ Hd]. cbn [snd].
  assert (Hnone : hashed_link_key_shift d' = None).
  { destruct Hd as (H1 & _ & H3).
    destruct (aps_link_key d') as [key|] eqn:Ek.
    - destruct (H3 key eq_refl) as (s & _ & ->).
      apply find_key_shift_any_KeyData.
    - destruct (hashed_link_key_shift d') as [z|]; [|reflexivity].
      exfalso. apply H1; [discriminate | reflexivity]. }
  split; [|exact Hnone].
  destruct seed as [seed|].
  - apply read_tclk_seed_stored in Hs. rewrite Hs. exact Hd.
  - apply device_invariant_no_seed. exact Hd.
Qed.

End ReadInvariant.

(** The stored entry records shift 19, and the key it stands for derives
    from the seed at shift 0; the device read back carries no shift. *)
Lemma read_devices_invariant_witness :
  let d := {| ieee := Sample.ieee_a; nwk := 0x1234;
              hashed_link_key_shift := None;
              aps_link_key :=
                Some (compute_key Sample.ieee_a Sample.seed 0);
              tx_counter := Some 10; rx_counter := Some 20 |} in
  read_devices Sample.legacy_start Sample.store_with_stale_shift = Ok [d]
  /\ In d [d]
  /\ device_invariant (tclk_seed Sample.store_with_stale_shift) d
  /\ hashed_link_key_shift d = None.
Proof.
  cbv zeta.
  assert (H : read_devices Sample.legacy_start Sample.store_with_stale_shift
              = Ok [{| ieee := Sample.ieee_a; nwk := 0x1234;
                       hashed_link_key_shift := None;
                       aps_link_key :=
                         Some (compute_key Sample.ieee_a Sample.seed 0);
                       tx_counter := Some 10; rx_counter := Some 20 |}])
    by (vm_compute; reflexivity).
  split; [exact H|]. split; [left; reflexivity|].
  exact (read_devices_invariant Sample.legacy_start _ _ _ H
           (or_introl eq_refl)).
Defined.

(** C7.  The shift of a device [read_devices] returns is not re-derived
    from its address, its key and the seed.  A Z-Stack 3.30 store holds
    the seed 00 01 .. 0f, one address entry and one hashed-key entry for
    that address, at shift 3.  The device read back carries the key
    [compute_key] derives at shift 3 and both counters, and no shift,
    although [find_key_shift] on the bytes of the seed finds shift 3 for
    that key: [read_devices] hands [find_key_shift] the seed as the
    [t.KeyData] it read, a list, which equals no [bytes] object. *)
Theorem read_devices_shift_not_rederived :
  let nv := RegistrySample.store_of Z_Stack_3_30
              [RegistrySample.addr_entry
                 (Z.lor AddrMgrUserType.Assoc AddrMgrUserType.Security)
                 0x1234 Sample.ieee_a]
              [RegistrySample.tclk_entry Sample.ieee_a 3] in
  let key := compute_key Sample.ieee_a Sample.seed 3 in
  read_devices Sample.legacy_start nv
  = Ok [{| ieee := Sample.ieee_a; nwk := 0x1234;
           hashed_link_key_shift := None;
           aps_link_key := Some key;
           tx_counter := Some 10; rx_counter := Some 20 |}]
  /\ tclk_seed nv = Some Sample.seed
  /\ find_key_shift Sample.ieee_a key Sample.seed = Some 3.
Proof.
  cbv zeta. split; [vm_compute; reflexivity|].
  split; [reflexivity | vm_compute; reflexivity].
Qed.

(** ** Which exceptions the passes raise *)

Lemma for_each_raise {A S} (P : exn -> Prop) (body : A -> S -> result S)
  (xs : list A) (s : S) (e : exn) :
  (forall x t e', In x xs -> body x t = Raise e' -> P e') ->
  for_each body xs s = Raise e -> P e.
Proof.
  revert s; induction xs as [|x xs IH]; intros s Hb; simpl; [discriminate|].
  destruct (body x s) as [s'|e'] eqn:E; simpl.
  - apply IH. intros y t e'' Hy. apply Hb. right; assumption.
  - intros H; injection H as <-. eapply Hb; [left; reflexivity | exact E].
Qed.

Lemma new_device_raise (entry : AddrMgrEntry) (devices : dict) (e : exn) :
  new_device entry devices = Raise e -> e = ValueError.
Proof.
  unfold new_device. destruct (nwkAddr entry =? 65535); [discriminate|].
  destruct ((type entry =? AddrMgrUserType.Assoc)
            || (type entry =?
                Z.lor AddrMgrUserType.Assoc AddrMgrUserType.Security));
    congruence.
Qed.

Lemma deserialize_uint16_raise (data : bytes) (e : exn) :
  deserialize_uint16 data = Raise e -> e = ValueError.
Proof. destruct data as [|lo [|hi rest]]; simpl; congruence. Qed.

Lemma deserialize_entry_raise (data : bytes) (e : exn) :
  APSLinkKeyTableEntry_deserialize data = Raise e -> e = ValueError.
Proof.
  unfold APSLinkKeyTableEntry_deserialize.
  destruct data as [|lo [|hi [|lo' [|hi' [|a data]]]]]; simpl;
    try congruence.
  unfold AuthenticationOption.of_uint8.
  destruct ((a =? AuthenticationOption.NotAuthenticated)
            || (a =? AuthenticationOption.AuthenticatedCBCK)
            || (a =? AuthenticationOption.AuthenticatedEA)); simpl;
    congruence.
Qed.

Lemma deserialize_entries_raise (n : nat) (data : bytes) (e : exn) :
  deserialize_entries n data = Raise e -> e = ValueError.
Proof.
  revert data; induction n as [|n IH]; intros data; simpl; [discriminate|].
  destruct (APSLinkKeyTableEntry_deserialize data) as [[x d1]|e1] eqn:E1;
    simpl.
  - destruct (deserialize_entries n d1) as [[es d2]|e2] eqn:E2; simpl;
      [discriminate|].
    intros H; injection H as <-. eapply IH; eassumption.
  - intros H; injection H as <-. eapply deserialize_entry_raise; eassumption.
Qed.

Lemma deserialize_table_raise (data : bytes) (e : exn) :
  APSLinkKeyTable_deserialize data = Raise e -> e = ValueError.
Proof.
  unfold APSLinkKeyTable_deserialize.
  destruct (deserialize_uint16 data) as [[n d]|e1] eqn:E1; simpl.
  - apply deserialize_entries_raise.
  - intros H; injection H as <-. eapply deserialize_uint16_raise; eassumption.
Qed.

Section RegistrySecurity.

Variable base : Z.

(** How the unhashed pass ends when the indirection table is disclosed. *)
Lemma read_unhashed_link_keys_end (nv : nvram) (am : list AddrMgrEntry) :
  secured nv APS_LINK_KEY_TABLE = false ->
  fst (read_unhashed_link_keys base nv am) = []
  /\ snd (read_unhashed_link_keys base nv am) <> Some SecurityError.
Proof.
  intros Hsec. split; [apply read_unhashed_link_keys_nothing|].
  unfold read_unhashed_link_keys, read_table, osal_read. rewrite Hsec.
  assert (G : forall b table,
             snd match
                   bind match aps_link_key_table nv with
                        | Some a => Ok a
                        | None => Raise ItemNotFound
                        end
                     (fun raw => APSLinkKeyTable_deserialize raw)
                 with
                 | Ok (link_key_table, _) =>
                     yield_from (unhashed_link_key_item b table am)
                       link_key_table
                 | Raise e => ([], Some e)
                 end <> Some SecurityError).
  { intros b table. destruct (aps_link_key_table nv) as [raw|]; simpl;
      [|discriminate].
    destruct (APSLinkKeyTable_deserialize raw) as [[es rest]|e] eqn:E.
    - destruct (yield_unhashed_declared b table am es
                  (deserialize_table_declared _ _ _ E)) as [[-> _]|[-> _]];
        discriminate.
    - apply deserialize_table_raise in E. subst e. discriminate. }
  destruct (version_number (version nv) =? 330).
  - destruct (secured nv Ex_APS_KEY_DATA_TABLE); [discriminate | apply G].
  - destruct (secured nv LEGACY_APS_LINK_KEY_DATA); [discriminate | apply G].
Qed.

(** An undisclosable raw-key table ends the unhashed pass at once. *)
Lemma read_unhashed_link_keys_secured (nv : nvram) (am : list AddrMgrEntry) :
  secured nv (key_data_table_id (version nv)) = true ->
  read_unhashed_link_keys base nv am = ([], None).
Proof.
  unfold read_unhashed_link_keys, key_data_table_id, read_table.
  destruct (version nv); simpl; intros ->; reflexivity.
Qed.

Lemma read_devices_old_firmware (nv : nvram) :
  version nv = Z_Stack_1_2 ->
  secured nv ADDRMGR = false -> secured nv APS_LINK_KEY_TABLE = false ->
  read_tclk_seed nv = Ok None
  /\ read_hashed_link_keys nv None = ([], None)
  /\ read_devices base nv <> Raise SecurityError.
Proof.
  intros Hv Ha Hl.
  assert (Hs : read_tclk_seed nv = Ok None)
    by (unfold read_tclk_seed; rewrite Hv; reflexivity).
  split; [exact Hs|]. split; [reflexivity|].
  unfold read_devices. rewrite Hs. simpl bind.
  unfold read_addr_mgr_entries, osal_read. rewrite Hv, Ha. simpl.
  destruct (addrmgr nv) as [am|]; simpl; [|discriminate].
  destruct (for_each new_device am []) as [d1|e] eqn:E1; simpl.
  - unfold for_generator at 1. simpl.
    destruct (read_unhashed_link_keys_end nv am Hl) as [Hfst Hsnd].
    unfold for_generator. rewrite Hfst. simpl.
    destruct (snd (read_unhashed_link_keys base nv am)) as [e|]; simpl;
      [intros H; apply Hsnd; congruence | discriminate].
  - apply (for_each_raise (fun e => e = ValueError)) in E1.
    + subst e; discriminate.
    + intros x t e' _. apply new_device_raise.
Qed.

Lemma read_devices_secured_seed (nv : nvram) :
  version nv <> Z_Stack_1_2 -> secured nv TCLK_SEED = true ->
  read_devices base nv = Raise SecurityError.
Proof.
  intros Hv Hs. unfold read_devices, read_tclk_seed, osal_read.
  rewrite Hs. destruct (version nv); simpl; congruence.
Qed.

(** C6, as the code has it.  On firmware 1.2 [read_devices] reads neither
    the seed nor the hashed-key table: the seed counts as unavailable, no
    hashed key is yielded, and no [SecurityError] comes out when the address
    table and the indirection table are disclosed.  On every firmware an
    undisclosable raw-key table makes the unhashed pass yield nothing.  On
    newer firmware the read of the seed is not guarded and a refused
    disclosure propagates as [SecurityError]. *)
Theorem read_devices_security (nv : nvram) :
  (version nv = Z_Stack_1_2 ->
   secured nv ADDRMGR = false -> secured nv APS_LINK_KEY_TABLE = false ->
   read_tclk_seed nv = Ok None
   /\ read_hashed_link_keys nv None = ([], None)
   /\ read_devices base nv <> Raise SecurityError)
  /\ (forall am,
        secured nv (key_data_table_id (version nv)) = true ->
        read_unhashed_link_keys base nv am = ([], None))
  /\ (version nv <> Z_Stack_1_2 -> secured nv TCLK_SEED = true ->
      read_devices base nv = Raise SecurityError).
Proof.
  split; [apply read_devices_old_firmware|].
  split; [intros am; apply read_unhashed_link_keys_secured|].
  apply read_devices_secured_seed.
Qed.

End RegistrySecurity.

Lemma read_devices_security_witness :
  let old := Sample.empty_store Z_Stack_1_2 (Some Sample.seed)
               (Sample.secured_only
                  [TCLK_SEED; LEGACY_TCLK_TABLE; LEGACY_APS_LINK_KEY_DATA])
               [0; 0] in
  let new := Sample.empty_store Z_Stack_3_0 (Some Sample.seed)
               (Sample.secured_only [TCLK_SEED]) [0; 0] in
  (version old = Z_Stack_1_2
   /\ secured old ADDRMGR = false /\ secured old APS_LINK_KEY_TABLE = false
   /\ read_devices Sample.legacy_start old <> Raise SecurityError)
  /\ (secured old (key_data_table_id (version old)) = true
      /\ read_unhashed_link_keys Sample.legacy_start old [] = ([], None))
  /\ (version new <> Z_Stack_1_2 /\ secured new TCLK_SEED = true
      /\ read_devices Sample.legacy_start new = Raise SecurityError).
Proof.
  cbv zeta.
  set (old := Sample.empty_store Z_Stack_1_2 (Some Sample.seed)
                (Sample.secured_only
                   [TCLK_SEED; LEGACY_TCLK_TABLE; LEGACY_APS_LINK_KEY_DATA])
                [0; 0]).
  set (new := Sample.empty_store Z_Stack_3_0 (Some Sample.seed)
                (Sample.secured_only [TCLK_SEED]) [0; 0]).
  destruct (read_devices_security Sample.legacy_start old) as (H1 & H2 & _).
  destruct (read_devices_security Sample.legacy_start new) as (_ & _ & H3).
  assert (Hv : version old = Z_Stack_1_2) by reflexivity.
  assert (Ha : secured old ADDRMGR = false) by reflexivity.
  assert (Hl : secured old APS_LINK_KEY_TABLE = false) by reflexivity.
  assert (Hk : secured old (key_data_table_id (version old)) = true)
    by reflexivity.
  assert (Hn : version new <> Z_Stack_1_2) by discriminate.
  assert (Hs : secured new TCLK_SEED = true) by reflexivity.
  split; [|split].
  - split; [exact Hv|]. split; [exact Ha|]. split; [exact Hl|].
    exact (proj2 (proj2 (H1 Hv Ha Hl))).
  - split; [exact Hk | exact (H2 [] Hk)].
  - split; [exact Hn|]. split; [exact Hs | exact (H3 Hn Hs)].
Defined.

(** C6 as stated fails on firmware newer than 1.2: the read of the seed is
    not guarded there, and a refused disclosure stops [read_devices] with
    [SecurityError]. *)
Lemma read_devices_propagates_SecurityError :
  read_devices Sample.legacy_start
    (Sample.empty_store Z_Stack_3_30 (Some Sample.seed)
       (Sample.secured_only [TCLK_SEED]) [0; 0])
  = Raise SecurityError
  /\ read_devices Sample.legacy_start
       (Sample.empty_store Z_Stack_3_0 (Some Sample.seed)
          (Sample.secured_only [TCLK_SEED]) [0; 0])
     = Raise SecurityError.
Proof. split; reflexivity. Qed.

(** ** The tables [write_devices] builds *)

Lemma uint_t_Ok (bits v : Z) : 0 <= v < 2 ^ bits -> uint_t bits v = Ok v.
Proof.
  intros H. unfold uint_t.
  destruct (0 <=? v) eqn:E1; [|apply Z.leb_gt in E1; lia].
  destruct (v <? 2 ^ bits) eqn:E2; [reflexivity|apply Z.ltb_ge in E2; lia].
Qed.

Lemma uint_t_inv (bits v v' : Z) :
  uint_t bits v = Ok v' -> v' = v /\ 0 <= v < 2 ^ bits.
Proof.
  unfold uint_t. destruct (0 <=? v) eqn:E1; simpl; [|discriminate].
  destruct (v <? 2 ^ bits) eqn:E2; [|discriminate].
  intros H; injection H as <-. apply Z.leb_le in E1. apply Z.ltb_lt in E2.
  split; [reflexivity | lia].
Qed.

Lemma find_key_shift_in_range (ieee0 : EUI64) (key : KeyData)
  (seed : option KeyData) (shift : Z) :
  find_key_shift_in ieee0 key seed = Some shift -> 0 <= shift <= 15.
Proof.
  destruct seed as [seed|]; simpl; [|discriminate].
  intros H. apply find_key_shift_Some in H. tauto.
Qed.

Section RegistryBuildFacts.

Variable base : Z.

Lemma build_entry_not_keyed (fw : firmware) (inc : Z) (seed : option KeyData)
  (i : Z) (d : StoredDevice) (acc : tables) :
  keyed d = false -> build_entry base fw inc seed (i, d) acc = Ok acc.
Proof.
  unfold keyed, build_entry. destruct acc as [[h k] l].
  destruct (truthy (aps_link_key d)); [discriminate | reflexivity].
Qed.

Lemma build_entry_hashed (fw : firmware) (inc : Z) (seed : option KeyData)
  (i : Z) (d : StoredDevice) (h : list TCLKDevEntry)
  (k : list APSKeyDataTableEntry) (l : APSLinkKeyTable) (key : KeyData)
  (shift : Z) :
  truthy (aps_link_key d) = Some key ->
  find_key_shift_in (ieee d) key seed = Some shift ->
  counters_ok inc d ->
  exists e, build_entry base fw inc seed (i, d) (h, k, l) = Ok (h ++ [e], k, l)
            /\ hashed_entry_of inc seed d e.
Proof.
  intros Hk Hf (tx & rx & Htx & Hrx & Rtx & Rrx).
  apply find_key_shift_in_range in Hf as Hr.
  unfold build_entry. rewrite Hk, Hf, Htx, Hrx.
  unfold add_counter, new_TCLKDevEntry, counter_field, uint32_t, uint8_t.
  cbn [bind]. rewrite (uint_t_Ok 32 (tx + inc)) by assumption.
  cbn [bind]. rewrite (uint_t_Ok 32 rx) by assumption.
  cbn [bind]. rewrite (uint_t_Ok 8 shift) by lia.
  cbn [bind]. eexists. split; [reflexivity|].
  exists key, shift, tx, rx. repeat (split; [assumption|]). reflexivity.
Qed.

(** The unhashed branch never completes: it ends in the keyword
    construction of an [APSLinkKeyTableEntry] with [LinkKeyNvId]. *)
Lemma build_entry_unhashed (fw : firmware) (inc : Z) (seed : option KeyData)
  (i : Z) (d : StoredDevice) (acc : tables) (key : KeyData) :
  truthy (aps_link_key d) = Some key ->
  find_key_shift_in (ieee d) key seed = None ->
  (exists e, build_entry base fw inc seed (i, d) acc = Raise e)
  /\ (counters_ok inc d ->
      build_entry base fw inc seed (i, d) acc = Raise TypeError).
Proof.
  intros Hk Hf. unfold build_entry. destruct acc as [[h k] l].
  rewrite Hk, Hf. split.
  - destruct (add_counter (tx_counter d) inc) as [tx|e]; cbn [bind];
      [|eauto].
    destruct (new_APSKeyDataTableEntry key tx (rx_counter d)) as [x|e];
      cbn [bind]; [|eauto].
    rewrite APSLinkKeyTableEntry_LinkKeyNvId. cbn [bind]. eauto.
  - intros (tx & rx & Htx & Hrx & Rtx & Rrx). rewrite Htx, Hrx.
    unfold add_counter, new_APSKeyDataTableEntry, counter_field, uint32_t.
    cbn [bind]. rewrite (uint_t_Ok 32 (tx + inc)) by assumption.
    cbn [bind]. rewrite (uint_t_Ok 32 rx) by assumption.
    cbn [bind]. rewrite APSLinkKeyTableEntry_LinkKeyNvId. reflexivity.
Qed.

(** What one step of the loop adds when it completes. *)
Lemma build_entry_Ok (fw : firmware) (inc : Z) (seed : option KeyData)
  (i : Z) (d : StoredDevice) (h h' : list TCLKDevEntry)
  (k k' : list APSKeyDataTableEntry) (l l' : APSLinkKeyTable) :
  build_entry base fw inc seed (i, d) (h, k, l) = Ok (h', k', l') ->
  k' = k /\ l' = l
  /\ ((keyed d = false /\ h' = h)
      \/ (keyed d = true
          /\ exists e, h' = h ++ [e] /\ hashed_entry_of inc seed d e)).
Proof.
  unfold build_entry, keyed.
  destruct (truthy (aps_link_key d)) as [key|] eqn:Hk.
  - destruct (find_key_shift_in (ieee d) key seed) as [shift|] eqn:Hf.
    + unfold add_counter, new_TCLKDevEntry, counter_field, uint32_t, uint8_t.
      destruct (tx_counter d) as [tx|] eqn:Htx; cbn [bind]; [|discriminate].
      destruct (uint_t 32 (tx + inc)) as [tx'|] eqn:E1; cbn [bind];
        [|discriminate].
      destruct (rx_counter d) as [rx|] eqn:Hrx; cbn [bind]; [|discriminate].
      destruct (uint_t 32 rx) as [rx'|] eqn:E2; cbn [bind]; [|discriminate].
      destruct (uint_t 8 shift) as [shift'|] eqn:E3; cbn [bind];
        [|discriminate].
      apply uint_t_inv in E1 as [-> R1]. apply uint_t_inv in E2 as [-> R2].
      apply uint_t_inv in E3 as [-> R3].
      intros H; injection H as <- <- <-.
      split; [reflexivity|]. split; [reflexivity|]. right.
      split; [reflexivity|]. eexists. split; [reflexivity|].
      exists key, shift, tx, rx. repeat (split; [assumption|]). reflexivity.
    + intros H.
      destruct (build_entry_unhashed fw inc seed i d (h, k, l) key Hk Hf)
        as [[e He] _].
      unfold build_entry in He. rewrite Hk, Hf in He. congruence.
  - intros H; injection H as <- <- <-. auto.
Qed.

Lemma build_loop_Ok (fw : firmware) (inc : Z) (seed : option KeyData)
  (ds : list StoredDevice) (n : Z) (h h' : list TCLKDevEntry)
  (k k' : list APSKeyDataTableEntry) (l l' : APSLinkKeyTable) :
  for_each (build_entry base fw inc seed) (enumerate_from n ds) (h, k, l)
  = Ok (h', k', l') ->
  k' = k /\ l' = l
  /\ exists h1, h' = h ++ h1
                /\ Forall2 (hashed_entry_of inc seed) (filter keyed ds) h1.
Proof.
  revert n h; induction ds as [|d ds IH]; intros n h; simpl.
  - intros H; injection H as <- <- <-. split; [reflexivity|].
    split; [reflexivity|]. exists []. rewrite app_nil_r.
    split; [reflexivity | constructor].
  - intros H. apply bind_Ok in H as ([[h1 k1] l1] & Hd & H).
    apply (build_entry_Ok fw inc seed n d) in Hd as (-> & -> & Hd).
    apply (IH (n + 1)) in H as (-> & -> & h2 & -> & HF).
    split; [reflexivity|]. split; [reflexivity|].
    destruct Hd as [[Hk ->]|[Hk (e & -> & He)]]; rewrite Hk.
    + exists h2. split; [reflexivity | exact HF].
    + exists (e :: h2). rewrite <- app_assoc. split; [reflexivity|].
      constructor; assumption.
Qed.

Lemma build_tables_Ok (fw : firmware) (inc : Z) (seed : option KeyData)
  (ds : list StoredDevice) (h : list TCLKDevEntry)
  (k : list APSKeyDataTableEntry) (l : APSLinkKeyTable) :
  build_tables base fw ds inc seed = Ok (h, k, l) ->
  k = [] /\ l = []
  /\ Forall2 (hashed_entry_of inc seed) (filter keyed ds) h.
Proof.
  unfold build_tables, enumerate. intros H.
  apply build_loop_Ok in H as (-> & -> & h1 & -> & HF). auto.
Qed.

Lemma build_loop_unhashed (fw : firmware) (inc : Z) (seed : option KeyData)
  (ds : list StoredDevice) (d : StoredDevice) (key : KeyData) :
  In d ds -> truthy (aps_link_key d) = Some key ->
  find_key_shift_in (ieee d) key seed = None ->
  forall n acc,
    (exists e,
        for_each (build_entry base fw inc seed) (enumerate_from n ds) acc
        = Raise e)
    /\ ((forall d', In d' ds -> keyed d' = true -> counters_ok inc d') ->
        for_each (build_entry base fw inc seed) (enumerate_from n ds) acc
        = Raise TypeError).
Proof.
  intros Hin Hk Hf. induction ds as [|x ds IH]; [destruct Hin|].
  intros n acc. cbn [for_each enumerate_from].
  destruct Hin as [->|Hin].
  - destruct (build_entry_unhashed fw inc seed n d acc key Hk Hf)
      as [[e He] HT].
    split.
    + rewrite He. cbn [bind]. eauto.
    + intros Hc. rewrite HT; [reflexivity|]. apply Hc; [left; reflexivity|].
      unfold keyed. rewrite Hk. reflexivity.
  - split.
    + destruct (build_entry base fw inc seed (n, x) acc) as [acc'|e];
        cbn [bind]; [|eauto].
      apply (IH Hin).
    + intros Hc. destruct acc as [[h k] l].
      destruct (truthy (aps_link_key x)) as [kx|] eqn:Hkx.
      * assert (Cx : counters_ok inc x).
        { apply Hc; [left; reflexivity|]. unfold keyed. rewrite Hkx.
          reflexivity. }
        destruct (find_key_shift_in (ieee x) kx seed) as [sx|] eqn:Hfx.
        -- destruct (build_entry_hashed fw inc seed n x h k l kx sx Hkx Hfx Cx)
             as (e & -> & _).
           cbn [bind]. apply (IH Hin). intros d' Hd'. apply Hc.
           right; assumption.
        -- destruct (build_entry_unhashed fw inc seed n x (h, k, l) kx Hkx Hfx)
             as [_ HT].
           rewrite (HT Cx). reflexivity.
      * rewrite build_entry_not_keyed by (unfold keyed; rewrite Hkx; reflexivity).
        cbn [bind]. apply (IH Hin). intros d' Hd'. apply Hc.
        right; assumption.
Qed.

End RegistryBuildFacts.

(** ** The commit phase: what is written, and in which order *)

Lemma same_frame_refl (s : session) : same_frame s s.
Proof. repeat split. Qed.

Lemma same_frame_trans (s1 s2 s3 : session) :
  same_frame s1 s2 -> same_frame s2 s3 -> same_frame s1 s3.
Proof.
  intros (A1 & A2 & A3) (B1 & B2 & B3).
  repeat split; congruence.
Qed.

Lemma seq_stmt_Ok {A B} (c : stmt A) (k : A -> stmt B) (s s' : session)
  (b : B) :
  seq_stmt c k s = (Ok b, s') ->
  exists a s1, c s = (Ok a, s1) /\ k a s1 = (Ok b, s').
Proof.
  unfold seq_stmt. destruct (c s) as [[a|e] s1]; [eauto | discriminate].
Qed.

Lemma atomic_osal_write (fw : firmware) (item : nvid)
  (set : nvram -> nvram) :
  (forall nv, version (set nv) = version nv /\ secured (set nv) = secured nv
              /\ tclk_seed (set nv) = tclk_seed nv) ->
  atomic fw item (osal_write item set).
Proof.
  intros Hset s r s' _ H. unfold osal_write in H. injection H as <- <-.
  left. split; [reflexivity|]. split; [reflexivity|]. apply Hset.
Qed.

Lemma atomic_write_table {A} (fw : firmware) (item : nvid)
  (get : nvram -> list A) (set : list A -> nvram -> nvram) (values : list A)
  (fill : A) :
  (forall v nv, version (set v nv) = version nv
                /\ secured (set v nv) = secured nv
                /\ tclk_seed (set v nv) = tclk_seed nv) ->
  atomic fw item (write_table item get set values fill).
Proof.
  intros Hset s r s' _ H. unfold write_table in H.
  destruct (length (get (store s)) <? length values)%nat.
  - injection H as <- <-. right. eauto.
  - injection H as <- <-. left. split; [reflexivity|].
    split; [reflexivity|]. apply Hset.
Qed.

Lemma atomic_write_addr_manager_entries (fw : firmware)
  (ds : list StoredDevice) :
  atomic fw (addr_table_id fw) (write_addr_manager_entries ds).
Proof.
  intros s r s' Hv. unfold write_addr_manager_entries, addr_table_id.
  rewrite Hv. destruct (version_number fw >=? 330).
  - intros H. eapply atomic_write_table; [|exact Hv|exact H].
    intros v nv. repeat split.
  - unfold seq_stmt, reading.
    destruct (osal_read ADDRMGR addrmgr (store s)) as [old|e];
      [|intros H; injection H as <- <-; right; eauto].
    destruct (for_each _ _ _) as [new|e];
      [|intros H; injection H as <- <-; right; eauto].
    intros H. eapply atomic_osal_write; [|exact Hv|exact H].
    intros nv. repeat split.
Qed.

Lemma traced_atomic (fw : firmware) (item : nvid) (c : stmt unit) :
  atomic fw item c -> traced fw [item] c.
Proof.
  intros Hc s r s' Hv H.
  destruct (Hc s r s' Hv H) as [(-> & Hw & Hf)|(e & -> & ->)].
  - split; [exact Hf|]. exists [item]. split; [exact Hw|].
    split; [exists []; reflexivity|]. split; [reflexivity | discriminate].
  - split; [apply same_frame_refl|]. exists []. split;
      [symmetry; apply app_nil_r|].
    split; [exists [item]; reflexivity|]. split; [discriminate | reflexivity].
Qed.

Lemma traced_seq (fw : firmware) (item : nvid) (items : list nvid)
  (c k : stmt unit) :
  atomic fw item c -> traced fw items k ->
  traced fw (item :: items) (seq_stmt c (fun _ => k)).
Proof.
  intros Hc Hk s r s' Hv H. unfold seq_stmt in H.
  destruct (c s) as [[[]|e] s1] eqn:E.
  - destruct (Hc s _ _ Hv E) as [(_ & Hw & Hf)|(e & He & _)]; [|discriminate].
    assert (Hv1 : version (store s1) = fw) by (destruct Hf; congruence).
    destruct (Hk s1 r s' Hv1 H) as (Hf' & done & Hw' & [rest Hp] & Hok & _).
    split; [eapply same_frame_trans; eassumption|].
    exists (item :: done). split; [rewrite Hw', Hw, <- app_assoc; reflexivity|].
    split; [exists rest; simpl; rewrite Hp; reflexivity|].
    split; [intros Hr; rewrite (Hok Hr); reflexivity | discriminate].
  - injection H as <- <-.
    destruct (Hc s _ _ Hv E) as [(Hr & _)|(e' & _ & ->)]; [discriminate|].
    split; [apply same_frame_refl|]. exists []. split;
      [symmetry; apply app_nil_r|].
    split; [exists (item :: items); reflexivity|].
    split; [discriminate | reflexivity].
Qed.

Lemma traced_commit_tables (fw : firmware) (ds : list StoredDevice)
  (t : tables) (value : bytes) :
  traced fw (commit_order fw) (commit_tables ds t value).
Proof.
  intros s r s' Hv. unfold commit_tables. destruct t as [[h k] l].
  unfold commit_order, tclk_table_id, key_data_table_id. rewrite Hv.
  destruct (version_number fw >? 300).
  - intros H.
    refine (traced_seq fw _ _ _ _ (atomic_write_addr_manager_entries fw ds)
              _ s r s' Hv H).
    apply traced_seq;
      [apply atomic_osal_write; intros nv; repeat split|].
    apply traced_seq;
      [apply atomic_write_table; intros v nv; repeat split|].
    apply traced_atomic.
    apply atomic_write_table; intros v nv; repeat split.
  - intros H.
    refine (traced_seq fw _ _ _ _ (atomic_write_addr_manager_entries fw ds)
              _ s r s' Hv H).
    apply traced_seq;
      [apply atomic_osal_write; intros nv; repeat split|].
    apply traced_seq;
      [apply atomic_write_table; intros v nv; repeat split|].
    apply traced_atomic.
    apply atomic_write_table; intros v nv; repeat split.
Qed.

(** ** [write_devices], phase by phase *)

Lemma setitem_at {A} (pre rest : list A) (y x : A) :
  setitem (pre ++ y :: rest) (length pre) x = Ok (pre ++ x :: rest).
Proof.
  induction pre as [|p pre IH]; simpl; [reflexivity|].
  rewrite IH. reflexivity.
Qed.

Lemma setitem_end {A} (pre : list A) (x : A) :
  setitem pre (length pre) x = Raise IndexError.
Proof.
  induction pre as [|p pre IH]; simpl; [reflexivity|].
  rewrite IH. reflexivity.
Qed.

(** Lines 318-321: the entries overwrite the head of the array of empty
    entries, if they fit. *)
Lemma setitem_loop {A} (fill : A) (es pre : list A) (m : nat) :
  for_each (fun ie new_entries =>
              setitem new_entries (Z.to_nat (fst ie)) (snd ie))
    (enumerate_from (Z.of_nat (length pre)) es) (pre ++ repeat fill m)
  = if (length es <=? m)%nat
    then Ok (pre ++ es ++ repeat fill (m - length es))
    else Raise IndexError.
Proof.
  revert pre m; induction es as [|x es IH]; intros pre m; simpl.
  - rewrite Nat.sub_0_r. reflexivity.
  - rewrite Nat2Z.id. destruct m as [|m]; simpl.
    + rewrite app_nil_r, setitem_end. reflexivity.
    + rewrite setitem_at. simpl.
      replace (Z.of_nat (length pre) + 1)
        with (Z.of_nat (length (pre ++ [x])))
        by (rewrite length_app; simpl; lia).
      replace (pre ++ x :: repeat fill m) with ((pre ++ [x]) ++ repeat fill m)
        by (rewrite <- app_assoc; reflexivity).
      rewrite IH. rewrite <- app_assoc. reflexivity.
Qed.

Lemma write_table_Ok {A} (item : nvid) (get : nvram -> list A)
  (set : list A -> nvram -> nvram) (values : list A) (fill : A)
  (s s' : session) :
  write_table item get set values fill s = (Ok tt, s') ->
  (length values <= length (get (store s)))%nat
  /\ s' = {| store := set (pad values fill (length (get (store s)))) (store s);
             written := written s ++ [item] |}.
Proof.
  unfold write_table, pad.
  destruct (length (get (store s)) <? length values)%nat eqn:E;
    [discriminate|].
  apply Nat.ltb_ge in E. intros H; injection H as <-. auto.
Qed.

Lemma write_addr_manager_entries_Ok (ds : list StoredDevice) (s s' : session) :
  write_addr_manager_entries ds s = (Ok tt, s') ->
  exists old,
    addr_table (store s) = Some old
    /\ (length ds <= length old)%nat
    /\ s' = {| store :=
                 (if version_number (version (store s)) >=? 330
                  then set_ex_addrmgr else set_addrmgr)
                   (pad (map addr_mgr_entry_of ds) EMPTY_ADDR_MGR_ENTRY
                      (length old))
                   (store s);
               written := written s ++ [addr_table_id (version (store s))] |}.
Proof.
  unfold write_addr_manager_entries, addr_table, addr_table_id.
  destruct (version_number (version (store s)) >=? 330).
  - intros H. apply write_table_Ok in H as [Hl ->].
    exists (ex_addrmgr (store s)). rewrite length_map in Hl. auto.
  - unfold seq_stmt, reading, osal_read.
    destruct (secured (store s) ADDRMGR); [discriminate|].
    destruct (addrmgr (store s)) as [old|]; [|discriminate].
    unfold enumerate.
    pose proof (setitem_loop EMPTY_ADDR_MGR_ENTRY (map addr_mgr_entry_of ds)
                  [] (length old)) as HL.
    simpl in HL. rewrite HL. clear HL. rewrite length_map.
    destruct (length ds <=? length old)%nat eqn:E; [|discriminate].
    apply Nat.leb_le in E. unfold osal_write. intros H; injection H as <-.
    exists old. unfold pad. rewrite length_map. auto.
Qed.

Section WriteDevicesFacts.

Variable base : Z.

(** Lines 337-397 come first and write nothing; lines 399-445 follow. *)
Lemma write_devices_phases (ds : list StoredDevice) (inc : Z)
  (sarg : option KeyData) (s : session) :
  write_devices base ds inc sarg s
  = match build_tables base (version (store s)) ds inc
            (choose_seed sarg (ieees_and_keys_of ds)) with
    | Raise e => (Raise e, s)
    | Ok t =>
        match osal_read APS_LINK_KEY_TABLE aps_link_key_table (store s) with
        | Raise e => (Raise e, s)
        | Ok old =>
            match APSLinkKeyTable_serialize (snd t) with
            | Raise e => (Raise e, s)
            | Ok serialized =>
                if (length old <? length serialized)%nat
                then (Raise link_key_table_too_large, s)
                else commit_tables ds t (ljust serialized (length old)) s
            end
        end
    end.
Proof.
  unfold write_devices, seq_stmt, reading, raise.
  destruct (build_tables _ _ _ _ _) as [t|e]; [|reflexivity].
  destruct (osal_read _ _ _) as [old|e]; [|reflexivity].
  destruct (APSLinkKeyTable_serialize (snd t)) as [ser|e]; [|reflexivity].
  destruct (length old <? length ser)%nat; reflexivity.
Qed.

Lemma write_devices_trace (ds : list StoredDevice) (inc : Z)
  (sarg : option KeyData) (s : session) (r : result unit) (s' : session) :
  write_devices base ds inc sarg s = (r, s') ->
  same_frame s s'
  /\ exists done,
       written s' = written s ++ done
       /\ prefix_of done (commit_order (version (store s)))
       /\ (r = Ok tt -> done = commit_order (version (store s)))
       /\ (done = [] -> s' = s).
Proof.
  rewrite write_devices_phases.
  assert (Hnone : forall e,
             (Raise e, s) = (r, s') ->
             same_frame s s'
             /\ exists done,
                  written s' = written s ++ done
                  /\ prefix_of done (commit_order (version (store s)))
                  /\ (r = Ok tt -> done = commit_order (version (store s)))
                  /\ (done = [] -> s' = s)).
  { intros e H; injection H as <- <-. split; [apply same_frame_refl|].
    exists []. split; [symmetry; apply app_nil_r|].
    split; [eexists; reflexivity|]. split; [discriminate | reflexivity]. }
  destruct (build_tables _ _ _ _ _) as [t|e]; [|apply Hnone].
  destruct (osal_read _ _ _) as [old|e]; [|apply Hnone].
  destruct (APSLinkKeyTable_serialize (snd t)) as [ser|e]; [|apply Hnone].
  destruct (length old <? length ser)%nat; [apply Hnone|].
  apply traced_commit_tables. reflexivity.
Qed.

Lemma commit_tables_Ok (ds : list StoredDevice) (h : list TCLKDevEntry)
  (k : list APSKeyDataTableEntry) (l : APSLinkKeyTable) (value : bytes)
  (s s' : session) :
  commit_tables ds (h, k, l) value s = (Ok tt, s') ->
  exists old,
    addr_table (store s) = Some old
    /\ (length ds <= length old)%nat
    /\ (length h <= length (tclk_table (store s)))%nat
    /\ (length k <= length (key_data_table (store s)))%nat
    /\ addr_table (store s')
       = Some (pad (map addr_mgr_entry_of ds) EMPTY_ADDR_MGR_ENTRY
                 (length old))
    /\ aps_link_key_table (store s') = Some value
    /\ tclk_table (store s')
       = pad h tclk_fill_value (length (tclk_table (store s)))
    /\ key_data_table (store s')
       = pad k aps_key_data_fill_value (length (key_data_table (store s))).
Proof.
  unfold commit_tables. intros H.
  apply seq_stmt_Ok in H as ([] & s1 & H1 & H).
  apply seq_stmt_Ok in H as ([] & s2 & H2 & H).
  apply write_addr_manager_entries_Ok in H1 as (old & Hold & Hlen & ->).
  unfold osal_write in H2. injection H2 as <-.
  exists old. split; [exact Hold|]. split; [exact Hlen|].
  unfold addr_table, tclk_table, key_data_table in *.
  destruct (version (store s)) eqn:Hv; simpl in *;
    apply seq_stmt_Ok in H as ([] & s3 & H3 & H4);
    apply write_table_Ok in H3 as [L3 ->];
    apply write_table_Ok in H4 as [L4 ->];
    simpl in *; rewrite ?Hv; simpl; auto 10.
Qed.

End WriteDevicesFacts.

Lemma commit_order_no_seed (fw : firmware) : ~ In TCLK_SEED (commit_order fw).
Proof. destruct fw; simpl; intuition discriminate. Qed.

Lemma prefix_of_In {A} (l1 l2 : list A) (x : A) :
  prefix_of l1 l2 -> In x l1 -> In x l2.
Proof. intros [l <-] H. apply in_or_app. left; exact H. Qed.

Lemma ljust_length (b : bytes) (width : nat) :
  (length b <= width)%nat -> length (ljust b width) = width.
Proof. intros H. unfold ljust. rewrite length_app, repeat_length. lia. Qed.

(** The commit phase leaves the indirection table as it was or sets it to
    the value it was given. *)
Lemma commit_tables_link_key_table (ds : list StoredDevice) (t : tables)
  (value : bytes) (s : session) (r : result unit) (s' : session) :
  commit_tables ds t value s = (r, s') ->
  aps_link_key_table (store s') = aps_link_key_table (store s)
  \/ aps_link_key_table (store s') = Some value.
Proof.
  unfold commit_tables, seq_stmt, write_addr_manager_entries, write_table,
    osal_write, reading, seq_stmt, osal_read.
  destruct t as [[h k] l].
  destruct (version_number (version (store s)) >=? 330);
    destruct (version_number (version (store s)) >? 300);
    repeat match goal with
           | |- context [if ?c then _ else _] => destruct c
           | |- context [match ?c with Some _ => _ | None => _ end] =>
               destruct c
           | |- context [match for_each ?f ?xs ?a with _ => _ end] =>
               destruct (for_each f xs a)
           | |- context [match ?c with Ok _ => _ | Raise _ => _ end] =>
               destruct c
           end;
    simpl; intros H; injection H as <- <-; simpl; auto.
Qed.

Section WriteDevicesClaims.

Variable base : Z.

(** C5.  When the indirection table built from the devices serializes to
    more bytes than the stored table holds, [write_devices] raises its
    capacity error (the [RuntimeError] of line 397) and the session is as
    before: nothing is written.  The capacity is the length of the stored
    table, read from the device, and whatever [write_devices] does, the
    stored table keeps that length. *)
Theorem write_devices_capacity (ds : list StoredDevice) (inc : Z)
  (sarg : option KeyData) (s : session) (t : tables) (old serialized : bytes) :
  build_tables base (version (store s)) ds inc
    (choose_seed sarg (ieees_and_keys_of ds)) = Ok t ->
  osal_read APS_LINK_KEY_TABLE aps_link_key_table (store s) = Ok old ->
  APSLinkKeyTable_serialize (snd t) = Ok serialized ->
  ((length old < length serialized)%nat ->
   write_devices base ds inc sarg s = (Raise link_key_table_too_large, s))
  /\ forall r s',
       write_devices base ds inc sarg s = (r, s') ->
       exists new, aps_link_key_table (store s') = Some new
                   /\ length new = length old.
Proof.
  intros Hb Ho Hs.
  assert (Hold : aps_link_key_table (store s) = Some old).
  { unfold osal_read in Ho.
    destruct (secured (store s) APS_LINK_KEY_TABLE); [discriminate|].
    destruct (aps_link_key_table (store s)); congruence. }
  split.
  - intros Hlt. rewrite write_devices_phases, Hb, Ho, Hs.
    apply Nat.ltb_lt in Hlt. rewrite Hlt. reflexivity.
  - intros r s'. rewrite write_devices_phases, Hb, Ho, Hs.
    destruct (length old <? length serialized)%nat eqn:E.
    + intros H; injection H as <- <-. eauto.
    + apply Nat.ltb_ge in E. intros H.
      apply commit_tables_link_key_table in H as [H|H]; rewrite H.
      * eauto.
      * eexists. split; [reflexivity|]. apply ljust_length, E.
Qed.

(** C8.  In every execution of [write_devices] nothing is written unless
    the tables were built, the items written are, in order, a prefix of
    address table, indirection table, hashed-key table, raw-key table, and
    a run that completes writes all four, each table holding the built
    values followed by its fill record (zero bytes for the indirection
    table) up to the capacity it had. *)
Theorem write_devices_build_then_commit (ds : list StoredDevice) (inc : Z)
  (sarg : option KeyData) (s : session) (r : result unit) (s' : session) :
  write_devices base ds inc sarg s = (r, s') ->
  let built := build_tables base (version (store s)) ds inc
                 (choose_seed sarg (ieees_and_keys_of ds)) in
  (forall e, built = Raise e -> r = Raise e /\ s' = s)
  /\ (exists done,
         written s' = written s ++ done
         /\ prefix_of done (commit_order (version (store s)))
         /\ (done <> [] -> exists t, built = Ok t)
         /\ (done = [] -> s' = s))
  /\ (r = Ok tt ->
      exists h k l old_a old serialized,
        built = Ok (h, k, l)
        /\ written s' = written s ++ commit_order (version (store s))
        /\ addr_table (store s) = Some old_a
        /\ aps_link_key_table (store s) = Some old
        /\ APSLinkKeyTable_serialize l = Ok serialized
        /\ addr_table (store s')
           = Some (pad (map addr_mgr_entry_of ds) EMPTY_ADDR_MGR_ENTRY
                     (length old_a))
        /\ aps_link_key_table (store s') = Some (pad serialized 0 (length old))
        /\ tclk_table (store s')
           = pad h tclk_fill_value (length (tclk_table (store s)))
        /\ key_data_table (store s')
           = pad k aps_key_data_fill_value
               (length (key_data_table (store s)))).
Proof.
  intros H built.
  destruct (write_devices_trace base ds inc sarg s r s' H)
    as (_ & done & Hw & Hp & Hok & Hnone).
  rewrite write_devices_phases in H. fold built in H.
  split; [|split].
  - intros e He. rewrite He in H. injection H as <- <-. auto.
  - exists done. split; [exact Hw|]. split; [exact Hp|].
    split; [|exact Hnone].
    intros Hd. destruct built as [t|e]; [eauto|].
    injection H as <- <-. exfalso. apply Hd.
    apply (app_inv_head (written s)). rewrite app_nil_r. symmetry. exact Hw.
  - intros ->. destruct built as [[[h k] l]|e]; [|discriminate].
    unfold osal_read in H.
    destruct (secured (store s) APS_LINK_KEY_TABLE); [discriminate|].
    destruct (aps_link_key_table (store s)) as [old|] eqn:Eold;
      [|discriminate].
    simpl snd in H.
    destruct (APSLinkKeyTable_serialize l) as [ser|e] eqn:Eser;
      [|discriminate].
    destruct (length old <? length ser)%nat; [discriminate|].
    apply commit_tables_Ok in H
      as (old_a & Ha & _ & _ & _ & Ha' & Hl' & Ht' & Hk').
    exists h, k, l, old_a, old, ser.
    split; [reflexivity|]. split; [rewrite Hw, (Hok eq_refl); reflexivity|].
    split; [exact Ha|]. split; [reflexivity|]. split; [exact Eser|].
    split; [exact Ha'|]. split; [exact Hl'|]. split; [exact Ht' | exact Hk'].
Qed.

(** C10.  [write_devices] never writes the shared TCLK seed: the stored
    seed is the same afterwards, and every item written is one of the
    address table, the indirection table, the hashed-key table and the
    raw-key table. *)
Theorem write_devices_keeps_seed (ds : list StoredDevice) (inc : Z)
  (sarg : option KeyData) (s : session) (r : result unit) (s' : session) :
  write_devices base ds inc sarg s = (r, s') ->
  tclk_seed (store s') = tclk_seed (store s)
  /\ exists done,
       written s' = written s ++ done
       /\ (forall i, In i done -> In i (commit_order (version (store s))))
       /\ ~ In TCLK_SEED done.
Proof.
  intros H.
  destruct (write_devices_trace base ds inc sarg s r s' H)
    as ((_ & _ & Hseed) & done & Hw & Hp & _).
  split; [exact Hseed|]. exists done. split; [exact Hw|].
  split.
  - intros i. apply prefix_of_In, Hp.
  - intros Hin. apply (commit_order_no_seed (version (store s))).
    eapply prefix_of_In; eassumption.
Qed.

(** C9.  [APSLinkKeyTableEntry] declares [AddressManagerIndex],
    [LinkKeyTableOffset] and [AuthenticationState].  [write_devices] on a
    device whose key derives from no shift of the chosen seed raises and
    writes nothing: the keyword [LinkKeyNvId] names no field
    ([TypeError], when the counters of the keyed devices are in range).
    [read_unhashed_link_keys], once it has the raw-key table and an
    indirection table with an entry marked [AuthenticatedCBCK], yields
    nothing and raises [AttributeError] on [entry.LinkKeyNvId], and
    [read_devices] raises. *)
Theorem LinkKeyNvId_is_no_field :
  (forall ds inc sarg s d key,
      In d ds -> truthy (aps_link_key d) = Some key ->
      find_key_shift_in (ieee d) key
        (choose_seed sarg (ieees_and_keys_of ds)) = None ->
      (exists e, write_devices base ds inc sarg s = (Raise e, s))
      /\ ((forall d', In d' ds -> keyed d' = true -> counters_ok inc d') ->
          write_devices base ds inc sarg s = (Raise TypeError, s)))
  /\ (forall nv am raw es rest e state,
        secured nv (key_data_table_id (version nv)) = false ->
        osal_read APS_LINK_KEY_TABLE aps_link_key_table nv = Ok raw ->
        APSLinkKeyTable_deserialize raw = Ok (es, rest) ->
        In e es ->
        getattr_int e "AuthenticationState" = Ok state ->
        Z.land state AuthenticationOption.AuthenticatedCBCK <> 0 ->
        read_unhashed_link_keys base nv am = ([], Some AttributeError)
        /\ exists x, read_devices base nv = Raise x).
Proof.
  split.
  - intros ds inc sarg s d key Hin Hk Hf.
    destruct (build_loop_unhashed base (version (store s)) inc _ ds d key
                Hin Hk Hf 0 ([], [], [])) as [[e He] HT].
    fold (enumerate ds) in He, HT.
    fold (build_tables base (version (store s)) ds inc
            (choose_seed sarg (ieees_and_keys_of ds))) in He, HT.
    split.
    + exists e. rewrite write_devices_phases, He. reflexivity.
    + intros Hc. rewrite write_devices_phases, (HT Hc). reflexivity.
  - intros nv am raw es rest e state Hsec Hraw Hdes Hin Hst Hcbck.
    assert (G : forall am',
               read_unhashed_link_keys base nv am'
               = ([], Some AttributeError)).
    { intros am'. unfold read_unhashed_link_keys.
      unfold key_data_table_id in Hsec. unfold read_table.
      assert (Hy : forall b table,
                 yield_from (unhashed_link_key_item b table am') es
                 = ([], Some AttributeError)).
      { intros b table.
        pose proof (deserialize_table_declared _ _ _ Hdes) as Hdecl.
        destruct (yield_unhashed_declared b table am' es Hdecl)
          as [[_ Hall]|[Hy _]]; [|exact Hy].
        exfalso. specialize (Hall e Hin).
        rewrite Forall_forall in Hdecl.
        destruct (unhashed_link_key_item_declared b table am' e
                    (Hdecl e Hin))
          as [[_ (a & Ha & Hz)]|[Hr _]]; congruence. }
      destruct (version nv); simpl in *; rewrite Hsec, Hraw; simpl;
        rewrite Hdes; apply Hy. }
    split; [apply G|].
    unfold read_devices.
    destruct (read_tclk_seed nv) as [seed|x]; simpl; [|eauto].
    destruct (read_addr_mgr_entries nv) as [am0|x]; simpl; [|eauto].
    destruct (for_each new_device am0 []) as [d1|x]; simpl; [|eauto].
    destruct (for_generator (read_hashed_link_keys nv seed)
                (attach_hashed seed) d1) as [d2|x]; simpl; [|eauto].
    unfold for_generator. rewrite G. simpl. eauto.
Qed.

End WriteDevicesClaims.

(** ** The write claims on sample stores *)

(** A stored indirection table of one byte cannot hold even the count of
    an empty table. *)
Lemma write_devices_capacity_witness :
  let s := Sample.session_of
             (Sample.empty_store Z_Stack_3_30 (Some Sample.seed)
                Sample.disclosed [7]) in
  exists t,
    build_tables Sample.legacy_start (version (store s))
      Sample.hashed_devices default_counter_increment
      (choose_seed None (ieees_and_keys_of Sample.hashed_devices)) = Ok t
    /\ osal_read APS_LINK_KEY_TABLE aps_link_key_table (store s) = Ok [7]
    /\ APSLinkKeyTable_serialize (snd t) = Ok [0; 0]
    /\ Nat.lt (length ([7] : bytes)) (length ([0; 0] : bytes))
    /\ write_devices Sample.legacy_start Sample.hashed_devices
         default_counter_increment None s
       = (Raise link_key_table_too_large, s).
Proof.
  cbv zeta.
  set (s := Sample.session_of
              (Sample.empty_store Z_Stack_3_30 (Some Sample.seed)
                 Sample.disclosed [7])).
  eexists.
  assert (Hb : build_tables Sample.legacy_start (version (store s))
                 Sample.hashed_devices default_counter_increment
                 (choose_seed None (ieees_and_keys_of Sample.hashed_devices))
               = Ok _) by (vm_compute; reflexivity).
  assert (Ho : osal_read APS_LINK_KEY_TABLE aps_link_key_table (store s)
               = Ok [7]) by reflexivity.
  lazymatch type of Hb with
  | _ = Ok ?t =>
      assert (Hs : APSLinkKeyTable_serialize (snd t) = Ok [0; 0])
        by reflexivity
  end.
  assert (Hl : Nat.lt (length ([7] : bytes)) (length ([0; 0] : bytes)))
    by (simpl; unfold Nat.lt; lia).
  split; [exact Hb|]. split; [exact Ho|]. split; [exact Hs|].
  split; [exact Hl|].
  exact (proj1 (write_devices_capacity Sample.legacy_start _ _ _ _ _ _ _
                  Hb Ho Hs) Hl).
Defined.

Lemma write_devices_build_then_commit_witness :
  let s := Sample.session_of
             (Sample.empty_store Z_Stack_3_0 (Some Sample.seed)
                Sample.disclosed [0; 0; 0; 0; 0; 0; 0]) in
  exists s',
    write_devices Sample.legacy_start Sample.hashed_devices
      default_counter_increment (Some Sample.seed) s = (Ok tt, s')
    /\ exists done,
         written s' = written s ++ done
         /\ prefix_of done (commit_order (version (store s)))
         /\ (done <> [] ->
             exists t,
               build_tables Sample.legacy_start (version (store s))
                 Sample.hashed_devices default_counter_increment
                 (choose_seed (Some Sample.seed)
                    (ieees_and_keys_of Sample.hashed_devices)) = Ok t)
         /\ (done = [] -> s' = s).
Proof.
  cbv zeta.
  set (s := Sample.session_of
              (Sample.empty_store Z_Stack_3_0 (Some Sample.seed)
                 Sample.disclosed [0; 0; 0; 0; 0; 0; 0])).
  eexists.
  assert (H : write_devices Sample.legacy_start Sample.hashed_devices
                default_counter_increment (Some Sample.seed) s
              = (Ok tt, _)) by (vm_compute; reflexivity).
  split; [exact H|].
  exact (proj1 (proj2 (write_devices_build_then_commit Sample.legacy_start
                         _ _ _ _ _ _ H))).
Defined.

Lemma write_devices_keeps_seed_witness :
  let s := Sample.session_of
             (Sample.empty_store Z_Stack_3_30 (Some (repeat 0 16%nat))
                Sample.disclosed [0; 0; 0; 0; 0; 0; 0]) in
  exists s',
    write_devices Sample.legacy_start Sample.hashed_devices
      default_counter_increment None s = (Ok tt, s')
    /\ tclk_seed (store s') = tclk_seed (store s)
    /\ exists done,
         written s' = written s ++ done
         /\ (forall i, In i done -> In i (commit_order (version (store s))))
         /\ ~ In TCLK_SEED done.
Proof.
  cbv zeta.
  set (s := Sample.session_of
              (Sample.empty_store Z_Stack_3_30 (Some (repeat 0 16%nat))
                 Sample.disclosed [0; 0; 0; 0; 0; 0; 0])).
  eexists.
  assert (H : write_devices Sample.legacy_start Sample.hashed_devices
                default_counter_increment None s
              = (Ok tt, _)) by (vm_compute; reflexivity).
  split; [exact H|].
  exact (write_devices_keeps_seed Sample.legacy_start _ _ _ _ _ _ H).
Defined.

Lemma LinkKeyNvId_is_no_field_witness :
  let ds := Sample.hashed_devices ++ [Sample.unhashed_device] in
  let s := Sample.session_of
             (Sample.empty_store Z_Stack_3_30 (Some Sample.seed)
                Sample.disclosed [0; 0; 0; 0; 0; 0; 0]) in
  let nv := Sample.store_with_unhashed_key Z_Stack_3_30 in
  (In Sample.unhashed_device ds
   /\ find_key_shift_in (ieee Sample.unhashed_device)
        [9; 9; 9; 9; 9; 9; 9; 9; 9; 9; 9; 9; 9; 9; 9; 200]
        (choose_seed (Some Sample.seed) (ieees_and_keys_of ds)) = None
   /\ write_devices Sample.legacy_start ds default_counter_increment
        (Some Sample.seed) s = (Raise TypeError, s))
  /\ (secured nv (key_data_table_id (version nv)) = false
      /\ osal_read APS_LINK_KEY_TABLE aps_link_key_table nv
         = Ok [1; 0; 0; 0; 0; 0; 1]
      /\ read_unhashed_link_keys Sample.legacy_start nv []
         = ([], Some AttributeError)).
Proof.
  cbv zeta.
  set (ds := Sample.hashed_devices ++ [Sample.unhashed_device]).
  set (s := Sample.session_of
              (Sample.empty_store Z_Stack_3_30 (Some Sample.seed)
                 Sample.disclosed [0; 0; 0; 0; 0; 0; 0])).
  set (nv := Sample.store_with_unhashed_key Z_Stack_3_30).
  destruct (LinkKeyNvId_is_no_field Sample.legacy_start) as [Hw Hr].
  assert (Hin : In Sample.unhashed_device ds)
    by (right; right; left; reflexivity).
  assert (Hk : truthy (aps_link_key Sample.unhashed_device)
               = Some [9; 9; 9; 9; 9; 9; 9; 9; 9; 9; 9; 9; 9; 9; 9; 200])
    by reflexivity.
  assert (Hf : find_key_shift_in (ieee Sample.unhashed_device)
                 [9; 9; 9; 9; 9; 9; 9; 9; 9; 9; 9; 9; 9; 9; 9; 200]
                 (choose_seed (Some Sample.seed) (ieees_and_keys_of ds))
               = None) by (vm_compute; reflexivity).
  assert (Hc : forall d', In d' ds -> keyed d' = true ->
                          counters_ok default_counter_increment d').
  { intros d' [<-|[<-|[<-|[]]]] _; unfold counters_ok; simpl;
      eexists; eexists; (split; [reflexivity|]); (split; [reflexivity|]);
      unfold default_counter_increment; lia. }
  assert (Hsec : secured nv (key_data_table_id (version nv)) = false)
    by reflexivity.
  assert (Hraw : osal_read APS_LINK_KEY_TABLE aps_link_key_table nv
                 = Ok [1; 0; 0; 0; 0; 0; 1]) by reflexivity.
  assert (Hdes : APSLinkKeyTable_deserialize [1; 0; 0; 0; 0; 0; 1]
                 = Ok ([[("AddressManagerIndex", Some 0);
                         ("LinkKeyTableOffset", Some 0);
                         ("AuthenticationState", Some 1)]%string], []))
    by reflexivity.
  split.
  - split; [exact Hin|]. split; [exact Hf|].
    exact (proj2 (Hw ds default_counter_increment (Some Sample.seed) s
                    Sample.unhashed_device _ Hin Hk Hf) Hc).
  - split; [exact Hsec|]. split; [exact Hraw|].
    refine (proj1 (Hr nv [] _ _ _ _ 1 Hsec Hraw Hdes (or_introl eq_refl)
                     eq_refl _)).
    discriminate.
Defined.

(** ** Reading back what [write_devices] wrote *)

Lemma for_each_skip {A S} (body : A -> S -> result S) (xs : list A) (s : S) :
  (forall x, In x xs -> body x s = Ok s) -> for_each body xs s = Ok s.
Proof.
  induction xs as [|x xs IH]; intros H; simpl; [reflexivity|].
  rewrite (H x) by (left; reflexivity). simpl. apply IH.
  intros y Hy. apply H. right; assumption.
Qed.

Lemma truthy_Some (key : option KeyData) (k : KeyData) :
  truthy key = Some k -> key = Some k.
Proof. destruct key as [[|b k']|]; simpl; congruence. Qed.

Lemma dict_get_NoDup (d : dict) (k : EUI64) (v : StoredDevice) :
  NoDup (map fst d) -> In (k, v) d -> dict_get d k = Ok v.
Proof.
  induction d as [|[k' v'] d IH]; simpl; [intros _ []|].
  intros Hnd [E|Hin].
  - injection E as -> ->. rewrite bytes_eqb_refl. reflexivity.
  - inversion Hnd as [|? ? Hnotin Hnd']; subst.
    destruct (bytes_eqb k' k) eqn:E.
    + apply bytes_eqb_eq in E. subst k'. exfalso. apply Hnotin.
      apply in_map_iff. exists (k, v). split; [reflexivity | assumption].
    + apply IH; assumption.
Qed.

(** The keyed devices of a registry with distinct addresses have distinct
    addresses. *)
Lemma keyed_devices_NoDup (ds : list StoredDevice) :
  NoDup (map ieee ds) -> NoDup (map ieee (filter keyed ds)).
Proof.
  induction ds as [|d ds IH]; intros Hnd; simpl; [constructor|].
  inversion Hnd as [|? ? Hfresh Hrest]; subst.
  destruct (keyed d); simpl; [|apply IH, Hrest].
  constructor; [|apply IH, Hrest].
  intros Hin. apply Hfresh.
  apply in_map_iff in Hin as (d' & Ed' & Hd').
  apply filter_In in Hd' as [Hd' _].
  rewrite <- Ed'. apply in_map. exact Hd'.
Qed.

Lemma Forall2_In_l {A B} (R : A -> B -> Prop) (l1 : list A) (l2 : list B)
  (x : A) :
  Forall2 R l1 l2 -> In x l1 -> exists y, In y l2 /\ R x y.
Proof.
  induction 1 as [|a b l1 l2 Hab HF IH]; simpl; [intros []|].
  intros [<-|Hin]; [eauto|]. destruct (IH Hin) as (y & Hy & HR). eauto.
Qed.

(** The address pass on the table [write_addr_manager_entries] wrote. *)
Lemma new_device_pass (ds : list StoredDevice) (m : nat) :
  (forall d, In d ds -> nwk d <> 0xFFFF) ->
  forall acc,
    NoDup (map fst acc ++ map ieee ds) ->
    for_each new_device
      (map addr_mgr_entry_of ds ++ repeat EMPTY_ADDR_MGR_ENTRY m) acc
    = Ok (acc ++ map (fun d => (ieee d, new_StoredDevice (ieee d) (nwk d))) ds).
Proof.
  induction ds as [|d ds IH]; intros Hnwk acc Hnd; simpl.
  - rewrite app_nil_r. apply for_each_skip.
    intros x Hx. apply repeat_spec in Hx. subst x. reflexivity.
  - assert (Hd : new_device (addr_mgr_entry_of d) acc
                 = Ok (acc ++ [(ieee d, new_StoredDevice (ieee d) (nwk d))])).
    { unfold new_device, addr_mgr_entry_of. simpl.
      destruct (nwk d =? 65535) eqn:E;
        [apply Z.eqb_eq in E; exfalso; apply (Hnwk d); [left; reflexivity | exact E]|].
      destruct (truthy (aps_link_key d)); simpl;
        rewrite dict_set_fresh; try reflexivity;
        apply NoDup_remove_2 in Hnd; intros Hin; apply Hnd;
        apply in_or_app; left; assumption. }
    rewrite Hd. simpl. rewrite IH.
    + rewrite <- app_assoc. reflexivity.
    + intros d' Hd'. apply Hnwk. right; assumption.
    + rewrite map_app, <- app_assoc. exact Hnd.
Qed.

(** The hashed pass attaches each item to the device at its address. *)
Lemma attach_hashed_pass (seed : option KeyData) (items : list hashed_item) :
  NoDup (map item_ieee items) ->
  forall D,
    (forall it, In it items -> In (item_ieee it) (map fst D)) ->
    exists D',
      for_each (attach_hashed seed) items D = Ok D'
      /\ map fst D' = map fst D
      /\ (forall k, ~ In k (map item_ieee items) ->
                    dict_get D' k = dict_get D k)
      /\ (forall it, In it items ->
            exists v, dict_get D (item_ieee it) = Ok v
                      /\ dict_get D' (item_ieee it)
                         = Ok (with_hashed_key seed it v)).
Proof.
  induction items as [|it items IH]; intros Hnd D Hkeys; simpl.
  - exists D. split; [reflexivity|]. split; [reflexivity|].
    split; [reflexivity | intros it []].
  - inversion Hnd as [|? ? Hnotin Hnd']; subst.
    destruct (dict_get_keys D (item_ieee it)) as [v Hv];
      [apply Hkeys; left; reflexivity|].
    unfold attach_hashed at 1. rewrite Hv. simpl.
    set (D1 := dict_set D (item_ieee it) (with_hashed_key seed it v)).
    assert (Hk1 : map fst D1 = map fst D).
    { apply dict_set_keys_present. apply Hkeys. left; reflexivity. }
    destruct (IH Hnd' D1) as (D' & HD' & Hk' & Hother & Hitems).
    { intros it' Hit'. rewrite Hk1. apply Hkeys. right; assumption. }
    exists D'. split; [exact HD'|]. split; [congruence|]. split.
    + intros k Hk. rewrite Hother by (intros Hin; apply Hk; right; assumption).
      unfold D1. apply dict_get_set_other. intros E. apply Hk. left; exact E.
    + intros it' [<-|Hit'].
      * exists v. split; [exact Hv|]. rewrite Hother by exact Hnotin.
        apply dict_get_set_same.
      * destruct (Hitems it' Hit') as (v' & Hv1 & Hv').
        exists v'. split; [|exact Hv'].
        rewrite <- Hv1. symmetry. unfold D1. apply dict_get_set_other.
        intros E. apply Hnotin. rewrite E. apply in_map. exact Hit'.
Qed.

Lemma KeyData_deserialize_16 (key : KeyData) :
  length key = 16%nat -> KeyData_deserialize key = Ok (key, []).
Proof.
  intros H. unfold KeyData_deserialize. rewrite H.
  change (16 <? 16)%nat with false. cbv iota.
  rewrite <- H. rewrite firstn_all, skipn_all. reflexivity.
Qed.

(** The loop body of [read_hashed_link_keys] on the entry of a device
    whose key derives from the stored seed: the key comes back. *)
Lemma hashed_link_key_item_of_entry (inc : Z) (seed : KeyData)
  (d : StoredDevice) (e : TCLKDevEntry) :
  hashed_entry_of inc (Some seed) d e ->
  is_EUI64 (ieee d) ->
  (forall key, aps_link_key d = Some key -> length key = 16%nat) ->
  ieee d <> EUI64_zeros ->
  exists it, hashed_link_key_item seed e = Ok (Some it)
             /\ hashed_item_of inc seed d it.
Proof.
  intros (key & shift & tx & rx & Hk & Hf & Htx & Hrx & _ & _ & ->)
    Hi Hlen Hnz.
  simpl in Hf. apply truthy_Some in Hk as Hk'. specialize (Hlen key Hk').
  destruct (find_key_shift_Some _ _ _ _ Hf) as [Hr Hseed].
  assert (Ekey : xor_zip (rotate seed shift) (ieee d ++ ieee d) = key).
  { change (compute_key (ieee d) seed shift = key). rewrite <- Hseed.
    apply compute_key_compute_seed; assumption. }
  unfold hashed_link_key_item.
  cbn [tclk_extAddr SeedShift_IcIndex txFrmCntr rxFrmCntr].
  destruct (bytes_eqb (ieee d) EUI64_zeros) eqn:E;
    [apply bytes_eqb_eq in E; congruence|].
  rewrite Ekey, KeyData_deserialize_16 by assumption. cbn [bind].
  eexists. split; [reflexivity|].
  exists key, shift, tx, rx. auto.
Qed.

Lemma yield_hashed_entries (inc : Z) (seed : KeyData) (m : nat)
  (ds : list StoredDevice) (h : list TCLKDevEntry) :
  Forall2 (hashed_entry_of inc (Some seed)) ds h ->
  (forall d, In d ds ->
     is_EUI64 (ieee d)
     /\ (forall key, aps_link_key d = Some key -> length key = 16%nat)
     /\ ieee d <> EUI64_zeros) ->
  exists items,
    yield_from (hashed_link_key_item seed) (h ++ repeat tclk_fill_value m)
    = (items, None)
    /\ Forall2 (hashed_item_of inc seed) ds items.
Proof.
  induction 1 as [|d e ds h Hde HF IH]; intros Hwf; simpl.
  - exists []. split; [|constructor]. apply yield_from_skip.
    intros x Hx. apply repeat_spec in Hx. subst x. reflexivity.
  - destruct (Hwf d (or_introl eq_refl)) as (Hi & Hlen & Hnz).
    destruct (hashed_link_key_item_of_entry inc seed d e Hde Hi Hlen Hnz)
      as (it & Hit & Hrel).
    destruct IH as (items & Hy & Hitems);
      [intros d' Hd'; apply Hwf; right; assumption|].
    rewrite Hit, Hy. simpl. exists (it :: items).
    split; [reflexivity | constructor; assumption].
Qed.

Lemma hashed_items_ieee (inc : Z) (seed : KeyData) (ds : list StoredDevice)
  (items : list hashed_item) :
  Forall2 (hashed_item_of inc seed) ds items ->
  map item_ieee items = map ieee ds.
Proof.
  induction 1 as [|d it ds items Hd HF IH]; simpl; [reflexivity|].
  destruct Hd as (key & shift & tx & rx & _ & _ & _ & _ & ->).
  rewrite IH. reflexivity.
Qed.

Lemma tclk_table_read (nv : nvram) :
  (if version_number (version nv) =? 330
   then read_table Ex_TCLK_TABLE ex_tclk_table nv
   else read_table LEGACY_TCLK_TABLE legacy_tclk_table nv)
  = if secured nv (tclk_table_id (version nv)) then Raise SecurityError
    else Ok (tclk_table nv).
Proof.
  unfold tclk_table, tclk_table_id, read_table.
  destruct (version nv); reflexivity.
Qed.

Lemma addr_table_read (nv : nvram) :
  read_addr_mgr_entries nv
  = if secured nv (addr_table_id (version nv)) then Raise SecurityError
    else match addr_table nv with
         | Some entries => Ok entries
         | None => Raise ItemNotFound
         end.
Proof.
  unfold read_addr_mgr_entries, addr_table, addr_table_id, read_table,
    osal_read.
  destruct (version_number (version nv) >=? 330); reflexivity.
Qed.

Section RoundTrip.

Variable base : Z.

(** An indirection table that starts with a zero count gives the unhashed
    pass nothing to do. *)
Lemma read_unhashed_link_keys_empty (nv : nvram) (am : list AddrMgrEntry)
  (rest : bytes) :
  (forall i, secured nv i = false) ->
  aps_link_key_table nv = Some (0 :: 0 :: rest) ->
  read_unhashed_link_keys base nv am = ([], None).
Proof.
  intros Hsec Hl. unfold read_unhashed_link_keys, read_table, osal_read.
  rewrite !Hsec, Hl. destruct (version_number (version nv) =? 330);
    reflexivity.
Qed.

(** What a completed [write_devices] leaves in the store. *)
Lemma write_devices_Ok (ds : list StoredDevice) (inc : Z)
  (sarg : option KeyData) (s s' : session) :
  write_devices base ds inc sarg s = (Ok tt, s') ->
  exists h (old_a : list AddrMgrEntry) (old : bytes),
    Forall2 (hashed_entry_of inc (choose_seed sarg (ieees_and_keys_of ds)))
      (filter keyed ds) h
    /\ same_frame s s'
    /\ addr_table (store s')
       = Some (pad (map addr_mgr_entry_of ds) EMPTY_ADDR_MGR_ENTRY
                 (length old_a))
    /\ aps_link_key_table (store s')
       = Some (0 :: 0 :: repeat 0 (length old - 2))
    /\ tclk_table (store s')
       = pad h tclk_fill_value (length (tclk_table (store s))).
Proof.
  intros H.
  destruct (write_devices_trace base ds inc sarg s _ s' H) as [Hframe _].
  rewrite write_devices_phases in H.
  destruct (build_tables _ _ _ _ _) as [[[h k] l]|e] eqn:Hb; [|discriminate].
  apply build_tables_Ok in Hb as (-> & -> & HF).
  destruct (osal_read _ _ _) as [old|e]; [|discriminate].
  change (APSLinkKeyTable_serialize (snd (h, @nil APSKeyDataTableEntry,
                                          @nil cstruct)))
    with (@Ok bytes [0; 0]) in H.
  cbv beta iota in H.
  destruct (Nat.ltb _ _) eqn:E; [discriminate|].
  apply commit_tables_Ok in H
    as (old_a & _ & _ & _ & _ & Ha' & Hl' & Ht' & _).
  exists h, old_a, old. split; [exact HF|]. split; [exact Hframe|].
  split; [exact Ha'|]. split; [exact Hl' | exact Ht'].
Qed.

(** C4, as the code has it.  A completed [write_devices] puts, for every
    device whose key derives from the chosen seed, an entry in the
    hashed-key table with the device's [tx_counter] plus
    [counter_increment], its [rx_counter] unchanged and the derived shift.
    [write_devices] does not store the seed it chose and [read_devices]
    reads no hashed key on firmware 1.2: the device comes back from
    [read_devices] with its address, its short address, its key, the
    incremented [tx_counter] and its [rx_counter] when the firmware is
    newer than 1.2, nothing is undisclosed, the stored seed is the chosen
    seed, and the registry has distinct addresses, no sentinel short
    address and 16-byte keys on non-zero 8-byte addresses. *)
Theorem write_then_read_hashed_device (ds : list StoredDevice) (inc : Z)
  (sarg : option KeyData) (s s' : session) (d : StoredDevice) (key : KeyData)
  (shift : Z) :
  write_devices base ds inc sarg s = (Ok tt, s') ->
  In d ds ->
  truthy (aps_link_key d) = Some key ->
  find_key_shift_in (ieee d) key (choose_seed sarg (ieees_and_keys_of ds))
  = Some shift ->
  exists tx rx,
    tx_counter d = Some tx /\ rx_counter d = Some rx
    /\ In {| txFrmCntr := tx + inc; rxFrmCntr := rx;
             tclk_extAddr := ieee d;
             keyAttributes := KeyAttributes.DEFAULT_KEY;
             keyType := KeyType.NWK;
             SeedShift_IcIndex := shift |} (tclk_table (store s'))
    /\ (version (store s) <> Z_Stack_1_2 ->
        (forall i, secured (store s) i = false) ->
        tclk_seed (store s) = choose_seed sarg (ieees_and_keys_of ds) ->
        registry_ok ds ->
        exists ds' d',
          read_devices base (store s') = Ok ds'
          /\ In d' ds'
          /\ ieee d' = ieee d /\ nwk d' = nwk d
          /\ aps_link_key d' = Some key
          /\ tx_counter d' = Some (tx + inc)
          /\ rx_counter d' = Some rx).
Proof.
  intros Hw Hin Hk Hf.
  destruct (write_devices_Ok ds inc sarg s s' Hw)
    as (h & old_a & old & HF & (Hv & Hsec & Hseed) & Ha & Hl & Ht).
  set (chosen := choose_seed sarg (ieees_and_keys_of ds)) in *.
  assert (Hkd : In d (filter keyed ds)).
  { apply filter_In. split; [exact Hin|]. unfold keyed. rewrite Hk.
    reflexivity. }
  destruct (Forall2_In_l _ _ _ d HF Hkd)
    as (e & He & (key' & shift' & tx & rx & Hk' & Hf' & Htx & Hrx
                  & _ & _ & Ee)).
  assert (key' = key) by congruence. subst key'.
  assert (shift' = shift) by congruence. subst shift'.
  exists tx, rx. split; [exact Htx|]. split; [exact Hrx|]. split.
  { rewrite Ht. unfold pad. apply in_or_app. left. rewrite <- Ee. exact He. }
  intros Hfw Hdis Hstored (Hnd & Hreg).
  destruct chosen as [seed|] eqn:Echosen; [|discriminate].
  set (nv' := store s') in *.
  assert (Hdis' : forall i, secured nv' i = false)
    by (intros i; rewrite Hsec; apply Hdis).
  (* the seed *)
  assert (R1 : read_tclk_seed nv' = Ok (Some seed)).
  { unfold read_tclk_seed, osal_read. rewrite Hdis', Hseed, Hstored, Hv.
    destruct (version (store s)); [congruence | reflexivity | reflexivity]. }
  (* the address pass *)
  assert (R2 : read_addr_mgr_entries nv'
               = Ok (pad (map addr_mgr_entry_of ds) EMPTY_ADDR_MGR_ENTRY
                       (length old_a))).
  { rewrite addr_table_read, Hdis', Ha. reflexivity. }
  set (D := map (fun d0 => (ieee d0, new_StoredDevice (ieee d0) (nwk d0))) ds).
  assert (R3 : for_each new_device
                 (pad (map addr_mgr_entry_of ds) EMPTY_ADDR_MGR_ENTRY
                    (length old_a)) [] = Ok D).
  { unfold pad. rewrite new_device_pass; [reflexivity | | exact Hnd].
    intros d0 Hd0. apply (Hreg d0 Hd0). }
  assert (HkeysD : map fst D = map ieee ds).
  { unfold D. rewrite map_map. reflexivity. }
  (* the hashed pass *)
  destruct (yield_hashed_entries inc seed
              (length (tclk_table (store s)) - length h) (filter keyed ds) h
              HF) as (items & Hy & Hitems).
  { intros d0 Hd0. apply filter_In in Hd0 as [Hd0 Hkeyed].
    unfold keyed in Hkeyed.
    destruct (truthy (aps_link_key d0)) as [k0|] eqn:Ek0; [|discriminate].
    apply truthy_Some in Ek0.
    destruct (Hreg d0 Hd0) as [_ Hwf].
    destruct (Hwf k0 Ek0) as (Hi & _ & Hnz).
    split; [exact Hi|]. split; [|exact Hnz].
    intros k1 Ek1. destruct (Hwf k1 Ek1) as (_ & [Hlen _] & _). exact Hlen. }
  assert (R4 : read_hashed_link_keys nv' (Some seed) = (items, None)).
  { unfold read_hashed_link_keys. rewrite tclk_table_read, Hdis', Ht.
    exact Hy. }
  pose proof (hashed_items_ieee _ _ _ _ Hitems) as Hieee.
  destruct (attach_hashed_pass (Some seed) items) with (D := D)
    as (D' & HD' & _ & _ & Hattached).
  { rewrite Hieee. apply keyed_devices_NoDup. exact Hnd. }
  { intros it Hit. rewrite HkeysD.
    apply (in_map item_ieee) in Hit. rewrite Hieee in Hit.
    apply in_map_iff in Hit as (d0 & <- & Hd0).
    apply in_map. apply filter_In in Hd0. tauto. }
  (* the unhashed pass *)
  assert (R5 : read_unhashed_link_keys base nv'
                 (pad (map addr_mgr_entry_of ds) EMPTY_ADDR_MGR_ENTRY
                    (length old_a)) = ([], None)).
  { eapply read_unhashed_link_keys_empty; [exact Hdis' | exact Hl]. }
  (* the device *)
  destruct (Forall2_In_l _ _ _ d Hitems Hkd)
    as (it & Hit & (key' & shift' & tx' & rx' & Hk2 & Hf2 & Htx2 & Hrx2
                    & Eit)).
  assert (key' = key) by congruence. subst key'.
  assert (tx' = tx) by congruence. subst tx'.
  assert (rx' = rx) by congruence. subst rx'.
  destruct (Hattached it Hit) as (v & Hv0 & Hv').
  assert (Eieee : item_ieee it = ieee d) by (rewrite Eit; reflexivity).
  rewrite Eieee in Hv0, Hv'.
  assert (Hv1 : dict_get D (ieee d)
                = Ok (new_StoredDevice (ieee d) (nwk d))).
  { apply dict_get_NoDup; [rewrite HkeysD; exact Hnd|].
    unfold D. apply in_map_iff. exists d. auto. }
  assert (v = new_StoredDevice (ieee d) (nwk d)) by congruence. subst v.
  exists (dict_values D'),
    (with_hashed_key (Some seed) it (new_StoredDevice (ieee d) (nwk d))).
  split.
  { unfold read_devices. rewrite R1. cbn [bind]. rewrite R2. cbn [bind].
    rewrite R3. cbn [bind]. unfold for_generator at 1. rewrite R4.
    cbn [fst snd]. rewrite HD'. cbn [bind].
    unfold for_generator. rewrite R5. reflexivity. }
  split.
  { apply dict_get_In in Hv'. unfold dict_values.
    apply in_map_iff. eexists. split; [|exact Hv']. reflexivity. }
  rewrite Eit. cbn. auto.
Qed.

End RoundTrip.

Lemma sample_registry_ok : registry_ok Sample.hashed_devices.
Proof.
  split.
  - simpl. constructor; [intros [E|[]]; discriminate|].
    constructor; [intros []|constructor].
  - intros d [<-|[<-|[]]]; (split; [simpl; lia|]);
      intros key E; injection E as <-;
      (split; [solve_bytes|]);
      (split; [apply compute_key_is_KeyData; solve_bytes|]);
      discriminate.
Qed.

Lemma write_then_read_hashed_device_witness :
  let s := Sample.session_of
             (Sample.empty_store Z_Stack_3_30 (Some Sample.seed)
                Sample.disclosed [0; 0; 0; 0; 0; 0; 0]) in
  let d := Sample.device Sample.ieee_b 0x2345
             (Some (compute_key Sample.ieee_b Sample.seed 3))
             (Some 30) (Some 40) in
  exists s',
    write_devices Sample.legacy_start Sample.hashed_devices
      default_counter_increment (Some Sample.seed) s = (Ok tt, s')
    /\ In d Sample.hashed_devices
    /\ find_key_shift_in (ieee d) (compute_key Sample.ieee_b Sample.seed 3)
         (choose_seed (Some Sample.seed)
            (ieees_and_keys_of Sample.hashed_devices)) = Some 3
    /\ In {| txFrmCntr := 2530; rxFrmCntr := 40;
             tclk_extAddr := Sample.ieee_b;
             keyAttributes := KeyAttributes.DEFAULT_KEY;
             keyType := KeyType.NWK;
             SeedShift_IcIndex := 3 |} (tclk_table (store s'))
    /\ version (store s) <> Z_Stack_1_2
    /\ tclk_seed (store s)
       = choose_seed (Some Sample.seed)
           (ieees_and_keys_of Sample.hashed_devices)
    /\ registry_ok Sample.hashed_devices
    /\ exists ds' d',
         read_devices Sample.legacy_start (store s') = Ok ds'
         /\ In d' ds'
         /\ ieee d' = Sample.ieee_b /\ nwk d' = 0x2345
         /\ aps_link_key d' = Some (compute_key Sample.ieee_b Sample.seed 3)
         /\ tx_counter d' = Some 2530
         /\ rx_counter d' = Some 40.
Proof.
  cbv zeta.
  set (s := Sample.session_of
              (Sample.empty_store Z_Stack_3_30 (Some Sample.seed)
                 Sample.disclosed [0; 0; 0; 0; 0; 0; 0])).
  set (d := Sample.device Sample.ieee_b 0x2345
              (Some (compute_key Sample.ieee_b Sample.seed 3))
              (Some 30) (Some 40)).
  eexists.
  assert (Hw : write_devices Sample.legacy_start Sample.hashed_devices
                 default_counter_increment (Some Sample.seed) s
               = (Ok tt, _)) by (vm_compute; reflexivity).
  assert (Hin : In d Sample.hashed_devices) by (right; left; reflexivity).
  assert (Hk : truthy (aps_link_key d)
               = Some (compute_key Sample.ieee_b Sample.seed 3))
    by reflexivity.
  assert (Hf : find_key_shift_in (ieee d)
                 (compute_key Sample.ieee_b Sample.seed 3)
                 (choose_seed (Some Sample.seed)
                    (ieees_and_keys_of Sample.hashed_devices)) = Some 3)
    by (vm_compute; reflexivity).
  assert (Hv : version (store s) <> Z_Stack_1_2) by discriminate.
  assert (Hdis : forall i, secured (store s) i = false)
    by (intros i; reflexivity).
  assert (Hseed : tclk_seed (store s)
                  = choose_seed (Some Sample.seed)
                      (ieees_and_keys_of Sample.hashed_devices))
    by reflexivity.
  destruct (write_then_read_hashed_device Sample.legacy_start _ _ _ _ _
              d _ 3 Hw Hin Hk Hf)
    as (tx & rx & Htx & Hrx & Hentry & Hread).
  injection Htx as <-. injection Hrx as <-.
  split; [exact Hw|]. split; [exact Hin|]. split; [exact Hf|].
  split; [exact Hentry|]. split; [exact Hv|]. split; [exact Hseed|].
  split; [exact sample_registry_ok|].
  exact (Hread Hv Hdis Hseed sample_registry_ok).
Defined.

(** C4 as stated fails in two ways.  On firmware 1.2 [read_devices] reads
    no hashed key: after the round trip the devices carry no shift and no
    counter.  On newer firmware [write_devices] leaves the stored seed as it
    was: when that is not the chosen seed (here the all-zero seed), the
    device written at shift 3 comes back with another key, the one the
    stored seed gives, and not with the shift it was written at. *)
Lemma round_trip_loses_hashed_keys :
  (exists s',
      write_devices Sample.legacy_start Sample.hashed_devices
        default_counter_increment (Some Sample.seed)
        (Sample.session_of
           (Sample.empty_store Z_Stack_1_2 (Some Sample.seed)
              Sample.disclosed [0; 0; 0; 0; 0; 0; 0])) = (Ok tt, s')
      /\ read_devices Sample.legacy_start (store s')
         = Ok [new_StoredDevice Sample.ieee_a 0x1234;
               new_StoredDevice Sample.ieee_b 0x2345])
  /\ (exists s',
         write_devices Sample.legacy_start Sample.hashed_devices
           default_counter_increment None
           (Sample.session_of
              (Sample.empty_store Z_Stack_3_30 (Some (repeat 0 16%nat))
                 Sample.disclosed [0; 0; 0; 0; 0; 0; 0])) = (Ok tt, s')
         /\ find_key_shift_in Sample.ieee_b
              (compute_key Sample.ieee_b Sample.seed 3)
              (choose_seed None (ieees_and_keys_of Sample.hashed_devices))
            = Some 3
         /\ read_devices Sample.legacy_start (store s')
            = Ok [{| ieee := Sample.ieee_a; nwk := 0x1234;
                     hashed_link_key_shift := None;
                     aps_link_key := Some (Sample.ieee_a ++ Sample.ieee_a);
                     tx_counter := Some 2510; rx_counter := Some 20 |};
                  {| ieee := Sample.ieee_b; nwk := 0x2345;
                     hashed_link_key_shift := None;
                     aps_link_key := Some (Sample.ieee_b ++ Sample.ieee_b);
                     tx_counter := Some 2530; rx_counter := Some 40 |}]).
Proof.
  split.
  - eexists. split; [vm_compute; reflexivity|]. vm_compute. reflexivity.
  - eexists. split; [vm_compute; reflexivity|].
    split; vm_compute; reflexivity.
Qed.

(** ** Trust Center frame counter *)

Module FrameCounterFacts.

Import FrameCounter.

Lemma scan_entries_own (own : EUI64) (pre post : list NwkSecMaterialDesc)
  (e : NwkSecMaterialDesc) (g : option NwkSecMaterialDesc) :
  (forall x, In x pre -> bytes_eqb (ExtendedPanID x) own = false) ->
  bytes_eqb (ExtendedPanID e) own = true ->
  scan_entries own (pre ++ e :: post) g = Ok (FrameCounter e).
Proof.
  revert g; induction pre as [|x pre IH]; intros g Hpre He; simpl.
  - rewrite He. reflexivity.
  - rewrite (Hpre x) by (left; reflexivity).
    destruct (bytes_eqb (ExtendedPanID x) EUI64_ones); apply IH; auto;
      intros y Hy; apply Hpre; right; assumption.
Qed.

Lemma scan_entries_no_own_no_global (own : EUI64)
  (entries : list NwkSecMaterialDesc) (g : option NwkSecMaterialDesc) :
  (forall x, In x entries -> bytes_eqb (ExtendedPanID x) own = false) ->
  (forall x, In x entries -> bytes_eqb (ExtendedPanID x) EUI64_ones = false) ->
  scan_entries own entries g
  = match g with
    | Some entry => Ok (FrameCounter entry)
    | None => Raise no_entry_found
    end.
Proof.
  revert g; induction entries as [|x entries IH]; intros g Hown Hglobal;
    simpl; [reflexivity|].
  rewrite (Hown x), (Hglobal x) by (left; reflexivity).
  apply IH; intros y Hy; [apply Hown | apply Hglobal]; right; assumption.
Qed.

Lemma scan_entries_last_global (own : EUI64)
  (pre post : list NwkSecMaterialDesc) (e : NwkSecMaterialDesc)
  (g : option NwkSecMaterialDesc) :
  (forall x, In x (pre ++ e :: post) ->
             bytes_eqb (ExtendedPanID x) own = false) ->
  bytes_eqb (ExtendedPanID e) EUI64_ones = true ->
  (forall x, In x post -> bytes_eqb (ExtendedPanID x) EUI64_ones = false) ->
  scan_entries own (pre ++ e :: post) g = Ok (FrameCounter e).
Proof.
  revert g; induction pre as [|x pre IH]; intros g Hown He Hpost; simpl.
  - rewrite (Hown e) by (left; reflexivity). rewrite He.
    apply scan_entries_no_own_no_global; [|exact Hpost].
    intros y Hy. apply Hown. right; assumption.
  - rewrite (Hown x) by (left; reflexivity).
    destruct (bytes_eqb (ExtendedPanID x) EUI64_ones); apply IH; auto;
      intros y Hy; apply Hown; right; assumption.
Qed.

Lemma find_slot_Ok (own : EUI64) (entries : list NwkSecMaterialDesc)
  (address : Z) (best : option (NwkSecMaterialDesc * Z))
  (e : NwkSecMaterialDesc) (a : Z) :
  find_slot own entries address best = Ok (e, a) ->
  exists pre post,
    entries = pre ++ e :: post
    /\ (forall x, In x pre -> bytes_eqb (ExtendedPanID x) own = false)
    /\ bytes_eqb (ExtendedPanID e) own = true
    /\ a = address + Z.of_nat (length pre).
Proof.
  revert address best; induction entries as [|x entries IH];
    intros address best; simpl; [discriminate|].
  destruct (bytes_eqb (ExtendedPanID x) own) eqn:E.
  - intros H; injection H as <- <-. exists [], entries.
    split; [reflexivity|]. split; [intros y []|]. split; [exact E|].
    simpl; lia.
  - intros H. apply IH in H as (pre & post & -> & Hpre & He & ->).
    exists (x :: pre), post. split; [reflexivity|]. split.
    + intros y [<-|Hy]; [exact E | apply Hpre, Hy].
    + split; [exact He|]. simpl length. lia.
Qed.

Lemma find_slot_no_own (own : EUI64) (entries : list NwkSecMaterialDesc)
  (address : Z) (best : option (NwkSecMaterialDesc * Z)) :
  (forall x, In x entries -> bytes_eqb (ExtendedPanID x) own = false) ->
  find_slot own entries address best = Raise no_open_slot.
Proof.
  revert address best; induction entries as [|x entries IH];
    intros address best Hown; simpl; [reflexivity|].
  rewrite (Hown x) by (left; reflexivity). apply IH.
  intros y Hy. apply Hown. right; assumption.
Qed.

Lemma write_record_at {A} (pre post : list A) (x v : A) :
  write_record (pre ++ x :: post) (length pre) v = pre ++ v :: post.
Proof. induction pre as [|p pre IH]; simpl; congruence. Qed.

Section Legacy.

Variable start : Z.

(** What a completed write has done, on firmware newer than 1.2: the first
    entry of the own network carries the counter, nothing else differs. *)
Lemma write_tc_frame_counter_Ok (app : application) (counter : Z)
  (nv' : store) :
  (version_number (znp_version app) =? 120) = false ->
  write_tc_frame_counter start app counter = (Ok tt, nv') ->
  exists pre e post,
    sec_material_table app = pre ++ e :: post
    /\ (forall x, In x pre -> own_entry app x = false)
    /\ own_entry app e = true
    /\ sec_material_table (with_store app nv')
       = pre ++ {| FrameCounter := counter;
                   ExtendedPanID := ExtendedPanID e |} :: post
    /\ NWKKEY nv' = NWKKEY (nvram_of app)
    /\ (if version_number (znp_version app) =? 300
        then NWK_SEC_MATERIAL_TABLE nv'
             = NWK_SEC_MATERIAL_TABLE (nvram_of app)
        else LEGACY_NWK_SEC_MATERIAL_TABLE nv'
             = LEGACY_NWK_SEC_MATERIAL_TABLE (nvram_of app)).
Proof.
  intros Hv. unfold write_tc_frame_counter, sec_material_table, own_entry.
  rewrite Hv. simpl znp_version.
  destruct (version_number (znp_version app) =? 300) eqn:E300.
  - destruct (find_slot _ _ _ _) as [[e a]|x] eqn:Hf; [|discriminate].
    apply find_slot_Ok in Hf as (pre & post & Et & Hpre & He & ->).
    intros H; injection H as <-. exists pre, e, post.
    split; [exact Et|]. split; [exact Hpre|]. split; [exact He|].
    simpl. rewrite Et.
    replace (Z.to_nat _) with (length pre) by lia.
    rewrite write_record_at. auto.
  - destruct (find_slot _ _ _ _) as [[e a]|x] eqn:Hf; [|discriminate].
    apply find_slot_Ok in Hf as (pre & post & Et & Hpre & He & ->).
    intros H; injection H as <-. exists pre, e, post.
    split; [exact Et|]. split; [exact Hpre|]. split; [exact He|].
    simpl. rewrite Et.
    replace (Z.to_nat _) with (length pre) by lia.
    rewrite write_record_at. auto.
Qed.

Lemma read_tc_frame_counter_scan (app : application) :
  znp_version app <> Z_Stack_1_2 ->
  read_tc_frame_counter app
  = scan_entries (extended_pan_id app) (sec_material_table app) None.
Proof.
  intros Hv. unfold read_tc_frame_counter, sec_material_table.
  destruct (znp_version app); [congruence| |]; reflexivity.
Qed.

(** X16.  On firmware newer than 1.2 the counter read is that of the first entry
    whose extended PAN id is the network's own, whatever global entries
    come before it. *)
Theorem read_tc_frame_counter_own_network (app : application)
  (pre post : list NwkSecMaterialDesc) (e : NwkSecMaterialDesc) :
  znp_version app <> Z_Stack_1_2 ->
  sec_material_table app = pre ++ e :: post ->
  (forall x, In x pre -> own_entry app x = false) ->
  own_entry app e = true ->
  read_tc_frame_counter app = Ok (FrameCounter e).
Proof.
  intros Hv Ht Hpre He. rewrite read_tc_frame_counter_scan by exact Hv.
  rewrite Ht. apply scan_entries_own; assumption.
Qed.

(** X17.  Without an entry of the own network, the counter read is that of the
    last global entry (extended PAN id FF:FF:FF:FF:FF:FF:FF:FF), and the
    read raises [RuntimeError] when there is none. *)
Theorem read_tc_frame_counter_global_fallback (app : application) :
  znp_version app <> Z_Stack_1_2 ->
  (forall x, In x (sec_material_table app) -> own_entry app x = false) ->
  (forall pre e post,
      sec_material_table app = pre ++ e :: post ->
      global_entry e = true ->
      (forall x, In x post -> global_entry x = false) ->
      read_tc_frame_counter app = Ok (FrameCounter e))
  /\ ((forall x, In x (sec_material_table app) -> global_entry x = false) ->
      read_tc_frame_counter app = Raise no_entry_found).
Proof.
  intros Hv Hown.
  rewrite read_tc_frame_counter_scan by exact Hv. split.
  - intros pre e post Ht He Hpost. rewrite Ht in *.
    apply scan_entries_last_global; assumption.
  - intros Hglobal.
    apply (scan_entries_no_own_no_global _ _ None); assumption.
Qed.

(** X18.  On firmware newer than 1.2 [write_tc_frame_counter] writes only to an
    entry of the own network: without one it raises [RuntimeError] and
    leaves the store as it was, even if a global entry exists. *)
Theorem write_tc_frame_counter_needs_own_network (app : application)
  (counter : Z) :
  znp_version app <> Z_Stack_1_2 ->
  (forall x, In x (sec_material_table app) -> own_entry app x = false) ->
  write_tc_frame_counter start app counter
  = (Raise no_open_slot, nvram_of app).
Proof.
  intros Hv Hown. unfold write_tc_frame_counter.
  unfold sec_material_table, own_entry in Hown.
  destruct (znp_version app); [congruence| |]; simpl in *;
    rewrite find_slot_no_own by exact Hown; reflexivity.
Qed.

(** X19.  A completed [write_tc_frame_counter] is read back by
    [read_tc_frame_counter], on every firmware. *)
Theorem write_then_read_tc_frame_counter (app : application) (counter : Z)
  (nv' : store) :
  write_tc_frame_counter start app counter = (Ok tt, nv') ->
  read_tc_frame_counter (with_store app nv') = Ok counter.
Proof.
  intros H. destruct (version_number (znp_version app) =? 120) eqn:Hv.
  - unfold write_tc_frame_counter in H. rewrite Hv in H.
    destruct (osal_read_item (NWKKEY (nvram_of app))) as [k|e];
      [|discriminate].
    injection H as <-. unfold read_tc_frame_counter. simpl. rewrite Hv.
    reflexivity.
  - apply write_tc_frame_counter_Ok in H
      as (pre & e & post & _ & Hpre & He & Ht' & _); [|exact Hv].
    assert (Hv' : znp_version (with_store app nv') <> Z_Stack_1_2).
    { simpl. intros E. rewrite E in Hv. discriminate. }
    rewrite read_tc_frame_counter_scan by exact Hv'. rewrite Ht'.
    apply scan_entries_own; [exact Hpre | exact He].
Qed.

(** X20.  A completed [write_tc_frame_counter] changes one counter and nothing
    else.  On firmware 1.2 that is the counter of the [NWKKEY] item, whose
    active key stays.  On newer firmware it is the counter of the first
    entry of the own network in the table of that firmware: the entry keeps
    its extended PAN id and its place, and every other entry, the other
    table and the [NWKKEY] item are as before. *)
Theorem write_tc_frame_counter_changes_one_counter (app : application)
  (counter : Z) (nv' : store) :
  write_tc_frame_counter start app counter = (Ok tt, nv') ->
  if version_number (znp_version app) =? 120
  then
    (exists key_info,
        NWKKEY (nvram_of app) = Some key_info
        /\ NWKKEY nv'
           = Some {| Active := Active key_info;
                     active_FrameCounter := counter |})
    /\ LEGACY_NWK_SEC_MATERIAL_TABLE nv'
       = LEGACY_NWK_SEC_MATERIAL_TABLE (nvram_of app)
    /\ NWK_SEC_MATERIAL_TABLE nv' = NWK_SEC_MATERIAL_TABLE (nvram_of app)
  else
    NWKKEY nv' = NWKKEY (nvram_of app)
    /\ (if version_number (znp_version app) =? 300
        then NWK_SEC_MATERIAL_TABLE nv'
             = NWK_SEC_MATERIAL_TABLE (nvram_of app)
        else LEGACY_NWK_SEC_MATERIAL_TABLE nv'
             = LEGACY_NWK_SEC_MATERIAL_TABLE (nvram_of app))
    /\ exists pre e post,
         sec_material_table app = pre ++ e :: post
         /\ (forall x, In x pre -> own_entry app x = false)
         /\ own_entry app e = true
         /\ sec_material_table (with_store app nv')
            = pre ++ {| FrameCounter := counter;
                        ExtendedPanID := ExtendedPanID e |} :: post.
Proof.
  intros H. destruct (version_number (znp_version app) =? 120) eqn:Hv.
  - unfold write_tc_frame_counter in H. rewrite Hv in H.
    destruct (NWKKEY (nvram_of app)) as [k|] eqn:Hk; simpl in H;
      [|discriminate].
    injection H as <-. simpl. split; [|split; reflexivity].
    exists k. split; reflexivity.
  - apply write_tc_frame_counter_Ok in H
      as (pre & e & post & Ht & Hpre & He & Ht' & Hkey & Hother);
      [|exact Hv].
    split; [exact Hkey|]. split; [exact Hother|].
    exists pre, e, post. auto.
Qed.

End Legacy.

Import FrameCounterSample.

Lemma read_tc_frame_counter_own_network_witness :
  let app := app_with Z_Stack_3_30 table_with_own in
  znp_version app <> Z_Stack_1_2
  /\ sec_material_table app
     = [entry 7 EUI64_ones; entry 5 other] ++ entry 11 own :: [entry 13 own]
  /\ read_tc_frame_counter app = Ok 11.
Proof.
  cbv zeta.
  assert (Hv : znp_version (app_with Z_Stack_3_30 table_with_own)
               <> Z_Stack_1_2) by discriminate.
  assert (Ht : sec_material_table (app_with Z_Stack_3_30 table_with_own)
               = [entry 7 EUI64_ones; entry 5 other]
                   ++ entry 11 own :: [entry 13 own]) by reflexivity.
  split; [exact Hv|]. split; [exact Ht|].
  apply (read_tc_frame_counter_own_network _ _ _ (entry 11 own) Hv Ht).
  - intros x [<-|[<-|[]]]; reflexivity.
  - reflexivity.
Defined.

Lemma read_tc_frame_counter_global_fallback_witness :
  let app := app_with Z_Stack_3_0 table_without_own in
  znp_version app <> Z_Stack_1_2
  /\ (forall x, In x (sec_material_table app) -> own_entry app x = false)
  /\ read_tc_frame_counter app = Ok 9.
Proof.
  cbv zeta.
  assert (Hv : znp_version (app_with Z_Stack_3_0 table_without_own)
               <> Z_Stack_1_2) by discriminate.
  assert (Hown : forall x,
             In x (sec_material_table (app_with Z_Stack_3_0 table_without_own))
             -> own_entry (app_with Z_Stack_3_0 table_without_own) x = false)
    by (intros x [<-|[<-|[<-|[]]]]; reflexivity).
  split; [exact Hv|]. split; [exact Hown|].
  apply (proj1 (read_tc_frame_counter_global_fallback _ Hv Hown)
           [entry 7 EUI64_ones; entry 5 other] (entry 9 EUI64_ones) []).
  - reflexivity.
  - reflexivity.
  - intros x [].
Defined.

Lemma write_tc_frame_counter_needs_own_network_witness :
  let app := app_with Z_Stack_3_30 table_without_own in
  znp_version app <> Z_Stack_1_2
  /\ (forall x, In x (sec_material_table app) -> own_entry app x = false)
  /\ write_tc_frame_counter start app 100 = (Raise no_open_slot, nvram_of app).
Proof.
  cbv zeta.
  assert (Hv : znp_version (app_with Z_Stack_3_30 table_without_own)
               <> Z_Stack_1_2) by discriminate.
  assert (Hown : forall x,
             In x (sec_material_table (app_with Z_Stack_3_30 table_without_own))
             -> own_entry (app_with Z_Stack_3_30 table_without_own) x = false)
    by (intros x [<-|[<-|[<-|[]]]]; reflexivity).
  split; [exact Hv|]. split; [exact Hown|].
  exact (write_tc_frame_counter_needs_own_network start _ 100 Hv Hown).
Defined.

Lemma write_then_read_tc_frame_counter_witness :
  let app := app_with Z_Stack_3_0 table_with_own in
  exists nv',
    write_tc_frame_counter start app 100 = (Ok tt, nv')
    /\ read_tc_frame_counter (with_store app nv') = Ok 100.
Proof.
  cbv zeta. eexists.
  assert (H : write_tc_frame_counter start
                (app_with Z_Stack_3_0 table_with_own) 100
              = (Ok tt,
                 snd (write_tc_frame_counter start
                        (app_with Z_Stack_3_0 table_with_own) 100)))
    by reflexivity.
  split; [exact H|].
  exact (write_then_read_tc_frame_counter start _ 100 _ H).
Defined.

Lemma write_tc_frame_counter_changes_one_counter_witness :
  let app := app_with Z_Stack_1_2 table_with_own in
  exists nv',
    write_tc_frame_counter start app 100 = (Ok tt, nv')
    /\ LEGACY_NWK_SEC_MATERIAL_TABLE nv' = table_with_own
    /\ NWK_SEC_MATERIAL_TABLE nv' = table_with_own.
Proof.
  cbv zeta. eexists.
  assert (H : write_tc_frame_counter start
                (app_with Z_Stack_1_2 table_with_own) 100
              = (Ok tt,
                 snd (write_tc_frame_counter start
                        (app_with Z_Stack_1_2 table_with_own) 100)))
    by reflexivity.
  split; [exact H|].
  exact (proj2 (write_tc_frame_counter_changes_one_counter start _ 100 _ H)).
Defined.

End FrameCounterFacts.

(** ** Address with its mode *)

Module AddrModeAddressFacts.

Import AddrModeAddress.

Lemma serialize_uint16_bytes (v : Z) :
  0 <= v < 2 ^ 16 -> Forall is_byte (serialize_uint16 v).
Proof.
  intros Hv. unfold serialize_uint16.
  repeat constructor; unfold is_byte.
  - apply Z.mod_pos_bound; lia.
  - apply Z.mod_pos_bound; lia.
  - apply Z.div_pos; lia.
  - apply Z.div_lt_upper_bound; lia.
Qed.

Lemma deserialize_uint16_bytes (lo hi : Z) (rest : bytes) :
  is_byte lo -> is_byte hi ->
  0 <= lo + 256 * hi < 2 ^ 16
  /\ serialize_uint16 (lo + 256 * hi) = [lo; hi].
Proof.
  unfold is_byte, serialize_uint16. intros Hlo Hhi. split; [lia|].
  replace (lo + 256 * hi) with (lo + hi * 256) by lia.
  f_equal; [|f_equal].
  - rewrite Z.mod_add by lia. apply Z.mod_small; lia.
  - rewrite Z.div_add by lia. rewrite Z.div_small by lia. reflexivity.
Qed.

Lemma well_formed_cases (self : t) :
  well_formed self ->
  (exists e, self = {| mode := Some AddrMode.IEEE;
                       address := Some (as_EUI64 e) |}
             /\ is_EUI64 e)
  \/ (exists m v, self = {| mode := Some m; address := Some (as_NWK v) |}
                  /\ (m = AddrMode.NWK \/ m = AddrMode.Group
                      \/ m = AddrMode.Broadcast)
                  /\ 0 <= v < 2 ^ 16).
Proof.
  destruct self as [md ad]. intros (m & a & Hm & Ha & H). simpl in *.
  subst md ad.
  destruct H as [(-> & e & -> & He)|(Hmode & v & -> & Hv)]; eauto 8.
Qed.

Lemma serialize_EUI64 (e : EUI64) :
  serialize {| mode := Some AddrMode.IEEE; address := Some (as_EUI64 e) |}
  = Ok (AddrMode.IEEE :: e).
Proof. reflexivity. Qed.

Lemma serialize_NWK (m v : Z) :
  m = AddrMode.NWK \/ m = AddrMode.Group \/ m = AddrMode.Broadcast ->
  0 <= v < 2 ^ 16 ->
  serialize {| mode := Some m; address := Some (as_NWK v) |}
  = Ok (m :: serialize_uint16 v ++ [0; 0; 0; 0; 0; 0]).
Proof.
  intros Hm Hv. unfold serialize. cbn [mode address].
  assert (Hty : _get_address_type (Some m) = Ok NWK_type)
    by (destruct Hm as [-> | [-> | ->]]; reflexivity).
  assert (Hne : negb (m =? AddrMode.IEEE) = true)
    by (destruct Hm as [-> | [-> | ->]]; reflexivity).
  rewrite Hty, Hne. cbn [bind convert serialize_address].
  unfold uint16_t. rewrite uint_t_Ok by exact Hv. reflexivity.
Qed.

(** [deserialize] on 9 bytes or more, by the mode byte. *)
Lemma deserialize_NWK (m lo hi p1 p2 p3 p4 p5 p6 : Z) (rest : bytes) :
  m = AddrMode.NWK \/ m = AddrMode.Group \/ m = AddrMode.Broadcast ->
  deserialize (m :: lo :: hi :: p1 :: p2 :: p3 :: p4 :: p5 :: p6 :: rest)
  = Ok ({| mode := Some m; address := Some (as_NWK (lo + 256 * hi)) |}, rest).
Proof. intros [-> | [-> | ->]]; reflexivity. Qed.

Lemma deserialize_EUI64 (e0 e1 e2 e3 e4 e5 e6 e7 : Z) (rest : bytes) :
  deserialize (AddrMode.IEEE :: e0 :: e1 :: e2 :: e3 :: e4 :: e5 :: e6 :: e7
                 :: rest)
  = Ok ({| mode := Some AddrMode.IEEE;
           address := Some (as_EUI64 [e0; e1; e2; e3; e4; e5; e6; e7]) |},
        rest).
Proof. reflexivity. Qed.

(** X21.  A well-formed [AddrModeAddress] serializes to 9 bytes, and
    [deserialize] reads it back, leaving what follows it. *)
Theorem deserialize_serialize (self : t) (rest : bytes) :
  well_formed self ->
  exists b,
    serialize self = Ok b /\ length b = 9%nat
    /\ deserialize (b ++ rest) = Ok (self, rest).
Proof.
  intros H. apply well_formed_cases in H
    as [(e & -> & [He _])|(m & v & -> & Hm & Hv)].
  - exists (AddrMode.IEEE :: e). split; [apply serialize_EUI64|].
    split; [simpl; rewrite He; reflexivity|].
    destruct e as [|e0 [|e1 [|e2 [|e3 [|e4 [|e5 [|e6 [|e7 [|]]]]]]]]];
      try discriminate.
    apply deserialize_EUI64.
  - exists (m :: serialize_uint16 v ++ [0; 0; 0; 0; 0; 0]).
    split; [apply serialize_NWK; assumption|]. split; [reflexivity|].
    unfold serialize_uint16. cbn [app].
    rewrite deserialize_NWK by exact Hm.
    pose proof (Z.div_mod v 256 ltac:(lia)) as E.
    replace (v mod 256 + 256 * (v / 256)) with v by lia. reflexivity.
Qed.

Lemma of_int_Ok (b m : Z) :
  AddrMode.of_int b = Ok m ->
  m = b /\ (b = AddrMode.NOT_PRESENT \/ b = AddrMode.Group
             \/ b = AddrMode.NWK \/ b = AddrMode.IEEE
             \/ b = AddrMode.Broadcast).
Proof.
  unfold AddrMode.of_int.
  destruct (b =? AddrMode.NOT_PRESENT) eqn:E0;
    [apply Z.eqb_eq in E0; intros [= <-]; auto|].
  destruct (b =? AddrMode.Group) eqn:E1;
    [apply Z.eqb_eq in E1; intros [= <-]; auto|].
  destruct (b =? AddrMode.NWK) eqn:E2;
    [apply Z.eqb_eq in E2; intros [= <-]; auto|].
  destruct (b =? AddrMode.IEEE) eqn:E3;
    [apply Z.eqb_eq in E3; intros [= <-]; auto 6|].
  destruct (b =? AddrMode.Broadcast) eqn:E4;
    [apply Z.eqb_eq in E4; intros [= <-]; auto 6|].
  discriminate.
Qed.

Lemma deserialize_short (data : bytes) :
  (length data < 9)%nat -> exists e, deserialize data = Raise e.
Proof.
  intros Hlen. unfold deserialize.
  destruct data as [|b data]; [eexists; reflexivity|].
  cbn [AddrMode.deserialize].
  destruct (AddrMode.of_int b) as [m|e]; [|eexists; reflexivity].
  cbn [bind]. unfold EUI64_deserialize.
  destruct (length data <? 8)%nat eqn:E; [eexists; reflexivity|].
  apply Nat.ltb_ge in E. simpl in Hlen. lia.
Qed.

Lemma deserialize_NOT_PRESENT (body : bytes) :
  deserialize (AddrMode.NOT_PRESENT :: body) = Raise ValueError.
Proof.
  unfold deserialize. cbn [AddrMode.deserialize].
  change (AddrMode.of_int AddrMode.NOT_PRESENT) with (Ok AddrMode.NOT_PRESENT).
  cbn [bind]. unfold EUI64_deserialize.
  destruct (length body <? 8)%nat eqn:E; [reflexivity|].
  apply Nat.ltb_ge in E. cbn [bind].
  destruct body as [|e0 [|e1 body]]; simpl in E; try lia.
  destruct body as [|e2 [|e3 [|e4 [|e5 [|e6 [|e7 body]]]]]]; simpl in E;
    try lia.
  reflexivity.
Qed.

(** What a completed [deserialize] has read. *)
Lemma deserialize_Ok (data : bytes) (self : t) (rest : bytes) :
  deserialize data = Ok (self, rest) ->
  exists m e0 e1 e2 e3 e4 e5 e6 e7,
    data = m :: e0 :: e1 :: e2 :: e3 :: e4 :: e5 :: e6 :: e7 :: rest
    /\ ((m = AddrMode.IEEE
         /\ self = {| mode := Some AddrMode.IEEE;
                      address :=
                        Some (as_EUI64 [e0; e1; e2; e3; e4; e5; e6; e7]) |})
        \/ ((m = AddrMode.NWK \/ m = AddrMode.Group
             \/ m = AddrMode.Broadcast)
            /\ self = {| mode := Some m;
                         address := Some (as_NWK (e0 + 256 * e1)) |})).
Proof.
  intros H.
  destruct (Nat.lt_ge_cases (length data) 9) as [Hs|Hl].
  { destruct (deserialize_short data Hs) as [e He]. congruence. }
  destruct data as [|m [|e0 [|e1 [|e2 [|e3 [|e4 [|e5 [|e6 [|e7 data]]]]]]]]];
    simpl in Hl; try lia.
  exists m, e0, e1, e2, e3, e4, e5, e6, e7.
  destruct (AddrMode.of_int m) as [m'|e] eqn:E.
  - apply of_int_Ok in E as [_ [-> | [-> | [-> | [-> | ->]]]]].
    + rewrite deserialize_NOT_PRESENT in H. discriminate.
    + rewrite deserialize_NWK in H by auto. injection H as <- <-. auto 6.
    + rewrite deserialize_NWK in H by auto. injection H as <- <-. auto 6.
    + rewrite deserialize_EUI64 in H. injection H as <- <-. auto.
    + rewrite deserialize_NWK in H by auto. injection H as <- <-. auto 6.
  - unfold deserialize in H. cbn [AddrMode.deserialize] in H.
    rewrite E in H. discriminate.
Qed.

(** X23.  [deserialize] completes exactly on a mode byte of [Group], [NWK],
    [IEEE] or [Broadcast] followed by at least eight bytes; it leaves what
    follows the ninth byte.  On the mode byte of [NOT_PRESENT] it raises
    [ValueError], however many bytes follow. *)
Theorem deserialize_completes_iff (data : bytes) :
  Forall is_byte data ->
  ((exists self rest, deserialize data = Ok (self, rest))
   <-> exists m body rest,
         data = m :: body ++ rest /\ length body = 8%nat
         /\ (m = AddrMode.Group \/ m = AddrMode.NWK \/ m = AddrMode.IEEE
             \/ m = AddrMode.Broadcast))
  /\ (forall self rest,
        deserialize data = Ok (self, rest) ->
        length data = (9 + length rest)%nat)
  /\ (forall body,
        data = AddrMode.NOT_PRESENT :: body ->
        deserialize data = Raise ValueError).
Proof.
  intros _. split; [split|split].
  - intros (self & rest & H).
    apply deserialize_Ok in H
      as (m & e0 & e1 & e2 & e3 & e4 & e5 & e6 & e7 & -> & Hm).
    exists m, [e0; e1; e2; e3; e4; e5; e6; e7], rest.
    split; [reflexivity|]. split; [reflexivity|].
    destruct Hm as [[-> _]|[[-> | [-> | ->]] _]]; auto.
  - intros (m & body & rest & -> & Hlen & Hm).
    destruct body as [|e0 [|e1 [|e2 [|e3 [|e4 [|e5 [|e6 [|e7 [|]]]]]]]]];
      try discriminate.
    cbn [app].
    destruct Hm as [-> | [-> | [-> | ->]]].
    + rewrite deserialize_NWK by auto. eauto.
    + rewrite deserialize_NWK by auto. eauto.
    + rewrite deserialize_EUI64. eauto.
    + rewrite deserialize_NWK by auto. eauto.
  - intros self rest H.
    apply deserialize_Ok in H
      as (m & e0 & e1 & e2 & e3 & e4 & e5 & e6 & e7 & -> & _).
    reflexivity.
  - intros body ->. apply deserialize_NOT_PRESENT.
Qed.

(** X22.  Decoding then encoding: what [deserialize] reads from well-formed bytes
    is a well-formed address that [serialize] writes back as the nine bytes
    read, except that outside [IEEE] mode the six bytes after the short
    address come back as zeros. *)
Theorem serialize_deserialize (data : bytes) (self : t) (rest : bytes) :
  Forall is_byte data ->
  deserialize data = Ok (self, rest) ->
  well_formed self
  /\ exists m a0 a1 tail,
       data = m :: a0 :: a1 :: tail ++ rest /\ length tail = 6%nat
       /\ serialize self
          = Ok (m :: a0 :: a1
                  :: (if m =? AddrMode.IEEE then tail
                      else [0; 0; 0; 0; 0; 0])).
Proof.
  intros Hb H.
  apply deserialize_Ok in H
    as (m & e0 & e1 & e2 & e3 & e4 & e5 & e6 & e7 & -> & Hm).
  assert (Hb' : Forall is_byte [e0; e1; e2; e3; e4; e5; e6; e7]).
  { change (Forall is_byte
              ([m] ++ [e0; e1; e2; e3; e4; e5; e6; e7] ++ rest)) in Hb.
    apply Forall_app in Hb as [_ Hb]. apply Forall_app in Hb as [Hb _].
    exact Hb. }
  assert (H0 : is_byte e0) by (inversion Hb'; assumption).
  assert (H1 : is_byte e1)
    by (inversion Hb' as [|? ? _ Hb1]; inversion Hb1; assumption).
  destruct (deserialize_uint16_bytes e0 e1 [] H0 H1) as [Hr Hs].
  destruct Hm as [[-> ->]|[Hm ->]].
  - split.
    + exists AddrMode.IEEE, (as_EUI64 [e0; e1; e2; e3; e4; e5; e6; e7]).
      split; [reflexivity|]. split; [reflexivity|]. left.
      split; [reflexivity|]. eexists. split; [reflexivity|].
      split; [reflexivity | exact Hb'].
    + exists AddrMode.IEEE, e0, e1, [e2; e3; e4; e5; e6; e7].
      split; [reflexivity|]. split; reflexivity.
  - split.
    + exists m, (as_NWK (e0 + 256 * e1)).
      split; [reflexivity|]. split; [reflexivity|]. right.
      split; [exact Hm|]. eexists. split; [reflexivity | exact Hr].
    + exists m, e0, e1, [e2; e3; e4; e5; e6; e7].
      split; [reflexivity|]. split; [reflexivity|].
      rewrite serialize_NWK by assumption. rewrite Hs.
      destruct Hm as [-> | [-> | ->]]; reflexivity.
Qed.

(** X24.  An instance built with an address has a mode, never [NOT_PRESENT],
    and the address is of the kind of that mode: a short address under
    [NWK], [Group] and [Broadcast], an extended address under [IEEE].
    Building one with an address and no mode, or with an address of the
    other kind, raises.  Building an instance from such an instance gives
    the same mode and address again. *)
Theorem new_address_kind (md : option Z) (a : address_value) (self : t) :
  new md (Some a) = Ok self ->
  exists m,
    md = Some m /\ mode self = Some m /\ address self = Some a
    /\ match a with
       | as_EUI64 _ => m = AddrMode.IEEE
       | as_NWK _ =>
           m = AddrMode.NWK \/ m = AddrMode.Group \/ m = AddrMode.Broadcast
       end
    /\ copy self = Ok self.
Proof.
  destruct md as [m|]; unfold new.
  - destruct (m =? AddrMode.NOT_PRESENT) eqn:E0; [discriminate|].
    destruct (AddrMode.of_int m) as [m'|e] eqn:E; [|discriminate].
    apply of_int_Ok in E as [-> Hm]. cbn [bind].
    intros H. exists m. split; [reflexivity|].
    destruct Hm as [-> | [-> | [-> | [-> | ->]]]];
      [discriminate| | | |];
      destruct a as [v|e]; try discriminate; injection H as <-;
      repeat split; auto.
  - cbn [_get_address_type bind]. discriminate.
Qed.

Lemma deserialize_serialize_witness :
  let self := {| mode := Some AddrMode.NWK;
                 address := Some (as_NWK 0x1234) |} in
  well_formed self
  /\ exists b,
       serialize self = Ok b /\ length b = 9%nat
       /\ deserialize (b ++ [7]) = Ok (self, [7]).
Proof.
  cbv zeta.
  assert (Hwf : well_formed {| mode := Some AddrMode.NWK;
                               address := Some (as_NWK 0x1234) |}).
  { exists AddrMode.NWK, (as_NWK 0x1234).
    split; [reflexivity|]. split; [reflexivity|]. right.
    split; [left; reflexivity|]. exists 0x1234. split; [reflexivity | lia]. }
  split; [exact Hwf|].
  exact (deserialize_serialize _ [7] Hwf).
Defined.

Lemma serialize_deserialize_witness :
  let data := [AddrMode.Broadcast; 0xFC; 0xFF; 1; 2; 3; 4; 5; 6; 7] in
  let self := {| mode := Some AddrMode.Broadcast;
                 address := Some (as_NWK 0xFFFC) |} in
  Forall is_byte data
  /\ deserialize data = Ok (self, [7])
  /\ well_formed self
  /\ serialize self = Ok [AddrMode.Broadcast; 0xFC; 0xFF; 0; 0; 0; 0; 0; 0].
Proof.
  cbv zeta.
  assert (Hb : Forall is_byte
                 [AddrMode.Broadcast; 0xFC; 0xFF; 1; 2; 3; 4; 5; 6; 7])
    by (repeat constructor; unfold is_byte, AddrMode.Broadcast; lia).
  assert (Hd : deserialize
                 [AddrMode.Broadcast; 0xFC; 0xFF; 1; 2; 3; 4; 5; 6; 7]
               = Ok ({| mode := Some AddrMode.Broadcast;
                        address := Some (as_NWK 0xFFFC) |}, [7]))
    by reflexivity.
  split; [exact Hb|]. split; [exact Hd|].
  split; [exact (proj1 (serialize_deserialize _ _ _ Hb Hd)) | reflexivity].
Defined.

Lemma deserialize_completes_iff_witness :
  Forall is_byte [AddrMode.NOT_PRESENT; 1; 2; 3; 4; 5; 6; 7; 8]
  /\ deserialize [AddrMode.NOT_PRESENT; 1; 2; 3; 4; 5; 6; 7; 8]
     = Raise ValueError.
Proof.
  assert (Hb : Forall is_byte [AddrMode.NOT_PRESENT; 1; 2; 3; 4; 5; 6; 7; 8])
    by (repeat constructor; unfold is_byte, AddrMode.NOT_PRESENT; lia).
  split; [exact Hb|].
  exact (proj2 (proj2 (deserialize_completes_iff _ Hb)) _ eq_refl).
Defined.

Lemma new_address_kind_witness :
  new (Some AddrMode.IEEE) (Some (as_EUI64 [1; 2; 3; 4; 5; 6; 7; 8]))
  = Ok {| mode := Some AddrMode.IEEE;
          address := Some (as_EUI64 [1; 2; 3; 4; 5; 6; 7; 8]) |}
  /\ exists m,
       Some AddrMode.IEEE = Some m /\ m = AddrMode.IEEE.
Proof.
  assert (H : new (Some AddrMode.IEEE)
                (Some (as_EUI64 [1; 2; 3; 4; 5; 6; 7; 8]))
              = Ok {| mode := Some AddrMode.IEEE;
                      address := Some (as_EUI64 [1; 2; 3; 4; 5; 6; 7; 8]) |})
    by reflexivity.
  split; [exact H|].
  destruct (new_address_kind _ _ _ H) as (m & Hm & _ & _ & Hk & _).
  exists m. split; [exact Hm | exact Hk].
Defined.

End AddrModeAddressFacts.

(** ** Key derivation: rotations of the seed *)

Lemma rotate_rotate {A} (l : list A) (a b : Z) :
  0 <= a -> 0 <= b -> a + b <= Z.of_nat (length l) ->
  rotate (rotate l a) b = rotate l (a + b).
Proof.
  intros Ha Hb Hab.
  destruct (split_at l (a + b)) as (x & c & -> & Hx); [lia|].
  destruct (split_at x a) as (p & q & -> & Hp); [lia|].
  rewrite length_app in Hx.
  assert (Hq : b = Z.of_nat (length q)) by lia.
  rewrite <- app_assoc, Hp, rotate_app.
  rewrite <- app_assoc, Hq, rotate_app.
  replace (Z.of_nat (length p) + Z.of_nat (length q))
    with (Z.of_nat (length (p ++ q))) by (rewrite length_app; lia).
  rewrite app_assoc, rotate_app, <- app_assoc. reflexivity.
Qed.

Lemma rotate_rotate_wrap {A} (l : list A) (a b : Z) :
  0 <= a <= Z.of_nat (length l) -> 0 <= b <= Z.of_nat (length l) ->
  Z.of_nat (length l) <= a + b ->
  rotate (rotate l a) b = rotate l (a + b - Z.of_nat (length l)).
Proof.
  intros Ha Hb Hab.
  remember (a + b - Z.of_nat (length l)) as k eqn:Hk.
  destruct (split_at l a) as (p & q & -> & Hp); [lia|].
  rewrite length_app in Ha, Hb, Hab, Hk.
  destruct (split_at p k) as (p1 & p2 & -> & Hp1); [lia|].
  rewrite length_app in Ha, Hb, Hab, Hk, Hp.
  assert (Eb : b = Z.of_nat (length (q ++ p1)))
    by (rewrite length_app; lia).
  assert (Ea : a = Z.of_nat (length (p1 ++ p2)))
    by (rewrite length_app; lia).
  rewrite Ea, rotate_app, Eb, app_assoc, rotate_app.
  rewrite Hp1, <- app_assoc, rotate_app, <- app_assoc. reflexivity.
Qed.

(** The rotations of a 16-byte seed by 0..15 are those of any rotation of
    it. *)
Lemma rotations_of_rotation (seed target : KeyData) (n : Z) :
  length seed = 16%nat -> 0 <= n <= 15 ->
  (exists s, 0 <= s <= 15 /\ rotate seed s = target)
  <-> (exists s, 0 <= s <= 15 /\ rotate (rotate seed n) s = target).
Proof.
  intros Hlen Hn. split; intros (s & Hs & E).
  - destruct (Z_le_gt_dec n s) as [Hle|Hgt].
    + exists (s - n). split; [lia|].
      rewrite rotate_rotate by (rewrite ?Hlen; lia).
      replace (n + (s - n)) with s by lia. exact E.
    + exists (s - n + 16). split; [lia|].
      rewrite rotate_rotate_wrap by (rewrite Hlen; simpl; lia).
      rewrite Hlen.
      replace (n + (s - n + 16) - Z.of_nat 16) with s by (simpl; lia).
      exact E.
  - destruct (Z_le_gt_dec (n + s) 15) as [Hle|Hgt].
    + exists (n + s). split; [lia|].
      rewrite <- rotate_rotate by (rewrite ?Hlen; simpl; lia). exact E.
    + exists (n + s - 16). split; [lia|].
      rewrite rotate_rotate_wrap in E by (rewrite Hlen; simpl; lia).
      rewrite Hlen in E. exact E.
Qed.

(** [find_key_shift] finds a shift exactly when some rotation of the seed by
    0..15 is the key XORed with the doubled address. *)
Lemma find_key_shift_rotation (ieee : EUI64) (key seed : KeyData) :
  is_EUI64 ieee -> length key = 16%nat -> length seed = 16%nat ->
  find_key_shift ieee key seed <> None
  <-> exists s, 0 <= s <= 15 /\ rotate seed s = xor_zip key (twice ieee).
Proof.
  intros Hi Hk Hs.
  assert (Hx : length (xor_zip key (twice ieee)) = 16%nat)
    by (rewrite xor_zip_length, Hk, twice_length by assumption; reflexivity).
  split.
  - destruct (find_key_shift ieee key seed) as [s|] eqn:E; [|congruence].
    intros _. apply find_key_shift_Some in E as [Hr Hc].
    exists s. split; [exact Hr|]. rewrite <- Hc. unfold compute_seed.
    apply rotate_right_left. rewrite Hx. simpl; lia.
  - intros (s & Hr & E).
    destruct (find_key_shift_least ieee key seed s Hr) as (s' & Hf & _).
    + unfold compute_seed. cbv zeta. rewrite <- E.
      apply rotate_left_right. rewrite Hs. simpl; lia.
    + rewrite Hf. discriminate.
Qed.

Lemma compute_key_length_16 (ieee : EUI64) (seed : KeyData) (shift : Z) :
  is_EUI64 ieee -> length seed = 16%nat ->
  length (compute_key ieee seed shift) = 16%nat.
Proof.
  intros Hi Hs. unfold compute_key; simpl.
  rewrite xor_zip_length, rotate_length, Hs, twice_length by assumption.
  reflexivity.
Qed.

(** ** Key derivation: further properties *)

(** X1.  [compute_key] inverts [compute_seed] at the same shift: the seed
    computed from a key derives that key again. *)
Theorem compute_key_inverts_compute_seed (addr : EUI64) (key : KeyData)
  (shift : Z) :
  is_EUI64 addr -> is_KeyData key -> 0 <= shift <= 15 ->
  compute_key addr (compute_seed addr key shift) shift = key.
Proof.
  intros Ha [Hk _] Hsh. apply compute_key_compute_seed; assumption.
Qed.

Lemma compute_key_inverts_compute_seed_witness :
  is_EUI64 Sample.ieee_a /\ is_KeyData Sample.seed /\ 0 <= 5 <= 15
  /\ compute_key Sample.ieee_a (compute_seed Sample.ieee_a Sample.seed 5) 5
     = Sample.seed.
Proof.
  assert (Ha : is_EUI64 Sample.ieee_a) by solve_bytes.
  assert (Hk : is_KeyData Sample.seed) by solve_bytes.
  assert (Hsh : 0 <= 5 <= 15) by lia.
  split; [exact Ha|]. split; [exact Hk|]. split; [exact Hsh|].
  exact (compute_key_inverts_compute_seed _ _ 5 Ha Hk Hsh).
Defined.

(** X2.  Whatever the shift, in range or not, [compute_key] on an 8-byte address
    and a 16-byte seed builds a 16-byte key, so that [t.KeyData(...)] has
    what it needs, and [compute_seed] on a 16-byte key builds a 16-byte
    seed. *)
Theorem derived_key_and_seed_are_KeyData (addr : EUI64) (data : KeyData)
  (shift : Z) :
  is_EUI64 addr -> is_KeyData data ->
  is_KeyData (compute_key addr data shift)
  /\ is_KeyData (compute_seed addr data shift).
Proof.
  intros Ha Hd. split; [apply compute_key_is_KeyData; assumption|].
  destruct Ha as [Ha Hab]. destruct Hd as [Hd Hdb].
  unfold compute_seed. cbv zeta. split.
  - rewrite rotate_length, xor_zip_length, Hd. unfold twice.
    rewrite length_app, Ha. reflexivity.
  - apply rotate_is_byte, xor_zip_is_byte; [exact Hdb|].
    unfold twice. apply Forall_app. split; exact Hab.
Qed.

Lemma derived_key_and_seed_are_KeyData_witness :
  is_EUI64 Sample.ieee_a /\ is_KeyData Sample.seed
  /\ is_KeyData (compute_key Sample.ieee_a Sample.seed 200)
  /\ is_KeyData (compute_seed Sample.ieee_a Sample.seed (-3)).
Proof.
  assert (Ha : is_EUI64 Sample.ieee_a) by solve_bytes.
  assert (Hk : is_KeyData Sample.seed) by solve_bytes.
  split; [exact Ha|]. split; [exact Hk|]. split.
  - exact (proj1 (derived_key_and_seed_are_KeyData _ _ 200 Ha Hk)).
  - exact (proj2 (derived_key_and_seed_are_KeyData _ _ (-3) Ha Hk)).
Defined.

(** X3.  [find_key_shift] is sound and complete for [compute_key]: a shift it
    returns is in 0..15, derives the key, and is the least that does; it
    returns [None] exactly when no shift in 0..15 derives the key. *)
Theorem find_key_shift_sound_and_complete (addr : EUI64) (key seed : KeyData) :
  is_EUI64 addr -> length key = 16%nat -> length seed = 16%nat ->
  (forall s, find_key_shift addr key seed = Some s ->
             0 <= s <= 15 /\ compute_key addr seed s = key
             /\ forall t, 0 <= t < s -> compute_key addr seed t <> key)
  /\ (find_key_shift addr key seed = None
      <-> forall s, 0 <= s <= 15 -> compute_key addr seed s <> key).
Proof.
  intros Ha Hk Hs.
  assert (Hback : forall s, 0 <= s <= 15 -> compute_key addr seed s = key ->
                            compute_seed addr key s = seed).
  { intros s Hr <-. apply compute_seed_compute_key; assumption. }
  assert (Hsound : forall s, find_key_shift addr key seed = Some s ->
                             0 <= s <= 15 /\ compute_key addr seed s = key).
  { intros s E. apply find_key_shift_Some in E as [Hr <-].
    split; [exact Hr|]. apply compute_key_compute_seed; assumption. }
  split.
  - intros s E. destruct (Hsound s E) as [Hr Hc].
    split; [exact Hr|]. split; [exact Hc|].
    intros t Ht Et.
    destruct (find_key_shift_least addr key seed t) as (s' & Hf & Hs' & _);
      [lia | apply Hback; [lia | exact Et] |].
    rewrite Hf in E. injection E as ->. lia.
  - split.
    + intros E s Hr Hc.
      destruct (find_key_shift_least addr key seed s Hr (Hback s Hr Hc))
        as (s' & Hf & _).
      congruence.
    + intros H. destruct (find_key_shift addr key seed) as [s|] eqn:E;
        [|reflexivity].
      destruct (Hsound s eq_refl) as [Hr Hc]. exfalso. exact (H s Hr Hc).
Qed.

Lemma find_key_shift_sound_and_complete_witness :
  is_EUI64 Sample.ieee_b
  /\ length (compute_key Sample.ieee_b Sample.seed 3) = 16%nat
  /\ length Sample.seed = 16%nat
  /\ find_key_shift Sample.ieee_b (compute_key Sample.ieee_b Sample.seed 3)
       Sample.seed = Some 3
  /\ forall t, 0 <= t < 3 ->
       compute_key Sample.ieee_b Sample.seed t
       <> compute_key Sample.ieee_b Sample.seed 3.
Proof.
  assert (Ha : is_EUI64 Sample.ieee_b) by solve_bytes.
  assert (Hk : length (compute_key Sample.ieee_b Sample.seed 3) = 16%nat)
    by reflexivity.
  assert (Hs : length Sample.seed = 16%nat) by reflexivity.
  assert (Hf : find_key_shift Sample.ieee_b
                 (compute_key Sample.ieee_b Sample.seed 3) Sample.seed
               = Some 3) by reflexivity.
  split; [exact Ha|]. split; [exact Hk|]. split; [exact Hs|].
  split; [exact Hf|].
  exact (proj2 (proj2
    (proj1 (find_key_shift_sound_and_complete _ _ _ Ha Hk Hs) 3 Hf))).
Defined.

(** X4.  Which keys derive from a seed does not depend on how the seed is
    rotated: [find_key_shift] finds a shift against a rotation of the seed
    exactly when it finds one against the seed. *)
Theorem find_key_shift_rotated_seed (addr : EUI64) (key seed : KeyData)
  (n : Z) :
  is_EUI64 addr -> length key = 16%nat -> length seed = 16%nat ->
  0 <= n <= 15 ->
  find_key_shift addr key (rotate seed n) = None
  <-> find_key_shift addr key seed = None.
Proof.
  intros Ha Hk Hs Hn.
  assert (Hs' : length (rotate seed n) = 16%nat)
    by (rewrite rotate_length; exact Hs).
  pose proof (find_key_shift_rotation addr key seed Ha Hk Hs) as H1.
  pose proof (find_key_shift_rotation addr key (rotate seed n) Ha Hk Hs')
    as H2.
  pose proof (rotations_of_rotation seed (xor_zip key (twice addr)) n Hs Hn)
    as H3.
  destruct (find_key_shift addr key seed) as [s|] eqn:E1;
    destruct (find_key_shift addr key (rotate seed n)) as [s'|] eqn:E2;
    split; intros H; try reflexivity; try discriminate; exfalso.
  - apply (proj2 H2); [|reflexivity]. apply H3, H1. discriminate.
  - apply (proj2 H1); [|reflexivity]. apply H3, H2. discriminate.
Qed.

Lemma find_key_shift_rotated_seed_witness :
  is_EUI64 Sample.ieee_a
  /\ length (compute_key Sample.ieee_a Sample.seed 2) = 16%nat
  /\ length Sample.seed = 16%nat /\ 0 <= 7 <= 15
  /\ find_key_shift Sample.ieee_a (compute_key Sample.ieee_a Sample.seed 2)
       Sample.seed = Some 2
  /\ find_key_shift Sample.ieee_a (compute_key Sample.ieee_a Sample.seed 2)
       (rotate Sample.seed 7) <> None.
Proof.
  assert (Ha : is_EUI64 Sample.ieee_a) by solve_bytes.
  assert (Hk : length (compute_key Sample.ieee_a Sample.seed 2) = 16%nat)
    by reflexivity.
  assert (Hs : length Sample.seed = 16%nat) by reflexivity.
  assert (Hn : 0 <= 7 <= 15) by lia.
  split; [exact Ha|]. split; [exact Hk|]. split; [exact Hs|].
  split; [exact Hn|]. split; [reflexivity|].
  intros E.
  apply (proj1 (find_key_shift_rotated_seed _ _ _ 7 Ha Hk Hs Hn)) in E.
  discriminate E.
Defined.

(** ** Seed Optimizer: counts *)

Lemma fold_left_count {A} (f : A -> Z) (l : list A) (acc : Z) :
  fold_left (fun a x => a + f x) l acc
  = acc + fold_left (fun a x => a + f x) l 0.
Proof.
  revert acc; induction l as [|y l IH]; intros acc; simpl; [lia|].
  rewrite (IH (acc + f y)), (IH (f y)). lia.
Qed.

Lemma count_derivable_cons (x : EUI64 * KeyData) (l : list (EUI64 * KeyData))
  (seed : KeyData) :
  count_derivable (x :: l) seed
  = match find_key_shift (fst x) (snd x) seed with
    | Some _ => 1
    | None => 0
    end + count_derivable l seed.
Proof.
  unfold count_derivable. cbn [fold_left].
  rewrite (fold_left_count
             (fun ik => match find_key_shift (fst ik) (snd ik) seed with
                        | Some _ => 1
                        | None => 0
                        end)).
  lia.
Qed.

Lemma count_derivable_all (l : list (EUI64 * KeyData)) (seed : KeyData) :
  (forall ik, In ik l -> find_key_shift (fst ik) (snd ik) seed <> None) ->
  count_derivable l seed = Z.of_nat (length l).
Proof.
  induction l as [|x l IH]; intros H; [reflexivity|].
  rewrite count_derivable_cons, IH
    by (intros ik Hik; apply H; right; assumption).
  specialize (H x (or_introl eq_refl)).
  destruct (find_key_shift (fst x) (snd x) seed); [|congruence].
  simpl length. lia.
Qed.

Lemma count_derivable_pos (l : list (EUI64 * KeyData)) (seed : KeyData)
  (ik : EUI64 * KeyData) :
  In ik l -> find_key_shift (fst ik) (snd ik) seed <> None ->
  1 <= count_derivable l seed.
Proof.
  induction l as [|x l IH]; intros Hin Hf; [destruct Hin|].
  rewrite count_derivable_cons.
  pose proof (count_derivable_bounds l seed) as Hb.
  destruct Hin as [->|Hin].
  - destruct (find_key_shift (fst ik) (snd ik) seed); [lia | congruence].
  - specialize (IH Hin Hf).
    destruct (find_key_shift (fst x) (snd x) seed); lia.
Qed.

(** A pair derives from its own candidate seed, at shift 0. *)
Lemma find_key_shift_own_seed (ik : EUI64 * KeyData) :
  find_key_shift (fst ik) (snd ik) (seed_of ik) = Some 0.
Proof.
  unfold find_key_shift, shift_range, seed_of. cbn [seq map find].
  change (Z.of_nat 0) with 0. rewrite bytes_eqb_refl. reflexivity.
Qed.

Lemma iter_from_candidates (l todo : list (EUI64 * KeyData)) (c : Z)
  (s : bytes) :
  In (c, s) (iter_seed_candidates_from l todo) ->
  exists ik, In ik todo /\ (c, s) = candidate l ik.
Proof.
  induction todo as [|[i k] todo IH]; simpl; [intros []|].
  intros [E|Hin].
  - exists (i, k). split; [left; reflexivity|]. symmetry. exact E.
  - destruct (count_derivable l (compute_seed i k 0)
              =? Z.of_nat (length l)); [destruct Hin|].
    destruct (IH Hin) as (ik & Hik & E). exists ik. split; [right|]; assumption.
Qed.

(** The candidate seed of a pair whose key derives from [seed] is a
    rotation of [seed]. *)
Lemma seed_of_derived (ik : EUI64 * KeyData) (seed : KeyData) (s : Z) :
  is_EUI64 (fst ik) -> length seed = 16%nat ->
  snd ik = compute_key (fst ik) seed s ->
  seed_of ik = rotate seed s.
Proof.
  intros Hi Hs E. unfold seed_of, compute_seed. cbv zeta.
  change (- 0) with 0. rewrite rotate_0, E. unfold compute_key. cbv zeta.
  apply xor_zip_involutive.
  rewrite rotate_length, Hs, twice_length by assumption. lia.
Qed.

(** ** Seed Optimizer: further properties *)

(** X5.  Every candidate [iter_seed_candidates] yields is the seed of one of the
    pairs at shift 0, paired with the number of pairs that derive from it;
    that number is at least 1, the pair itself, and at most the number of
    pairs. *)
Theorem iter_seed_candidates_counts (l : list (EUI64 * KeyData)) (c : Z)
  (s : bytes) :
  In (c, s) (iter_seed_candidates l) ->
  exists ik,
    In ik l /\ s = compute_seed (fst ik) (snd ik) 0
    /\ c = count_derivable l s
    /\ 1 <= c <= Z.of_nat (length l).
Proof.
  intros H. apply iter_from_candidates in H as (ik & Hik & E).
  unfold candidate in E. injection E as -> ->.
  exists ik. split; [exact Hik|]. split; [reflexivity|].
  split; [reflexivity|]. split.
  - apply (count_derivable_pos l _ ik Hik).
    rewrite find_key_shift_own_seed. discriminate.
  - apply count_derivable_bounds.
Qed.

Lemma iter_seed_candidates_counts_witness :
  let l := [(Sample.ieee_a, compute_key Sample.ieee_a Sample.seed 0);
            (Sample.ieee_b, repeat 9 16%nat)] in
  In (1, compute_seed Sample.ieee_b (repeat 9 16%nat) 0)
    (iter_seed_candidates l)
  /\ exists ik,
       In ik l
       /\ compute_seed Sample.ieee_b (repeat 9 16%nat) 0
          = compute_seed (fst ik) (snd ik) 0.
Proof.
  cbv zeta.
  assert (H : In (1, compute_seed Sample.ieee_b (repeat 9 16%nat) 0)
                (iter_seed_candidates
                   [(Sample.ieee_a, compute_key Sample.ieee_a Sample.seed 0);
                    (Sample.ieee_b, repeat 9 16%nat)]))
    by (right; left; reflexivity).
  split; [exact H|].
  destruct (iter_seed_candidates_counts _ _ _ H) as (ik & Hik & E & _).
  exists ik. split; [exact Hik | exact E].
Defined.

Lemma common_seed_chosen (l : list (EUI64 * KeyData)) (seed : KeyData) :
  l <> [] -> length seed = 16%nat ->
  (forall ik, In ik l ->
     is_EUI64 (fst ik)
     /\ exists s, 0 <= s <= 15 /\ snd ik = compute_key (fst ik) seed s) ->
  exists n,
    0 <= n <= 15
    /\ iter_seed_candidates l = [(Z.of_nat (length l), rotate seed n)]
    /\ choose_seed None l = Some (rotate seed n)
    /\ forall ik, In ik l ->
         find_key_shift (fst ik) (snd ik) (rotate seed n) <> None.
Proof.
  intros Hne Hs H. destruct l as [|p post]; [congruence|].
  destruct (H p (or_introl eq_refl)) as (Hi & n & Hn & Ep).
  pose proof (seed_of_derived p seed n Hi Hs Ep) as Eseed.
  assert (Hall : forall ik, In ik (p :: post) ->
                   find_key_shift (fst ik) (snd ik) (rotate seed n) <> None).
  { intros ik Hik. destruct (H ik Hik) as (Hi' & s & Hr & Ek).
    assert (Hk : length (snd ik) = 16%nat)
      by (rewrite Ek; apply compute_key_length_16; assumption).
    assert (Hrot : rotate seed s = xor_zip (snd ik) (twice (fst ik))).
    { rewrite Ek. unfold compute_key. cbv zeta. symmetry.
      apply xor_zip_involutive.
      rewrite rotate_length, Hs, twice_length by assumption. lia. }
    assert (Hs' : length (rotate seed n) = 16%nat)
      by (rewrite rotate_length; exact Hs).
    apply (proj2 (find_key_shift_rotation (fst ik) (snd ik) (rotate seed n)
                    Hi' Hk Hs')).
    apply (proj1 (rotations_of_rotation seed _ n Hs Hn)).
    exists s. split; assumption. }
  assert (Hd : derives_all (p :: post) p).
  { unfold derives_all. rewrite Eseed. apply count_derivable_all, Hall. }
  assert (Hiter : iter_seed_candidates (p :: post)
                  = [(Z.of_nat (length (p :: post)), rotate seed n)]).
  { unfold iter_seed_candidates. rewrite iter_from_all by exact Hd.
    unfold candidate. rewrite Hd, Eseed. reflexivity. }
  exists n. split; [exact Hn|]. split; [exact Hiter|].
  split; [|exact Hall].
  unfold choose_seed. rewrite Hiter. reflexivity.
Qed.

(** X6.  When every key of a non-empty input derives from one 16-byte seed, the
    scan stops at its first candidate: that candidate is a rotation of the
    seed, every key derives from it, and it is the seed chosen. *)
Theorem iter_seed_candidates_common_seed (l : list (EUI64 * KeyData))
  (seed : KeyData) :
  l <> [] -> length seed = 16%nat ->
  (forall ik, In ik l ->
     is_EUI64 (fst ik)
     /\ exists s, 0 <= s <= 15 /\ snd ik = compute_key (fst ik) seed s) ->
  exists n,
    0 <= n <= 15
    /\ iter_seed_candidates l = [(Z.of_nat (length l), rotate seed n)]
    /\ choose_seed None l = Some (rotate seed n)
    /\ forall ik, In ik l ->
         find_key_shift (fst ik) (snd ik) (rotate seed n) <> None.
Proof. exact (common_seed_chosen l seed). Qed.

Lemma iter_seed_candidates_common_seed_witness :
  let l := [(Sample.ieee_b, compute_key Sample.ieee_b Sample.seed 3);
            (Sample.ieee_a, compute_key Sample.ieee_a Sample.seed 0)] in
  l <> [] /\ length Sample.seed = 16%nat
  /\ exists n,
       0 <= n <= 15
       /\ iter_seed_candidates l = [(2, rotate Sample.seed n)]
       /\ choose_seed None l = Some (rotate Sample.seed n).
Proof.
  cbv zeta.
  assert (Hne : [(Sample.ieee_b, compute_key Sample.ieee_b Sample.seed 3);
                 (Sample.ieee_a, compute_key Sample.ieee_a Sample.seed 0)]
                <> []) by discriminate.
  assert (Hs : length Sample.seed = 16%nat) by reflexivity.
  assert (H : forall ik,
             In ik [(Sample.ieee_b, compute_key Sample.ieee_b Sample.seed 3);
                    (Sample.ieee_a, compute_key Sample.ieee_a Sample.seed 0)]
             -> is_EUI64 (fst ik)
                /\ exists s, 0 <= s <= 15
                             /\ snd ik = compute_key (fst ik) Sample.seed s).
  { intros ik [<-|[<-|[]]]; (split; [solve_bytes|]);
      [exists 3 | exists 0]; (split; [lia | reflexivity]). }
  split; [exact Hne|]. split; [exact Hs|].
  destruct (iter_seed_candidates_common_seed _ _ Hne Hs H)
    as (n & Hn & Hiter & Hc & _).
  exists n. split; [exact Hn|]. split; [exact Hiter | exact Hc].
Defined.

(** ** [read_devices]: the devices it returns *)

Lemma dict_set_keys_NoDup (d : dict) (k : EUI64) (v : StoredDevice) :
  NoDup (map fst d) -> NoDup (map fst (dict_set d k v)).
Proof.
  induction d as [|[k' v'] d IH]; simpl; intros Hnd.
  - constructor; [intros [] | constructor].
  - inversion Hnd as [|? ? Hfresh Hrest]; subst.
    destruct (bytes_eqb k' k) eqn:E; simpl; [constructor; assumption|].
    constructor; [|apply IH, Hrest].
    intros Hin. apply in_map_iff in Hin as ([k0 v0] & Ek & Hin).
    simpl in Ek. subst k0.
    apply dict_set_In in Hin as [Eq|Hin].
    + injection Eq as -> _. rewrite bytes_eqb_refl in E. discriminate.
    + apply Hfresh. apply in_map_iff. exists (k', v0). auto.
Qed.

Lemma dict_listed_set (am : list AddrMgrEntry) (devices : dict) (k : EUI64)
  (d : StoredDevice) :
  dict_listed am devices -> ieee d = k -> listed am d ->
  dict_listed am (dict_set devices k d).
Proof.
  intros [Hnd HD] Hk Hd. split; [apply dict_set_keys_NoDup, Hnd|].
  intros k' d' Hin.
  apply dict_set_In in Hin as [E|Hin]; [|apply HD; assumption].
  injection E as -> ->. split; assumption.
Qed.

Lemma new_device_listed (am : list AddrMgrEntry) (entry : AddrMgrEntry)
  (devices devices' : dict) :
  In entry am -> dict_listed am devices ->
  new_device entry devices = Ok devices' ->
  dict_listed am devices'.
Proof.
  intros Hin HD. unfold new_device.
  destruct (nwkAddr entry =? 65535) eqn:E;
    [intros H; injection H as <-; exact HD|].
  destruct ((type entry =? AddrMgrUserType.Assoc)
            || (type entry =?
                Z.lor AddrMgrUserType.Assoc AddrMgrUserType.Security));
    [|discriminate].
  intros H; injection H as <-.
  apply dict_listed_set; [assumption | reflexivity |].
  apply Z.eqb_neq in E. split; [exact E|].
  exists entry. split; [exact Hin|]. split; reflexivity.
Qed.

Lemma attach_hashed_listed (am : list AddrMgrEntry) (seed : option KeyData)
  (item : hashed_item) (devices devices' : dict) :
  dict_listed am devices ->
  attach_hashed seed item devices = Ok devices' ->
  dict_listed am devices'.
Proof.
  intros HD. destruct item as [[[ieee0 tx] rx] key].
  unfold attach_hashed, item_ieee, with_hashed_key. simpl fst.
  intros H. apply bind_Ok in H as (d & Hget & H). injection H as <-.
  apply dict_get_In in Hget. destruct (proj2 HD _ _ Hget) as [Hk Hl].
  apply dict_listed_set; [assumption | exact Hk | exact Hl].
Qed.

(** The loop over the address table stops with [ValueError] at an entry in
    use whose type is neither [Assoc] nor [Assoc | Security]. *)
Lemma new_device_loop_raises (am : list AddrMgrEntry) (entry : AddrMgrEntry) :
  In entry am -> ~ readable_entry entry ->
  forall devices, for_each new_device am devices = Raise ValueError.
Proof.
  intros Hin Hbad.
  induction am as [|x am IH]; [destruct Hin|]. intros devices.
  cbn [for_each].
  destruct (new_device x devices) as [d1|e] eqn:E.
  - cbn [bind]. destruct Hin as [->|Hin]; [|apply IH, Hin].
    exfalso. apply Hbad. unfold new_device in E. unfold readable_entry.
    destruct (nwkAddr entry =? 65535) eqn:E1;
      [left; apply Z.eqb_eq, E1|].
    destruct (type entry =? AddrMgrUserType.Assoc) eqn:E2;
      [right; left; apply Z.eqb_eq, E2|].
    destruct (type entry =?
              Z.lor AddrMgrUserType.Assoc AddrMgrUserType.Security) eqn:E3;
      [right; right; apply Z.eqb_eq, E3 | discriminate].
  - apply new_device_raise in E. subst e. reflexivity.
Qed.

Lemma new_device_loop_completes (am : list AddrMgrEntry) :
  (forall entry, In entry am -> readable_entry entry) ->
  forall devices, exists devices', for_each new_device am devices = Ok devices'.
Proof.
  induction am as [|x am IH]; intros Hok devices; [eexists; reflexivity|].
  cbn [for_each].
  assert (Hx : exists d1, new_device x devices = Ok d1).
  { unfold new_device.
    destruct (nwkAddr x =? 65535) eqn:E1; [eexists; reflexivity|].
    destruct (Hok x (or_introl eq_refl)) as [H|[H|H]].
    - apply Z.eqb_neq in E1. congruence.
    - rewrite H. eexists; reflexivity.
    - rewrite H. eexists; reflexivity. }
  destruct Hx as [d1 ->]. cbn [bind]. apply IH.
  intros entry Hin. apply Hok. right; assumption.
Qed.

(** A generator whose loop body never raises ends normally, having yielded
    the item of every entry it did not skip. *)
Lemma yield_from_completes {E A} (body : E -> result (option A))
  (entries : list E) :
  (forall e, In e entries -> exists r, body e = Ok r) ->
  snd (yield_from body entries) = None
  /\ (forall e a, In e entries -> body e = Ok (Some a) ->
                  In a (fst (yield_from body entries)))
  /\ (forall a, In a (fst (yield_from body entries)) ->
                exists e, In e entries /\ body e = Ok (Some a)).
Proof.
  induction entries as [|x entries IH]; intros H; simpl.
  - split; [reflexivity|]. split; [intros e a [] | intros a []].
  - destruct IH as (IH1 & IH2 & IH3);
      [intros e He; apply H; right; assumption|].
    destruct (H x (or_introl eq_refl)) as [[a0|] Hx]; rewrite Hx; simpl.
    + split; [exact IH1|]. split.
      * intros e a [<-|He] Hb; [left; congruence | right; eauto].
      * intros a [<-|Ha]; [eauto|].
        destruct (IH3 a Ha) as (e & He & Hb). eauto.
    + split; [exact IH1|]. split.
      * intros e a [<-|He] Hb; [congruence | eauto].
      * intros a Ha. destruct (IH3 a Ha) as (e & He & Hb). eauto.
Qed.

(** The loop body of [read_hashed_link_keys] on an entry with an 8-byte
    address, under a 16-byte seed: it skips the entry, or yields the key
    [compute_key] derives at the shift the entry records. *)
Lemma hashed_link_key_item_derived (seed : KeyData) (entry : TCLKDevEntry) :
  length seed = 16%nat -> length (tclk_extAddr entry) = 8%nat ->
  hashed_link_key_item seed entry
  = if bytes_eqb (tclk_extAddr entry) EUI64_zeros then Ok None
    else Ok (Some (tclk_extAddr entry, txFrmCntr entry, rxFrmCntr entry,
                   compute_key (tclk_extAddr entry) seed
                     (SeedShift_IcIndex entry))).
Proof.
  intros Hs Ha. unfold hashed_link_key_item.
  destruct (bytes_eqb (tclk_extAddr entry) EUI64_zeros); [reflexivity|].
  cbv zeta.
  change (xor_zip (rotate seed (SeedShift_IcIndex entry))
            (tclk_extAddr entry ++ tclk_extAddr entry))
    with (compute_key (tclk_extAddr entry) seed (SeedShift_IcIndex entry)).
  rewrite KeyData_deserialize_16; [reflexivity|].
  unfold compute_key. cbv zeta.
  rewrite xor_zip_length, rotate_length, Hs. unfold twice.
  rewrite length_app, Ha. reflexivity.
Qed.

(** A key derived at a shift that is not negative is found again, at a
    shift in 0..15 that derives it. *)
Lemma find_key_shift_key_derived (seed : KeyData) (addr : EUI64)
  (key : KeyData) :
  length seed = 16%nat -> key_derived seed addr key ->
  exists s, find_key_shift addr key seed = Some s
            /\ 0 <= s <= 15 /\ compute_key addr seed s = key.
Proof.
  intros Hs (Hi & shift & Hsh & ->).
  assert (Hre : exists r, 0 <= r <= 15
                  /\ compute_key addr seed shift = compute_key addr seed r).
  { destruct (Z_le_gt_dec shift 15) as [Hle|Hgt].
    - exists shift. split; [lia | reflexivity].
    - exists 0. split; [lia|]. unfold compute_key. cbv zeta.
      rewrite rotate_past_end by (rewrite Hs; simpl; lia).
      rewrite rotate_0. reflexivity. }
  destruct Hre as (r & Hr & ->).
  destruct (find_key_shift_least addr (compute_key addr seed r) seed r Hr)
    as (s & Hf & Hrange & Hc & _);
    [apply compute_seed_compute_key; assumption|].
  exists s. split; [exact Hf|]. split; [lia|].
  rewrite <- Hc at 1. apply compute_key_compute_seed; try assumption; [|lia].
  apply compute_key_length_16; assumption.
Qed.

Section ReadDevicesFacts.

Variable base : Z.

(** The passes of [read_devices], when it completes. *)
Lemma read_devices_passes (nv : nvram) (ds : list StoredDevice) :
  read_devices base nv = Ok ds ->
  exists seed am d1 d2,
    read_tclk_seed nv = Ok seed
    /\ read_addr_mgr_entries nv = Ok am
    /\ for_each new_device am [] = Ok d1
    /\ for_each (attach_hashed seed) (fst (read_hashed_link_keys nv seed)) d1
       = Ok d2
    /\ snd (read_hashed_link_keys nv seed) = None
    /\ ds = dict_values d2.
Proof.
  unfold read_devices. intros H.
  apply bind_Ok in H as (seed & Hseed & H).
  apply bind_Ok in H as (am & Ham & H).
  apply bind_Ok in H as (d1 & H1 & H).
  apply bind_Ok in H as (d2 & H2 & H).
  apply bind_Ok in H as (d3 & H3 & H).
  injection H as <-.
  apply unhashed_pass_unchanged in H3. subst d3.
  unfold for_generator in H2. apply bind_Ok in H2 as (d2' & H2 & Hend).
  destruct (snd (read_hashed_link_keys nv seed)) eqn:Es; [discriminate|].
  injection Hend as ->.
  exists seed, am, d1, d2. auto 7.
Qed.

(** X8.  The devices [read_devices] returns have pairwise distinct addresses,
    and each stands for an entry of the address table that is in use: its
    address and its short address are those of the entry, and the short
    address is not the sentinel 0xFFFF. *)
Theorem read_devices_distinct_listed (nv : nvram) (ds : list StoredDevice) :
  read_devices base nv = Ok ds ->
  NoDup (map ieee ds)
  /\ exists am,
       read_addr_mgr_entries nv = Ok am
       /\ forall d, In d ds -> listed am d.
Proof.
  intros H.
  apply read_devices_passes in H
    as (seed & am & d1 & d2 & _ & Ham & H1 & H2 & _ & ->).
  assert (Inv1 : dict_listed am d1).
  { eapply (for_each_invariant (dict_listed am)); [| |exact H1].
    - intros x t t' Hx. apply new_device_listed, Hx.
    - split; [constructor | intros k d []]. }
  assert (Inv2 : dict_listed am d2).
  { eapply (for_each_invariant (dict_listed am)); [|exact Inv1|exact H2].
    intros x t t' _. apply attach_hashed_listed. }
  destruct Inv2 as [Hnd HD]. split.
  - unfold dict_values. rewrite map_map.
    replace (map (fun x => ieee (snd x)) d2) with (map fst d2); [exact Hnd|].
    apply map_ext_in. intros [k d] Hin. simpl.
    symmetry. apply (HD k d Hin).
  - exists am. split; [exact Ham|]. intros d Hd.
    unfold dict_values in Hd. apply in_map_iff in Hd as ([k d'] & <- & Hin).
    apply (HD k d' Hin).
Qed.

Lemma dict_get_raise (d : dict) (k : EUI64) (e : exn) :
  dict_get d k = Raise e -> e = KeyError.
Proof.
  induction d as [|[k' v] d IH]; simpl; [congruence|].
  destruct (bytes_eqb k' k); [discriminate | exact IH].
Qed.

(** The hashed pass stops with [KeyError] at an item whose address is no
    key of the dictionary. *)
Lemma attach_hashed_loop_raises (seed : option KeyData)
  (items : list hashed_item) (it : hashed_item) :
  In it items ->
  forall devices,
    ~ In (item_ieee it) (map fst devices) ->
    for_each (attach_hashed seed) items devices = Raise KeyError.
Proof.
  intros Hin. induction items as [|x items IH]; [destruct Hin|].
  intros devices Hnot. cbn [for_each]. unfold attach_hashed at 1.
  destruct (dict_get devices (item_ieee x)) as [v|e] eqn:E.
  - cbn [bind]. apply dict_get_In in E.
    assert (Hkey : In (item_ieee x) (map fst devices))
      by (apply in_map_iff; exists (item_ieee x, v); auto).
    destruct Hin as [->|Hin]; [contradiction|].
    apply IH; [exact Hin|].
    rewrite dict_set_keys_present by exact Hkey. exact Hnot.
  - apply dict_get_raise in E. subst e. reflexivity.
Qed.

(** X9.  [read_devices] accepts two types of address entries.  An entry in use
    (its short address is not 0xFFFF) of another type, anywhere in the
    address table, makes it raise [ValueError], once the seed and the
    address table have been read. *)
Theorem read_devices_unexpected_entry_type (nv : nvram)
  (seed : option KeyData) (am : list AddrMgrEntry) (entry : AddrMgrEntry) :
  read_tclk_seed nv = Ok seed -> read_addr_mgr_entries nv = Ok am ->
  In entry am -> ~ readable_entry entry ->
  read_devices base nv = Raise ValueError.
Proof.
  intros Hseed Ham Hin Hbad. unfold read_devices.
  rewrite Hseed. cbn [bind]. rewrite Ham. cbn [bind].
  rewrite (new_device_loop_raises am entry Hin Hbad). reflexivity.
Qed.

(** X10.  A hashed-key entry for an address that no entry in use of the address
    table carries makes [read_devices] raise [KeyError]: the key has no
    device to go to.  This is on firmware newer than 1.2, with a 16-byte
    seed and tables that are disclosed and otherwise readable. *)
Theorem read_devices_unlisted_hashed_address (nv : nvram) (seed : KeyData)
  (am : list AddrMgrEntry) (e : TCLKDevEntry) :
  version nv <> Z_Stack_1_2 ->
  (forall i, secured nv i = false) ->
  tclk_seed nv = Some seed -> length seed = 16%nat ->
  addr_table nv = Some am ->
  (forall a, In a am -> readable_entry a) ->
  (forall x, In x (tclk_table nv) -> length (tclk_extAddr x) = 8%nat) ->
  In e (tclk_table nv) -> tclk_extAddr e <> EUI64_zeros ->
  (forall a, In a am -> nwkAddr a <> 0xFFFF -> extAddr a <> tclk_extAddr e) ->
  read_devices base nv = Raise KeyError.
Proof.
  intros Hfw Hdis Hseed Hlen Ham Hok Htab He Hnz Hun.
  assert (R1 : read_tclk_seed nv = Ok (Some seed)).
  { unfold read_tclk_seed, osal_read. rewrite Hdis, Hseed.
    destruct (version nv); [congruence | reflexivity | reflexivity]. }
  assert (R2 : read_addr_mgr_entries nv = Ok am)
    by (rewrite addr_table_read, Hdis, Ham; reflexivity).
  destruct (new_device_loop_completes am Hok []) as [D R3].
  assert (Inv : dict_listed am D).
  { eapply (for_each_invariant (dict_listed am)); [| |exact R3].
    - intros x t t' Hx. apply new_device_listed, Hx.
    - split; [constructor | intros k d []]. }
  assert (R4 : read_hashed_link_keys nv (Some seed)
               = yield_from (hashed_link_key_item seed) (tclk_table nv)).
  { unfold read_hashed_link_keys. rewrite tclk_table_read, Hdis.
    reflexivity. }
  destruct (yield_from_completes (hashed_link_key_item seed) (tclk_table nv))
    as (_ & Hyield & _).
  { intros x Hx. rewrite hashed_link_key_item_derived by auto.
    destruct (bytes_eqb (tclk_extAddr x) EUI64_zeros); eexists; reflexivity. }
  pose proof (hashed_link_key_item_derived seed e Hlen (Htab e He)) as Hbody.
  apply bytes_eqb_neq in Hnz. rewrite Hnz in Hbody.
  specialize (Hyield e _ He Hbody).
  unfold read_devices. rewrite R1. cbn [bind]. rewrite R2. cbn [bind].
  rewrite R3. cbn [bind]. unfold for_generator at 1. rewrite R4.
  rewrite (attach_hashed_loop_raises (Some seed) _ _ Hyield); [reflexivity|].
  unfold item_ieee. cbn [fst]. intros Hkey.
  apply in_map_iff in Hkey as ([k d] & Ek & Hkd). simpl in Ek. subst k.
  destruct (proj2 Inv _ _ Hkd) as [Hk (Hnwk & a & Ha & Ea & En)].
  apply (Hun a Ha); congruence.
Qed.

(** X11.  Every key [read_devices] returns derives from the stored seed: there
    is a shift in 0..15, the one [find_key_shift] finds on the bytes of
    the seed, at which [compute_key] gives the key from the address of the
    device and the seed.  This is for a 16-byte seed and a hashed-key table
    whose entries have 8-byte addresses and shifts that are not negative;
    the shift need not be the one the entry records. *)
Theorem read_devices_keys_derive_from_seed (nv : nvram) (seed : KeyData)
  (ds : list StoredDevice) (d : StoredDevice) (key : KeyData) :
  read_devices base nv = Ok ds ->
  tclk_seed nv = Some seed -> length seed = 16%nat ->
  (forall x, In x (tclk_table nv) ->
             is_EUI64 (tclk_extAddr x) /\ 0 <= SeedShift_IcIndex x) ->
  In d ds -> aps_link_key d = Some key ->
  exists s,
    find_key_shift (ieee d) key seed = Some s /\ 0 <= s <= 15
    /\ compute_key (ieee d) seed s = key.
Proof.
  intros H Hseed Hlen Htab Hd Hkey.
  apply read_devices_passes in H
    as (seed0 & am & d1 & d2 & R1 & _ & H1 & H2 & Hend & ->).
  set (P := fun D : dict =>
              forall k x, In (k, x) D ->
                ieee x = k
                /\ forall key0, aps_link_key x = Some key0 ->
                      key_derived seed (ieee x) key0).
  assert (Inv1 : P d1).
  { eapply (for_each_invariant P); [| |exact H1].
    - intros entry t t' _ Ht. unfold new_device.
      destruct (nwkAddr entry =? 65535);
        [intros E; injection E as <-; exact Ht|].
      destruct ((type entry =? AddrMgrUserType.Assoc)
                || (type entry =?
                    Z.lor AddrMgrUserType.Assoc AddrMgrUserType.Security));
        [|discriminate].
      intros E; injection E as <-. intros k x Hin.
      apply dict_set_In in Hin as [E|Hin]; [|apply Ht; assumption].
      injection E as -> ->. split; [reflexivity|]. discriminate.
    - intros k x []. }
  assert (Inv2 : P d2).
  { destruct seed0 as [sd|];
      [|simpl in H2; injection H2 as <-; exact Inv1].
    apply read_tclk_seed_stored in R1.
    assert (sd = seed) by congruence. subst sd.
    unfold read_hashed_link_keys in H2, Hend.
    rewrite tclk_table_read in H2, Hend.
    destruct (secured nv (tclk_table_id (version nv)));
      [discriminate Hend|].
    destruct (yield_from_completes (hashed_link_key_item seed)
                (tclk_table nv)) as (_ & _ & Hitems).
    { intros x Hx. destruct (Htab x Hx) as [[Hl _] _].
      rewrite hashed_link_key_item_derived by assumption.
      destruct (bytes_eqb (tclk_extAddr x) EUI64_zeros);
        eexists; reflexivity. }
    eapply (for_each_invariant P); [|exact Inv1|exact H2].
    intros it t t' Hit Ht.
    destruct (Hitems it Hit) as (x & Hx & Hbody).
    destruct (Htab x Hx) as [Hi Hsh].
    rewrite hashed_link_key_item_derived in Hbody by (assumption || apply Hi).
    destruct (bytes_eqb (tclk_extAddr x) EUI64_zeros); [discriminate|].
    injection Hbody as <-.
    unfold attach_hashed, item_ieee, with_hashed_key. cbn [fst].
    intros E. apply bind_Ok in E as (v & Hget & E). injection E as <-.
    apply dict_get_In in Hget. destruct (Ht _ _ Hget) as [Hk _].
    intros k y Hin.
    apply dict_set_In in Hin as [E|Hin]; [|apply Ht; assumption].
    injection E as -> ->. cbn [ieee aps_link_key].
    split; [exact Hk|].
    intros key0 E. injection E as <-. rewrite Hk.
    split; [exact Hi|]. exists (SeedShift_IcIndex x).
    split; [exact Hsh | reflexivity]. }
  unfold dict_values in Hd. apply in_map_iff in Hd as ([k x] & <- & Hin).
  destruct (Inv2 _ _ Hin) as [_ Hx]. cbn [snd] in *.
  exact (find_key_shift_key_derived seed _ key Hlen (Hx key Hkey)).
Qed.

End ReadDevicesFacts.

Lemma read_devices_distinct_listed_witness :
  let d := {| ieee := Sample.ieee_a; nwk := 0x1234;
              hashed_link_key_shift := None;
              aps_link_key :=
                Some (compute_key Sample.ieee_a Sample.seed 0);
              tx_counter := Some 10; rx_counter := Some 20 |} in
  read_devices Sample.legacy_start Sample.store_with_stale_shift = Ok [d]
  /\ NoDup (map ieee [d]).
Proof.
  cbv zeta.
  assert (H : read_devices Sample.legacy_start Sample.store_with_stale_shift
              = Ok [{| ieee := Sample.ieee_a; nwk := 0x1234;
                       hashed_link_key_shift := None;
                       aps_link_key :=
                         Some (compute_key Sample.ieee_a Sample.seed 0);
                       tx_counter := Some 10; rx_counter := Some 20 |}])
    by reflexivity.
  split; [exact H|].
  exact (proj1 (read_devices_distinct_listed _ _ _ H)).
Defined.

Lemma read_devices_unexpected_entry_type_witness :
  let am := [RegistrySample.addr_entry AddrMgrUserType.Assoc 0x1234
               Sample.ieee_a;
             RegistrySample.addr_entry AddrMgrUserType.Binding 0x2345
               Sample.ieee_b] in
  let nv := RegistrySample.store_of Z_Stack_3_0 am [] in
  read_tclk_seed nv = Ok (Some Sample.seed)
  /\ read_addr_mgr_entries nv = Ok am
  /\ ~ readable_entry
        (RegistrySample.addr_entry AddrMgrUserType.Binding 0x2345
           Sample.ieee_b)
  /\ read_devices Sample.legacy_start nv = Raise ValueError.
Proof.
  cbv zeta.
  set (am := [RegistrySample.addr_entry AddrMgrUserType.Assoc 0x1234
                Sample.ieee_a;
              RegistrySample.addr_entry AddrMgrUserType.Binding 0x2345
                Sample.ieee_b]).
  assert (Hseed : read_tclk_seed (RegistrySample.store_of Z_Stack_3_0 am [])
                  = Ok (Some Sample.seed)) by reflexivity.
  assert (Ham : read_addr_mgr_entries
                  (RegistrySample.store_of Z_Stack_3_0 am []) = Ok am)
    by reflexivity.
  assert (Hin : In (RegistrySample.addr_entry AddrMgrUserType.Binding 0x2345
                      Sample.ieee_b) am) by (right; left; reflexivity).
  assert (Hbad : ~ readable_entry
                     (RegistrySample.addr_entry AddrMgrUserType.Binding
                        0x2345 Sample.ieee_b))
    by (intros [H|[H|H]]; discriminate H).
  split; [exact Hseed|]. split; [exact Ham|]. split; [exact Hbad|].
  exact (read_devices_unexpected_entry_type Sample.legacy_start _ _ _ _
           Hseed Ham Hin Hbad).
Defined.

Lemma read_devices_unlisted_hashed_address_witness :
  let am := [RegistrySample.addr_entry AddrMgrUserType.Assoc 0x1234
               Sample.ieee_a] in
  let e := RegistrySample.tclk_entry Sample.ieee_b 3 in
  let nv := RegistrySample.store_of Z_Stack_3_30 am [e] in
  version nv <> Z_Stack_1_2
  /\ addr_table nv = Some am
  /\ In e (tclk_table nv)
  /\ tclk_extAddr e <> EUI64_zeros
  /\ read_devices Sample.legacy_start nv = Raise KeyError.
Proof.
  cbv zeta.
  set (am := [RegistrySample.addr_entry AddrMgrUserType.Assoc 0x1234
                Sample.ieee_a]).
  set (e := RegistrySample.tclk_entry Sample.ieee_b 3).
  set (nv := RegistrySample.store_of Z_Stack_3_30 am [e]).
  assert (Hfw : version nv <> Z_Stack_1_2) by discriminate.
  assert (Hdis : forall i, secured nv i = false) by reflexivity.
  assert (Hseed : tclk_seed nv = Some Sample.seed) by reflexivity.
  assert (Hlen : length Sample.seed = 16%nat) by reflexivity.
  assert (Ham : addr_table nv = Some am) by reflexivity.
  assert (Hok : forall a, In a am -> readable_entry a)
    by (intros a [<-|[]]; right; left; reflexivity).
  assert (Htab : forall x, In x (tclk_table nv) ->
                           length (tclk_extAddr x) = 8%nat)
    by (intros x [<-|[]]; reflexivity).
  assert (He : In e (tclk_table nv)) by (left; reflexivity).
  assert (Hnz : tclk_extAddr e <> EUI64_zeros) by discriminate.
  assert (Hun : forall a, In a am -> nwkAddr a <> 0xFFFF ->
                          extAddr a <> tclk_extAddr e)
    by (intros a [<-|[]] _; discriminate).
  split; [exact Hfw|]. split; [exact Ham|]. split; [exact He|].
  split; [exact Hnz|].
  exact (read_devices_unlisted_hashed_address Sample.legacy_start nv _ am e
           Hfw Hdis Hseed Hlen Ham Hok Htab He Hnz Hun).
Defined.

Lemma read_devices_keys_derive_from_seed_witness :
  let d := {| ieee := Sample.ieee_a; nwk := 0x1234;
              hashed_link_key_shift := None;
              aps_link_key :=
                Some (compute_key Sample.ieee_a Sample.seed 19);
              tx_counter := Some 10; rx_counter := Some 20 |} in
  let nv := Sample.store_with_stale_shift in
  read_devices Sample.legacy_start nv = Ok [d]
  /\ tclk_seed nv = Some Sample.seed
  /\ In (RegistrySample.tclk_entry Sample.ieee_a 19) (tclk_table nv)
  /\ exists s,
       find_key_shift Sample.ieee_a
         (compute_key Sample.ieee_a Sample.seed 19) Sample.seed = Some s
       /\ 0 <= s <= 15
       /\ compute_key Sample.ieee_a Sample.seed s
          = compute_key Sample.ieee_a Sample.seed 19.
Proof.
  cbv zeta.
  set (d := {| ieee := Sample.ieee_a; nwk := 0x1234;
               hashed_link_key_shift := None;
               aps_link_key :=
                 Some (compute_key Sample.ieee_a Sample.seed 19);
               tx_counter := Some 10; rx_counter := Some 20 |}).
  assert (H : read_devices Sample.legacy_start Sample.store_with_stale_shift
              = Ok [d]) by reflexivity.
  assert (Hseed : tclk_seed Sample.store_with_stale_shift = Some Sample.seed)
    by reflexivity.
  assert (Hlen : length Sample.seed = 16%nat) by reflexivity.
  assert (Htab : forall x, In x (tclk_table Sample.store_with_stale_shift) ->
                   is_EUI64 (tclk_extAddr x) /\ 0 <= SeedShift_IcIndex x).
  { intros x [<-|[<-|[]]]; (split; [solve_bytes | simpl; lia]). }
  assert (Hd : In d [d]) by (left; reflexivity).
  assert (Hkey : aps_link_key d
                 = Some (compute_key Sample.ieee_a Sample.seed 19))
    by reflexivity.
  split; [exact H|]. split; [exact Hseed|].
  split; [left; reflexivity|].
  exact (read_devices_keys_derive_from_seed Sample.legacy_start _ _ _ d _
           H Hseed Hlen Htab Hd Hkey).
Defined.

(** ** Writing the address table *)

(** Every entry [write_addr_manager_entries] writes, and the fill entry, is
    one that [read_devices] accepts. *)
Lemma written_entries_readable (ds : list StoredDevice) (m : nat)
  (entry : AddrMgrEntry) :
  In entry (pad (map addr_mgr_entry_of ds) EMPTY_ADDR_MGR_ENTRY m) ->
  readable_entry entry.
Proof.
  unfold pad. intros Hin. apply in_app_or in Hin as [Hin|Hin].
  - apply in_map_iff in Hin as (d & <- & _).
    unfold readable_entry, addr_mgr_entry_of. cbn [type nwkAddr].
    destruct (truthy (aps_link_key d)); [right; right | right; left];
      reflexivity.
  - apply repeat_spec in Hin. subst entry. left. reflexivity.
Qed.

(** X12.  On firmware older than 3.30 the address table is one array whose length
    is kept.  [write_addr_manager_entries] puts the entries of the devices
    at its head and the empty entry in every other place when the devices
    fit, and raises [IndexError], writing nothing, when there are more
    devices than places. *)
Theorem write_addr_manager_entries_keeps_length (ds : list StoredDevice)
  (s : session) (old : list AddrMgrEntry) :
  version (store s) <> Z_Stack_3_30 ->
  osal_read ADDRMGR addrmgr (store s) = Ok old ->
  ((length ds <= length old)%nat ->
   exists new,
     write_addr_manager_entries ds s
     = (Ok tt, {| store := set_addrmgr new (store s);
                  written := written s ++ [ADDRMGR] |})
     /\ new = map addr_mgr_entry_of ds
              ++ repeat EMPTY_ADDR_MGR_ENTRY (length old - length ds)
     /\ length new = length old)
  /\ ((length old < length ds)%nat ->
      write_addr_manager_entries ds s = (Raise IndexError, s)).
Proof.
  intros Hfw Hold.
  assert (Hv : (version_number (version (store s)) >=? 330) = false)
    by (destruct (version (store s)); [reflexivity | reflexivity | congruence]).
  assert (Hloop :
    for_each (fun ie new_entries =>
                setitem new_entries (Z.to_nat (fst ie)) (snd ie))
      (enumerate (map addr_mgr_entry_of ds))
      (repeat EMPTY_ADDR_MGR_ENTRY (length old))
    = if (length (map addr_mgr_entry_of ds) <=? length old)%nat
      then Ok (map addr_mgr_entry_of ds
                 ++ repeat EMPTY_ADDR_MGR_ENTRY
                      (length old - length (map addr_mgr_entry_of ds)))
      else Raise IndexError).
  { exact (setitem_loop EMPTY_ADDR_MGR_ENTRY (map addr_mgr_entry_of ds) []
             (length old)). }
  rewrite length_map in Hloop.
  unfold write_addr_manager_entries. rewrite Hv.
  unfold seq_stmt, reading. rewrite Hold, Hloop.
  split; intros Hlen.
  - apply Nat.leb_le in Hlen as Hle. rewrite Hle.
    eexists. split; [reflexivity|]. split; [reflexivity|].
    rewrite length_app, length_map, repeat_length. lia.
  - apply Nat.leb_gt in Hlen as Hgt. rewrite Hgt. reflexivity.
Qed.

Lemma write_addr_manager_entries_keeps_length_witness :
  let s := Sample.session_of
             (Sample.empty_store Z_Stack_3_0 (Some Sample.seed)
                Sample.disclosed [0; 0]) in
  let five := Sample.hashed_devices ++ Sample.hashed_devices
              ++ [Sample.unhashed_device] in
  version (store s) <> Z_Stack_3_30
  /\ osal_read ADDRMGR addrmgr (store s)
     = Ok (repeat EMPTY_ADDR_MGR_ENTRY 4)
  /\ Nat.lt (length (repeat EMPTY_ADDR_MGR_ENTRY 4)) (length five)
  /\ write_addr_manager_entries five s = (Raise IndexError, s).
Proof.
  cbv zeta.
  set (s := Sample.session_of
              (Sample.empty_store Z_Stack_3_0 (Some Sample.seed)
                 Sample.disclosed [0; 0])).
  assert (Hfw : version (store s) <> Z_Stack_3_30) by discriminate.
  assert (Hold : osal_read ADDRMGR addrmgr (store s)
                 = Ok (repeat EMPTY_ADDR_MGR_ENTRY 4)) by reflexivity.
  assert (Hlen : Nat.lt (length (repeat EMPTY_ADDR_MGR_ENTRY 4))
                   (length (Sample.hashed_devices ++ Sample.hashed_devices
                            ++ [Sample.unhashed_device])))
    by (unfold Nat.lt; simpl; lia).
  split; [exact Hfw|]. split; [exact Hold|]. split; [exact Hlen|].
  exact (proj2 (write_addr_manager_entries_keeps_length _ s _ Hfw Hold) Hlen).
Defined.

(** X13.  What [write_addr_manager_entries] has written, [read_devices] can read:
    after a completed write the address table is disclosed as the entries
    of the devices followed by empty entries, and the loop of
    [read_devices] over it completes, whatever the devices; its
    [ValueError] is out of reach. *)
Theorem written_addr_manager_entries_are_read (ds : list StoredDevice)
  (s s' : session) :
  write_addr_manager_entries ds s = (Ok tt, s') ->
  secured (store s) (addr_table_id (version (store s))) = false ->
  exists m,
    read_addr_mgr_entries (store s')
    = Ok (map addr_mgr_entry_of ds ++ repeat EMPTY_ADDR_MGR_ENTRY m)
    /\ forall devices,
         exists devices',
           for_each new_device
             (map addr_mgr_entry_of ds ++ repeat EMPTY_ADDR_MGR_ENTRY m)
             devices
           = Ok devices'.
Proof.
  intros H Hsec.
  apply write_addr_manager_entries_Ok in H as (old & _ & _ & ->).
  exists (length old - length (map addr_mgr_entry_of ds))%nat. split.
  - rewrite addr_table_read. cbn [store].
    destruct (version (store s)) eqn:Ev;
      unfold addr_table, addr_table_id in *;
      cbn [version_number Z.geb Z.compare Pos.compare Pos.compare_cont] in *;
      cbn [version secured addrmgr ex_addrmgr set_addrmgr set_ex_addrmgr];
      rewrite Ev;
      cbn [version_number Z.geb Z.compare Pos.compare Pos.compare_cont];
      rewrite Hsec; reflexivity.
  - apply new_device_loop_completes. intros entry Hin.
    apply (written_entries_readable ds (length old)). exact Hin.
Qed.

Lemma written_addr_manager_entries_are_read_witness :
  let s := Sample.session_of
             (Sample.empty_store Z_Stack_3_30 (Some Sample.seed)
                Sample.disclosed [0; 0]) in
  exists s',
    write_addr_manager_entries Sample.hashed_devices s = (Ok tt, s')
    /\ secured (store s) (addr_table_id (version (store s))) = false
    /\ exists m,
         read_addr_mgr_entries (store s')
         = Ok (map addr_mgr_entry_of Sample.hashed_devices
                 ++ repeat EMPTY_ADDR_MGR_ENTRY m).
Proof.
  cbv zeta.
  set (s := Sample.session_of
              (Sample.empty_store Z_Stack_3_30 (Some Sample.seed)
                 Sample.disclosed [0; 0])).
  eexists.
  assert (H : write_addr_manager_entries Sample.hashed_devices s
              = (Ok tt,
                 snd (write_addr_manager_entries Sample.hashed_devices s)))
    by reflexivity.
  assert (Hsec : secured (store s) (addr_table_id (version (store s)))
                 = false) by reflexivity.
  split; [exact H|]. split; [exact Hsec|].
  destruct (written_addr_manager_entries_are_read _ s _ H Hsec)
    as (m & Hr & _).
  exists m. exact Hr.
Defined.

(** ** [write_devices]: a key without its counter *)

Section WriteDevicesExtras.

Variable base : Z.

Lemma build_loop_missing_counter (fw : firmware) (inc : Z)
  (seed : option KeyData) (pre post : list StoredDevice) (d : StoredDevice) :
  (forall x, In x pre -> keyed x = false) ->
  keyed d = true -> tx_counter d = None ->
  forall n acc,
    for_each (build_entry base fw inc seed)
      (enumerate_from n (pre ++ d :: post)) acc
    = Raise TypeError.
Proof.
  intros Hpre Hd Htx.
  induction pre as [|x pre IH]; intros n acc.
  - cbn [app enumerate_from for_each].
    destruct acc as [[h k] l]. unfold build_entry at 1.
    unfold keyed in Hd.
    destruct (truthy (aps_link_key d)) as [key|]; [|discriminate].
    rewrite Htx.
    destruct (find_key_shift_in (ieee d) key seed); reflexivity.
  - cbn [app enumerate_from for_each].
    rewrite build_entry_not_keyed by (apply Hpre; left; reflexivity).
    cbn [bind]. apply IH. intros y Hy. apply Hpre. right; assumption.
Qed.

(** X14.  A [StoredDevice] has no counters unless they are given.  When the
    first device with a key has no [tx_counter], [write_devices] raises
    [TypeError], from adding [counter_increment] to [None], and writes
    nothing, whether or not the key derives from the seed. *)
Theorem write_devices_missing_tx_counter (pre post : list StoredDevice)
  (d : StoredDevice) (inc : Z) (sarg : option KeyData) (s : session) :
  (forall x, In x pre -> keyed x = false) ->
  keyed d = true -> tx_counter d = None ->
  write_devices base (pre ++ d :: post) inc sarg s = (Raise TypeError, s).
Proof.
  intros Hpre Hd Htx. rewrite write_devices_phases.
  unfold build_tables, enumerate.
  rewrite build_loop_missing_counter by assumption. reflexivity.
Qed.

End WriteDevicesExtras.

Lemma write_devices_missing_tx_counter_witness :
  let s := Sample.session_of
             (Sample.empty_store Z_Stack_3_30 (Some Sample.seed)
                Sample.disclosed [0; 0; 0; 0; 0; 0; 0]) in
  let blank := Sample.device Sample.ieee_a 0x1234 None None None in
  let d := Sample.device Sample.ieee_b 0x2345
             (Some (compute_key Sample.ieee_b Sample.seed 3)) None None in
  keyed blank = false /\ keyed d = true /\ tx_counter d = None
  /\ write_devices Sample.legacy_start ([blank] ++ d :: [])
       default_counter_increment None s
     = (Raise TypeError, s).
Proof.
  cbv zeta.
  set (blank := Sample.device Sample.ieee_a 0x1234 None None None).
  set (d := Sample.device Sample.ieee_b 0x2345
              (Some (compute_key Sample.ieee_b Sample.seed 3)) None None).
  assert (Hpre : forall x, In x [blank] -> keyed x = false)
    by (intros x [<-|[]]; reflexivity).
  assert (Hd : keyed d = true) by reflexivity.
  assert (Htx : tx_counter d = None) by reflexivity.
  split; [reflexivity|]. split; [exact Hd|]. split; [exact Htx|].
  exact (write_devices_missing_tx_counter Sample.legacy_start [blank] [] d
           default_counter_increment None _ Hpre Hd Htx).
Defined.

(** ** Reading back the whole registry *)

(** A dictionary whose keys are the addresses of [ds], in order, holds the
    values its lookups give. *)
Lemma dict_values_by_lookup (D : dict) (ds : list StoredDevice)
  (f : StoredDevice -> StoredDevice) :
  map fst D = map ieee ds -> NoDup (map ieee ds) ->
  (forall d, In d ds -> dict_get D (ieee d) = Ok (f d)) ->
  dict_values D = map f ds.
Proof.
  unfold dict_values. revert ds.
  induction D as [|[k v] D IH]; intros [|d ds] Hk Hnd Hget;
    try discriminate Hk; [reflexivity|].
  cbn [map fst] in Hk. injection Hk as Ek Hk. subst k.
  cbn [map] in Hnd. inversion Hnd as [|? ? Hfresh Hnd']; subst.
  pose proof (Hget d (or_introl eq_refl)) as Hd. cbn [dict_get] in Hd.
  rewrite bytes_eqb_refl in Hd. injection Hd as ->.
  cbn [map snd]. f_equal. apply IH; [exact Hk | exact Hnd' |].
  intros d0 Hd0. specialize (Hget d0 (or_intror Hd0)).
  cbn [dict_get] in Hget.
  destruct (bytes_eqb (ieee d) (ieee d0)) eqn:E; [|exact Hget].
  apply bytes_eqb_eq in E. exfalso. apply Hfresh. rewrite E.
  apply in_map. exact Hd0.
Qed.

(** In a registry with distinct addresses, the address of a device without
    a key is not that of a device with one. *)
Lemma unkeyed_address_not_keyed (ds : list StoredDevice) (d : StoredDevice) :
  NoDup (map ieee ds) -> In d ds -> keyed d = false ->
  ~ In (ieee d) (map ieee (filter keyed ds)).
Proof.
  induction ds as [|x ds IH]; intros Hnd Hin Hk; [destruct Hin|].
  cbn [map] in Hnd. inversion Hnd as [|? ? Hfresh Hnd']; subst.
  cbn [filter]. destruct Hin as [->|Hin].
  - rewrite Hk. intros H. apply Hfresh.
    apply in_map_iff in H as (y & Ey & Hy). apply filter_In in Hy as [Hy _].
    rewrite <- Ey. apply in_map. exact Hy.
  - destruct (keyed x); [|apply IH; assumption].
    cbn [map]. intros [E|H]; [|exact (IH Hnd' Hin Hk H)].
    apply Hfresh. rewrite E. apply in_map. exact Hin.
Qed.

Section RoundTripExtras.

Variable base : Z.

(** X15.  [read_devices] after a completed [write_devices] returns the registry
    written, device by device and in the same order, when nothing is
    undisclosed and the registry has distinct addresses, no sentinel short
    address and 16-byte keys on non-zero 8-byte addresses.  On firmware 1.2
    every device comes back with its address and short address only.  On
    newer firmware, when the stored seed is the seed chosen, a device
    without a key comes back with its address and short address only, and
    a device with a key comes back with its key, its [tx_counter] plus
    [counter_increment] and its [rx_counter], and without a shift. *)
Theorem write_then_read_devices (ds : list StoredDevice) (inc : Z)
  (sarg : option KeyData) (s s' : session) :
  write_devices base ds inc sarg s = (Ok tt, s') ->
  (forall i, secured (store s) i = false) ->
  registry_ok ds ->
  (version (store s) = Z_Stack_1_2 ->
   read_devices base (store s')
   = Ok (map (fun d => new_StoredDevice (ieee d) (nwk d)) ds))
  /\ (forall seed,
        version (store s) <> Z_Stack_1_2 ->
        tclk_seed (store s) = Some seed ->
        choose_seed sarg (ieees_and_keys_of ds) = Some seed ->
        read_devices base (store s')
        = Ok (map (read_back inc) ds)).
Proof.
  intros Hw Hdis (Hnd & Hreg).
  destruct (write_devices_Ok base ds inc sarg s s' Hw)
    as (h & old_a & old & HF & (Hv & Hsec & Hseed) & Ha & Hl & Ht).
  set (nv' := store s') in *.
  assert (Hdis' : forall i, secured nv' i = false)
    by (intros i; rewrite Hsec; apply Hdis).
  assert (R2 : read_addr_mgr_entries nv'
               = Ok (pad (map addr_mgr_entry_of ds) EMPTY_ADDR_MGR_ENTRY
                       (length old_a))).
  { rewrite addr_table_read, Hdis', Ha. reflexivity. }
  set (D := map (fun d0 => (ieee d0, new_StoredDevice (ieee d0) (nwk d0))) ds).
  assert (R3 : for_each new_device
                 (pad (map addr_mgr_entry_of ds) EMPTY_ADDR_MGR_ENTRY
                    (length old_a)) [] = Ok D).
  { unfold pad. rewrite new_device_pass; [reflexivity | | exact Hnd].
    intros d0 Hd0. apply (Hreg d0 Hd0). }
  assert (HkeysD : map fst D = map ieee ds).
  { unfold D. rewrite map_map. reflexivity. }
  assert (HgetD : forall d, In d ds ->
                    dict_get D (ieee d)
                    = Ok (new_StoredDevice (ieee d) (nwk d))).
  { intros d Hd. apply dict_get_NoDup; [rewrite HkeysD; exact Hnd|].
    unfold D. apply in_map_iff. exists d. auto. }
  assert (R5 : read_unhashed_link_keys base nv'
                 (pad (map addr_mgr_entry_of ds) EMPTY_ADDR_MGR_ENTRY
                    (length old_a)) = ([], None)).
  { eapply read_unhashed_link_keys_empty; [exact Hdis' | exact Hl]. }
  split.
  - (* firmware 1.2 *)
    intros Hfw.
    assert (R1 : read_tclk_seed nv' = Ok None)
      by (unfold read_tclk_seed; rewrite Hv, Hfw; reflexivity).
    unfold read_devices. rewrite R1. cbn [bind]. rewrite R2. cbn [bind].
    rewrite R3. cbn [bind]. unfold for_generator at 1.
    cbn [read_hashed_link_keys fst snd for_each bind].
    unfold for_generator. rewrite R5. cbn [fst snd for_each bind].
    unfold dict_values, D. rewrite map_map. reflexivity.
  - (* newer firmware *)
    intros seed Hfw Hstored Hchosen. rewrite Hchosen in HF.
    assert (R1 : read_tclk_seed nv' = Ok (Some seed)).
    { unfold read_tclk_seed, osal_read. rewrite Hdis', Hseed, Hstored, Hv.
      destruct (version (store s)); [congruence | reflexivity | reflexivity]. }
    destruct (yield_hashed_entries inc seed
                (length (tclk_table (store s)) - length h) (filter keyed ds) h
                HF) as (items & Hy & Hitems).
    { intros d0 Hd0. apply filter_In in Hd0 as [Hd0 Hkeyed].
      unfold keyed in Hkeyed.
      destruct (truthy (aps_link_key d0)) as [k0|] eqn:Ek0; [|discriminate].
      apply truthy_Some in Ek0.
      destruct (Hreg d0 Hd0) as [_ Hwf].
      destruct (Hwf k0 Ek0) as (Hi & _ & Hnz).
      split; [exact Hi|]. split; [|exact Hnz].
      intros k1 Ek1. destruct (Hwf k1 Ek1) as (_ & [Hlen _] & _). exact Hlen. }
    assert (R4 : read_hashed_link_keys nv' (Some seed) = (items, None)).
    { unfold read_hashed_link_keys. rewrite tclk_table_read, Hdis', Ht.
      exact Hy. }
    pose proof (hashed_items_ieee _ _ _ _ Hitems) as Hieee.
    destruct (attach_hashed_pass (Some seed) items) with (D := D)
      as (D' & HD' & Hkeys' & Hother & Hattached).
    { rewrite Hieee. apply keyed_devices_NoDup. exact Hnd. }
    { intros it Hit. rewrite HkeysD.
      apply (in_map item_ieee) in Hit. rewrite Hieee in Hit.
      apply in_map_iff in Hit as (d0 & <- & Hd0).
      apply in_map. apply filter_In in Hd0. tauto. }
    unfold read_devices. rewrite R1. cbn [bind]. rewrite R2. cbn [bind].
    rewrite R3. cbn [bind]. unfold for_generator at 1. rewrite R4.
    cbn [fst snd]. rewrite HD'. cbn [bind].
    unfold for_generator. rewrite R5. cbn [fst snd for_each bind].
    f_equal. apply dict_values_by_lookup;
      [rewrite Hkeys'; exact HkeysD | exact Hnd |].
    intros d Hd. destruct (keyed d) eqn:Ekd.
    + (* a device with a key *)
      assert (Hkd : In d (filter keyed ds))
        by (apply filter_In; split; assumption).
      destruct (Forall2_In_l _ _ _ d Hitems Hkd)
        as (it & Hit & (key & shift & tx & rx & Hk & Hf & Htx & Hrx & Eit)).
      destruct (Hattached it Hit) as (v & Hv0 & Hv').
      assert (Eieee : item_ieee it = ieee d) by (rewrite Eit; reflexivity).
      rewrite Eieee in Hv0, Hv'. rewrite (HgetD d Hd) in Hv0.
      injection Hv0 as <-. rewrite Hv'. f_equal.
      unfold read_back. rewrite Hk, Htx, Hrx, Eit. reflexivity.
    + (* a device without one *)
      rewrite Hother, (HgetD d Hd).
      * unfold read_back, keyed in *.
        destruct (truthy (aps_link_key d)); [discriminate | reflexivity].
      * rewrite Hieee. apply unkeyed_address_not_keyed; assumption.
Qed.

End RoundTripExtras.

Lemma write_then_read_devices_witness :
  let s := Sample.session_of
             (Sample.empty_store Z_Stack_3_0 (Some Sample.seed)
                Sample.disclosed [0; 0; 0; 0; 0; 0; 0]) in
  let blank := Sample.device [2; 1; 2; 3; 4; 5; 6; 7] 0x3456 None None None in
  let ds := blank :: Sample.hashed_devices in
  exists s',
    write_devices Sample.legacy_start ds default_counter_increment
      (Some Sample.seed) s = (Ok tt, s')
    /\ registry_ok ds
    /\ version (store s) <> Z_Stack_1_2
    /\ read_devices Sample.legacy_start (store s')
       = Ok (map (read_back default_counter_increment) ds).
Proof.
  cbv zeta.
  set (s := Sample.session_of
              (Sample.empty_store Z_Stack_3_0 (Some Sample.seed)
                 Sample.disclosed [0; 0; 0; 0; 0; 0; 0])).
  set (ds := Sample.device [2; 1; 2; 3; 4; 5; 6; 7] 0x3456 None None None
             :: Sample.hashed_devices).
  eexists.
  assert (Hw : write_devices Sample.legacy_start ds default_counter_increment
                 (Some Sample.seed) s
               = (Ok tt,
                  snd (write_devices Sample.legacy_start ds
                         default_counter_increment (Some Sample.seed) s)))
    by (vm_compute; reflexivity).
  assert (Hdis : forall i, secured (store s) i = false) by reflexivity.
  assert (Hreg : registry_ok ds).
  { destruct sample_registry_ok as [Hnd0 Hreg0]. split.
    - unfold ds. cbn [map]. constructor; [|exact Hnd0].
      intros [E|[E|[]]]; discriminate E.
    - intros d [<-|Hd]; [|apply Hreg0, Hd].
      split; [discriminate|]. intros key E. discriminate E. }
  assert (Hfw : version (store s) <> Z_Stack_1_2) by discriminate.
  split; [exact Hw|]. split; [exact Hreg|]. split; [exact Hfw|].
  exact (proj2 (write_then_read_devices Sample.legacy_start ds
                  default_counter_increment (Some Sample.seed) s _
                  Hw Hdis Hreg)
           Sample.seed Hfw eq_refl eq_refl).
Defined.

(** ** [write_devices]: keys of one seed *)

Lemma ieees_and_keys_of_In (ds : list StoredDevice) (ik : EUI64 * KeyData) :
  In ik (ieees_and_keys_of ds)
  <-> exists d, In d ds /\ truthy (aps_link_key d) = Some (snd ik)
                /\ fst ik = ieee d.
Proof.
  unfold ieees_and_keys_of. rewrite in_flat_map. split.
  - intros (d & Hd & Hin). exists d. split; [exact Hd|].
    destruct (truthy (aps_link_key d)) as [key|]; [|destruct Hin].
    destruct Hin as [<-|[]]. split; reflexivity.
  - intros (d & Hd & Hk & Hi). exists d. split; [exact Hd|].
    rewrite Hk. left. destruct ik as [i k]. simpl in *. congruence.
Qed.

Section BuildTablesExtras.

Variable base : Z.

Lemma build_loop_all_hashed (fw : firmware) (inc : Z) (seed : option KeyData)
  (ds : list StoredDevice) :
  (forall d key, In d ds -> truthy (aps_link_key d) = Some key ->
     find_key_shift_in (ieee d) key seed <> None /\ counters_ok inc d) ->
  forall n h,
    exists h',
      for_each (build_entry base fw inc seed) (enumerate_from n ds)
        (h, [], [])
      = Ok (h ++ h', [], [])
      /\ Forall2 (hashed_entry_of inc seed) (filter keyed ds) h'.
Proof.
  induction ds as [|d ds IH]; intros H n h.
  - exists []. rewrite app_nil_r. split; [reflexivity | constructor].
  - cbn [enumerate_from for_each filter].
    assert (Hrest : forall d0 key, In d0 ds ->
              truthy (aps_link_key d0) = Some key ->
              find_key_shift_in (ieee d0) key seed <> None
              /\ counters_ok inc d0)
      by (intros d0 key Hd0; apply H; right; assumption).
    destruct (keyed d) eqn:Ek.
    + unfold keyed in Ek.
      destruct (truthy (aps_link_key d)) as [key|] eqn:Et; [|discriminate].
      destruct (H d key (or_introl eq_refl) Et) as [Hf Hc].
      destruct (find_key_shift_in (ieee d) key seed) as [shift|] eqn:Es;
        [|congruence].
      destruct (build_entry_hashed base fw inc seed n d h [] [] key shift
                  Et Es Hc) as (e & Hb & He).
      destruct (IH Hrest (n + 1) (h ++ [e])) as (h' & Hloop & HF).
      exists (e :: h').
      match goal with
      | |- context [bind ?x _] =>
          replace x with (Ok (h ++ [e], [], []) : result tables)
            by (symmetry; exact Hb)
      end.
      cbn [bind]. split; [|constructor; assumption].
      rewrite <- app_assoc in Hloop. exact Hloop.
    + destruct (IH Hrest (n + 1) h) as (h' & Hloop & HF).
      exists h'. rewrite build_entry_not_keyed by exact Ek. cbn [bind].
      split; assumption.
Qed.

(** X7.  When the keys of the devices all derive from one 16-byte seed and no
    seed is given, [write_devices] builds a hashed entry for every device
    with a key and nothing else: the seed it chooses derives every key, so
    that no key is left for the raw-key table and the indirection table.
    The devices with a key have 8-byte addresses and counters that fit
    once incremented. *)
Theorem build_tables_common_seed (fw : firmware) (inc : Z) (seed : KeyData)
  (ds : list StoredDevice) :
  length seed = 16%nat ->
  (forall d key, In d ds -> truthy (aps_link_key d) = Some key ->
     is_EUI64 (ieee d)
     /\ (exists s, 0 <= s <= 15 /\ key = compute_key (ieee d) seed s)
     /\ counters_ok inc d) ->
  exists h,
    build_tables base fw ds inc (choose_seed None (ieees_and_keys_of ds))
    = Ok (h, [], [])
    /\ Forall2
         (hashed_entry_of inc (choose_seed None (ieees_and_keys_of ds)))
         (filter keyed ds) h.
Proof.
  intros Hs H. unfold build_tables, enumerate.
  destruct (build_loop_all_hashed fw inc
              (choose_seed None (ieees_and_keys_of ds)) ds) with (n := 0)
    (h := @nil TCLKDevEntry) as (h & Hb & HF); [|exists h; auto].
  intros d key Hd Hk. destruct (H d key Hd Hk) as (Hi & Hder & Hc).
  split; [|exact Hc].
  assert (Hin : In (ieee d, key) (ieees_and_keys_of ds))
    by (apply ieees_and_keys_of_In; exists d; auto).
  destruct (common_seed_chosen (ieees_and_keys_of ds) seed)
    as (n & _ & _ & Hchosen & Hall).
  - intros E. rewrite E in Hin. destruct Hin.
  - exact Hs.
  - intros ik Hik. apply ieees_and_keys_of_In in Hik as (d0 & Hd0 & Hk0 & Ei).
    destruct (H d0 _ Hd0 Hk0) as (Hi0 & Hder0 & _).
    rewrite Ei. split; [exact Hi0 | exact Hder0].
  - rewrite Hchosen. exact (Hall (ieee d, key) Hin).
Qed.

End BuildTablesExtras.

Lemma build_tables_common_seed_witness :
  length Sample.seed = 16%nat
  /\ exists h,
       build_tables Sample.legacy_start Z_Stack_3_30 Sample.hashed_devices
         default_counter_increment
         (choose_seed None (ieees_and_keys_of Sample.hashed_devices))
       = Ok (h, [], [])
       /\ length h = 2%nat.
Proof.
  assert (Hs : length Sample.seed = 16%nat) by reflexivity.
  assert (H : forall d key, In d Sample.hashed_devices ->
                truthy (aps_link_key d) = Some key ->
                is_EUI64 (ieee d)
                /\ (exists s, 0 <= s <= 15
                              /\ key = compute_key (ieee d) Sample.seed s)
                /\ counters_ok default_counter_increment d).
  { intros d key [<-|[<-|[]]] E; injection E as <-;
      (split; [solve_bytes|]); (split; [|]).
    - exists 0. split; [lia | reflexivity].
    - exists 10, 20. unfold default_counter_increment.
      repeat split; try reflexivity; lia.
    - exists 3. split; [lia | reflexivity].
    - exists 30, 40. unfold default_counter_increment.
      repeat split; try reflexivity; lia. }
  split; [exact Hs|].
  destruct (build_tables_common_seed Sample.legacy_start Z_Stack_3_30
              default_counter_increment Sample.seed Sample.hashed_devices
              Hs H) as (h & Hb & HF).
  exists h. split; [exact Hb|].
  apply Forall2_length in HF. rewrite <- HF. reflexivity.
Defined.
